(** * RoPE fusion passes of OpenVINO: a shallow embedding

  Sources embedded here:
  - [src/core/include/openvino/core/type.hpp]
    ([DiscreteTypeInfo], [is_type], [as_type], [as_type_ptr]);
  - [src/common/transformations/src/transformations/common_optimizations/
     fuse_rotary_positional_embeddings.cpp]
    (the matcher callbacks of the RoPE fusion rules).

  Conventions.  A C++ computation that may throw or run into undefined
  behaviour is a partial function: [None] stands for "no defined result"
  (an exception such as [std::out_of_range] from [map::at], a null
  dereference, a signed overflow, an out-of-range float-to-integer
  conversion).  Code that mutates the model graph is written in a
  state-and-error monad over the graph. *)

From Stdlib Require Import ZArith Lia.
From Stdlib.Strings Require Import Byte.
From stdpp Require Import base option list strings gmap.

#[local] Open Scope string_scope.
#[local] Open Scope Z_scope.

(* ===================================================================== *)
(** * Machine integers and conversions *)
(* ===================================================================== *)

Module Cxx.

(** [size_t] is a 64-bit unsigned integer; arithmetic on it wraps. *)
Definition size_t_modulus : Z := 2 ^ 64.

(** [static_cast<size_t>(v)] for an [int64_t] value [v]: reduction modulo
    [2^64]. *)
Definition to_size_t (v : Z) : Z := v mod size_t_modulus.

Definition size_t_add (a b : Z) : Z := (a + b) mod size_t_modulus.
Definition size_t_mul (a b : Z) : Z := (a * b) mod size_t_modulus.

Definition in_int64 (v : Z) : bool := (- 2 ^ 63 <=? v) && (v <? 2 ^ 63).
Definition in_int32 (v : Z) : bool := (- 2 ^ 31 <=? v) && (v <? 2 ^ 31).
Definition in_size_t (v : Z) : bool := (0 <=? v) && (v <? size_t_modulus).

(** Signed 64-bit multiplication; overflow is undefined behaviour. *)
Definition int64_mul (a b : Z) : option Z :=
  if in_int64 (a * b) then Some (a * b) else None.

(** A [double] holding an integral value is represented by that value.
    The doubles of this development are symbol values that the pattern
    validator read from integer constants and attributes.  Converting a
    double to an integer type is defined only when the (truncated) value
    fits the target type. *)
Definition double_to_int (d : Z) : option Z :=
  if in_int32 d then Some d else None.

Definition double_to_size_t (d : Z) : option Z :=
  if in_size_t d then Some d else None.

(** The double nearest to a non-negative integer [v], ties going to the
    even significand (the rounding of the IEEE-754 targets of the code
    base).  A double keeps the 53 leading bits: with [e] the number of
    bits dropped, [v] is [q * 2^e + r] and becomes [q * 2^e] or
    [(q + 1) * 2^e].  The integers below [2^53] are doubles.  The range
    of the exponent is not represented: it is far beyond the integer
    types the doubles are converted to. *)
Definition round_to_double (v : Z) : Z :=
  let e := Z.log2 v - 52 in
  if e <=? 0 then v
  else
    let q := v / 2 ^ e in
    let r := v mod 2 ^ e in
    let half := 2 ^ (e - 1) in
    let q' :=
      if r <? half then q
      else if half <? r then q + 1
      else if Z.even q then q else q + 1 in
    q' * 2 ^ e.

(** The conversion of a [size_t] to [double] that the usual arithmetic
    conversions insert when the other operand is a [double]. *)
Definition size_t_to_double (v : Z) : Z := round_to_double v.

(** [a + b] on doubles with integral values: the exact sum, rounded. *)
Definition double_add (a b : Z) : Z :=
  let s := a + b in
  if s <? 0 then - round_to_double (- s) else round_to_double s.

(** Raw pointers and [shared_ptr]s: [None] is the null pointer. *)
Definition ptr (A : Type) : Type := option A.
Definition nullptr {A : Type} : ptr A := None.

(** Contextual conversion of a pointer to [bool]. *)
Definition ptr_to_bool {A : Type} (p : ptr A) : bool :=
  match p with Some _ => true | None => false end.

(** [p->...]: dereferencing the null pointer has no defined result. *)
Definition deref {A : Type} (p : ptr A) : option A := p.

End Cxx.

(* ===================================================================== *)
(** * [openvino/core/type.hpp] *)
(* ===================================================================== *)

Module Type_hpp.
Import Cxx.

(** [struct DiscreteTypeInfo]: name, version and a pointer to the parent
    type info.  The private [hash_value] cache is not observable through
    the functions below and is left out. *)
#[warnings="-register-all"] Inductive DiscreteTypeInfo : Type := mkDiscreteTypeInfo {
  name : string;
  version_id : option string;
  parent : option DiscreteTypeInfo
}.

(** Modelled from the spec: [DiscreteTypeInfo::operator==] is declared in
    the header and defined elsewhere.  The spec speaks of "a single
    registered type tag per node kind"; the tag is the name together with
    the version. *)
Definition type_info_eqb (a b : DiscreteTypeInfo) : bool :=
  bool_decide (name a = name b) && bool_decide (version_id a = version_id b).

(** Modelled from the spec: [DiscreteTypeInfo::is_castable] is declared
    in the header and defined elsewhere.  The spec describes it as "a
    polymorphic node kind tag check plus an ancestor-tag walk" that
    "succeeds iff exact-or-derived type matches". *)
Fixpoint is_castable (self target_type : DiscreteTypeInfo) : bool :=
  type_info_eqb self target_type
  || match parent self with
     | Some p => is_castable p target_type
     | None => false
     end.

(** A C++ class as far as this header looks at it: its name, its direct
    base classes, and its [type_info] member ("Type must have a static
    type_info member and a virtual get_type_info() member that returns a
    reference to its type_info member"). *)
#[warnings="-register-all"] Inductive CxxClass : Type := mkCxxClass {
  class_name : string;
  class_bases : list CxxClass;
  class_type_info : DiscreteTypeInfo
}.

(** An object with its most derived class. *)
Record Object : Type := mkObject {
  object_address : positive;
  object_class : CxxClass
}.

Definition get_type_info_static (T : CxxClass) : DiscreteTypeInfo :=
  class_type_info T.

(** The virtual [get_type_info()] answers for the most derived class. *)
Definition get_type_info (o : Object) : DiscreteTypeInfo :=
  class_type_info (object_class o).

(** [std::is_base_of_v<Base, Derived>]: [Derived] is [Base] or inherits
    from it, directly or not. *)
Fixpoint is_base_of (Base : string) (Derived : CxxClass) : bool :=
  String.eqb (class_name Derived) Base
  || existsb (is_base_of Base) (class_bases Derived).

Definition ConversionExtensionBase : string :=
  "ov::frontend::ConversionExtensionBase".

(** [template <typename T> constexpr bool use_ov_dynamic_cast()] *)
Definition use_ov_dynamic_cast (T : CxxClass) : bool :=
  is_base_of ConversionExtensionBase T.

(** [is_type<Type>(value)]:
    [return value && value->get_type_info().is_castable(Type::get_type_info_static());]
    The right operand of [&&] is evaluated only for a non-null [value]. *)
Definition is_type (T : CxxClass) (value : ptr Object) : option bool :=
  if ptr_to_bool value then
    o ← deref value;
    Some (is_castable (get_type_info o) (get_type_info_static T))
  else Some false.

(** [is_type_any_of<Types...>(value)]: the fold [(is_type<Types>(value) || ...)]. *)
Fixpoint is_type_any_of (Ts : list CxxClass) (value : ptr Object) : option bool :=
  match Ts with
  | [] => Some false
  | T :: Ts' =>
      b ← is_type T value;
      if b : bool then Some true else is_type_any_of Ts' value
  end.

(** [static_cast<Type*>(value)] / [std::static_pointer_cast<Type>(value)]:
    the same object, seen as a [Type]. *)
Definition static_pointer_cast (T : CxxClass) (value : ptr Object) : ptr Object :=
  value.

Section casts.
(** [dynamic_cast] is a construct of the language, and
    [std::dynamic_pointer_cast] applies it to the stored pointer.
    Whether it converts is decided by the inheritance graph of the
    classes (access, repeated and virtual bases), which this header does
    not look at: [dynamic_cast_converts T o] stands for its answer on a
    handle to the object [o]. *)
Variable dynamic_cast_converts : CxxClass → Object → bool.

(** [dynamic_cast<Type*>(value)] / [std::dynamic_pointer_cast<Type>(value)]:
    null for a null pointer and when the cast does not convert, the
    same object otherwise. *)
Definition dynamic_pointer_cast (T : CxxClass) (value : ptr Object) : ptr Object :=
  match value with
  | None => nullptr
  | Some o => if dynamic_cast_converts T o then Some o else nullptr
  end.

(** [as_type<Type>(value)] on raw pointers. *)
Definition as_type (T : CxxClass) (value : ptr Object) : option (ptr Object) :=
  if use_ov_dynamic_cast T then
    b ← is_type T value;
    Some (if b : bool then static_pointer_cast T value else nullptr)
  else Some (dynamic_pointer_cast T value).

(** [util::AsTypePtr<std::shared_ptr<In>>::call<Type>(value)] *)
Definition AsTypePtr_call (T : CxxClass) (value : ptr Object) : option (ptr Object) :=
  b ← is_type T value;
  Some (if b : bool then static_pointer_cast T value else nullptr).

(** [as_type_ptr<Type>(value)] *)
Definition as_type_ptr (T : CxxClass) (value : ptr Object) : option (ptr Object) :=
  if use_ov_dynamic_cast T then AsTypePtr_call T value
  else Some (dynamic_pointer_cast T value).

End casts.

End Type_hpp.

(* ===================================================================== *)
(** * The model graph (IR) seen by the matcher callbacks *)
(* ===================================================================== *)

Module IR.

(** ** Constants *)

(** Element types.  The enumeration itself lives outside the embedded
    sources; the byte-aligned numeric types are kept here. *)
Inductive element_type : Type :=
  | boolean | bf16 | f16 | f32 | f64
  | i8 | i16 | i32 | i64
  | u8 | u16 | u32 | u64.

#[global] Instance element_type_eq_dec : EqDecision element_type.
Proof. solve_decision. Defined.

(** Size of one element in bytes. *)
Definition element_size (et : element_type) : nat :=
  match et with
  | boolean | i8 | u8 => 1
  | bf16 | f16 | i16 | u16 => 2
  | f32 | i32 | u32 => 4
  | f64 | i64 | u64 => 8
  end%nat.

Definition is_integral_number (et : element_type) : bool :=
  match et with
  | i8 | i16 | i32 | i64 | u8 | u16 | u32 | u64 => true
  | _ => false
  end.

Definition is_signed (et : element_type) : bool :=
  match et with
  | i8 | i16 | i32 | i64 => true
  | _ => false
  end.

(** [op::v0::Constant]: element type, shape and the raw buffer. *)
Record Constant : Type := mkConstant {
  get_element_type : element_type;
  get_shape : list nat;
  get_data_ptr : list byte
}.

#[global] Instance byte_eq_dec : EqDecision byte := Byte.byte_eq_dec.

#[global] Instance Constant_eq_dec : EqDecision Constant.
Proof. solve_decision. Defined.

Definition shape_size (shape : list nat) : nat := foldr Nat.mul 1%nat shape.

Definition get_byte_size (c : Constant) : nat :=
  (shape_size (get_shape c) * element_size (get_element_type c))%nat.

(** A constant whose buffer has the size its type and shape ask for. *)
Definition well_sized (c : Constant) : Prop :=
  length (get_data_ptr c) = get_byte_size c.

(** [memcmp(a, b, n)]: the sign of the first difference among the first
    [n] bytes, compared as unsigned values.  Reading past the end of a
    buffer has no defined result. *)
Fixpoint memcmp (a b : list byte) (n : nat) : option Z :=
  match n with
  | O => Some 0
  | S n' =>
      match a, b with
      | x :: a', y :: b' =>
          if (Byte.to_N x <? Byte.to_N y)%N then Some (-1)
          else if (Byte.to_N y <? Byte.to_N x)%N then Some 1
          else memcmp a' b' n'
      | _, _ => None
      end
  end.

(** Little-endian value of a byte string. *)
Fixpoint le_unsigned (bs : list byte) : Z :=
  match bs with
  | [] => 0
  | b :: bs' => Z.of_N (Byte.to_N b) + 256 * le_unsigned bs'
  end.

Definition le_signed (bs : list byte) : Z :=
  let u := le_unsigned bs in
  let m := 256 ^ Z.of_nat (length bs) in
  if 2 * u <? m then u else u - m.

Fixpoint decode_elements (signed : bool) (size count : nat) (bs : list byte)
  : list Z :=
  match count with
  | O => []
  | S count' =>
      (if signed then le_signed (take size bs) else le_unsigned (take size bs))
      :: decode_elements signed size count' (drop size bs)
  end.

(** [Constant::cast_vector<int64_t>()] for constants of an integral
    element type (the only ones a permutation or a shape can have); the
    conversion of floating-point buffers is outside this model.  The
    unsigned 64-bit values above [2^63 - 1] would be reinterpreted; they
    are excluded as well. *)
Definition cast_vector_int64 (c : Constant) : option (list Z) :=
  let et := get_element_type c in
  if is_integral_number et && bool_decide (well_sized c) then
    let vs := decode_elements (is_signed et) (element_size et)
                (shape_size (get_shape c)) (get_data_ptr c) in
    if forallb Cxx.in_int64 vs then Some vs else None
  else None.

(** ** The fused operation and its configuration *)

(** [op::internal::RoPE::Config].  The struct is declared outside the
    embedded sources; its fields are the ones the callbacks assign and
    the spec lists under "Fusion Configuration".  The integer fields are
    [size_t] except [gather_position_arg_id], an [int]. *)
Record Config : Type := mkConfig {
  slice_start : Z;
  slice_stop : Z;
  input_trans0213 : bool;
  output_trans0213 : bool;
  is_interleaved : bool;
  rotary_ndims : Z;
  is_chatglm : bool;
  support_2d_rope : bool;
  is_qwen : bool;
  use_rope_cache : bool;
  head_cnt : Z;
  head_size : Z;
  gather_position_arg_id : Z
}.

#[global] Instance Config_eq_dec : EqDecision Config.
Proof. solve_decision. Defined.

(** Modelled from the spec: a default-constructed [Config] (the member
    initialisers are in a header outside the embedded sources): no slice
    window, no flag set, every count zero. *)
Definition default_Config : Config :=
  mkConfig 0 0 false false false 0 false false false false 0 0 0.

Definition set_slice_start (v : Z) (c : Config) : Config :=
  mkConfig v (slice_stop c) (input_trans0213 c) (output_trans0213 c)
    (is_interleaved c) (rotary_ndims c) (is_chatglm c) (support_2d_rope c)
    (is_qwen c) (use_rope_cache c) (head_cnt c) (head_size c)
    (gather_position_arg_id c).
Definition set_slice_stop (v : Z) (c : Config) : Config :=
  mkConfig (slice_start c) v (input_trans0213 c) (output_trans0213 c)
    (is_interleaved c) (rotary_ndims c) (is_chatglm c) (support_2d_rope c)
    (is_qwen c) (use_rope_cache c) (head_cnt c) (head_size c)
    (gather_position_arg_id c).
Definition set_input_trans0213 (v : bool) (c : Config) : Config :=
  mkConfig (slice_start c) (slice_stop c) v (output_trans0213 c)
    (is_interleaved c) (rotary_ndims c) (is_chatglm c) (support_2d_rope c)
    (is_qwen c) (use_rope_cache c) (head_cnt c) (head_size c)
    (gather_position_arg_id c).
Definition set_output_trans0213 (v : bool) (c : Config) : Config :=
  mkConfig (slice_start c) (slice_stop c) (input_trans0213 c) v
    (is_interleaved c) (rotary_ndims c) (is_chatglm c) (support_2d_rope c)
    (is_qwen c) (use_rope_cache c) (head_cnt c) (head_size c)
    (gather_position_arg_id c).
Definition set_is_interleaved (v : bool) (c : Config) : Config :=
  mkConfig (slice_start c) (slice_stop c) (input_trans0213 c)
    (output_trans0213 c) v (rotary_ndims c) (is_chatglm c)
    (support_2d_rope c) (is_qwen c) (use_rope_cache c) (head_cnt c)
    (head_size c) (gather_position_arg_id c).
Definition set_rotary_ndims (v : Z) (c : Config) : Config :=
  mkConfig (slice_start c) (slice_stop c) (input_trans0213 c)
    (output_trans0213 c) (is_interleaved c) v (is_chatglm c)
    (support_2d_rope c) (is_qwen c) (use_rope_cache c) (head_cnt c)
    (head_size c) (gather_position_arg_id c).
Definition set_is_chatglm (v : bool) (c : Config) : Config :=
  mkConfig (slice_start c) (slice_stop c) (input_trans0213 c)
    (output_trans0213 c) (is_interleaved c) (rotary_ndims c) v
    (support_2d_rope c) (is_qwen c) (use_rope_cache c) (head_cnt c)
    (head_size c) (gather_position_arg_id c).
Definition set_support_2d_rope (v : bool) (c : Config) : Config :=
  mkConfig (slice_start c) (slice_stop c) (input_trans0213 c)
    (output_trans0213 c) (is_interleaved c) (rotary_ndims c) (is_chatglm c)
    v (is_qwen c) (use_rope_cache c) (head_cnt c) (head_size c)
    (gather_position_arg_id c).
Definition set_is_qwen (v : bool) (c : Config) : Config :=
  mkConfig (slice_start c) (slice_stop c) (input_trans0213 c)
    (output_trans0213 c) (is_interleaved c) (rotary_ndims c) (is_chatglm c)
    (support_2d_rope c) v (use_rope_cache c) (head_cnt c) (head_size c)
    (gather_position_arg_id c).
Definition set_use_rope_cache (v : bool) (c : Config) : Config :=
  mkConfig (slice_start c) (slice_stop c) (input_trans0213 c)
    (output_trans0213 c) (is_interleaved c) (rotary_ndims c) (is_chatglm c)
    (support_2d_rope c) (is_qwen c) v (head_cnt c) (head_size c)
    (gather_position_arg_id c).
Definition set_head_cnt (v : Z) (c : Config) : Config :=
  mkConfig (slice_start c) (slice_stop c) (input_trans0213 c)
    (output_trans0213 c) (is_interleaved c) (rotary_ndims c) (is_chatglm c)
    (support_2d_rope c) (is_qwen c) (use_rope_cache c) v (head_size c)
    (gather_position_arg_id c).
Definition set_head_size (v : Z) (c : Config) : Config :=
  mkConfig (slice_start c) (slice_stop c) (input_trans0213 c)
    (output_trans0213 c) (is_interleaved c) (rotary_ndims c) (is_chatglm c)
    (support_2d_rope c) (is_qwen c) (use_rope_cache c) (head_cnt c) v
    (gather_position_arg_id c).
Definition set_gather_position_arg_id (v : Z) (c : Config) : Config :=
  mkConfig (slice_start c) (slice_stop c) (input_trans0213 c)
    (output_trans0213 c) (is_interleaved c) (rotary_ndims c) (is_chatglm c)
    (support_2d_rope c) (is_qwen c) (use_rope_cache c) (head_cnt c)
    (head_size c) v.

(** ** Nodes, outputs, inputs *)

(** [Output<Node>]: a node and the index of one of its outputs; [==]
    compares both. *)
Record Output : Type := mkOutput { get_node : positive; get_index : nat }.

#[global] Instance Output_eq_dec : EqDecision Output.
Proof. solve_decision. Defined.

(** [Input<Node>]: a node and the index of one of its input ports. *)
Record Input : Type := mkInput { input_node : positive; input_index : nat }.

#[global] Instance Input_eq_dec : EqDecision Input.
Proof. solve_decision. Defined.

(** The operation of a node.  The callbacks discriminate constants,
    transposes, reshapes, [opset1::ShapeOf] and the fused operation; any
    other operation is named by its type.  [as_type_ptr<K>(node)] and
    [is_type<K>(node)] are the test that the node's operation is [K];
    user-defined subclasses of operations are not represented. *)
Inductive Op : Type :=
  | OpConstant (c : Constant)
  | OpTranspose
  | OpReshape
  | OpShapeOf
  | OpRoPE (config : Config)
  | OpOther (type_name : string).

#[global] Instance Op_eq_dec : EqDecision Op.
Proof. solve_decision. Defined.

(** A node: operation, input values in port order, friendly name and the
    provenance record written by [copy_runtime_info]. *)
Record Node : Type := mkNode {
  node_op : Op;
  input_values : list Output;
  get_friendly_name : string;
  rt_info : list positive
}.

#[global] Instance Node_eq_dec : EqDecision Node.
Proof. solve_decision. Defined.

Definition with_op (o : Op) (n : Node) : Node :=
  mkNode o (input_values n) (get_friendly_name n) (rt_info n).
Definition with_input_values (l : list Output) (n : Node) : Node :=
  mkNode (node_op n) l (get_friendly_name n) (rt_info n).
Definition with_friendly_name (s : string) (n : Node) : Node :=
  mkNode (node_op n) (input_values n) s (rt_info n).
Definition with_rt_info (r : list positive) (n : Node) : Node :=
  mkNode (node_op n) (input_values n) (get_friendly_name n) r.

(** ** The state a callback runs in *)

(** Nodes are kept by identity; a node that lost its consumers stays in
    the store (as a [shared_ptr] keeps it alive) but is read by nobody.
    [next_node] is the identity the next [make_shared] returns.
    [new_nodes] is the list filled by [register_new_node]. *)
Record World : Type := mkWorld {
  nodes : gmap positive Node;
  next_node : positive;
  new_nodes : list positive
}.

Definition with_nodes (f : gmap positive Node → gmap positive Node) (w : World)
  : World :=
  mkWorld (f (nodes w)) (next_node w) (new_nodes w).

End IR.

(* ===================================================================== *)
(** * Graph primitives used by the callbacks *)
(* ===================================================================== *)

Module Graph.
Import IR.

(** State-and-error monad over the callback state. *)
Definition M (A : Type) : Type := World → option (A * World).

Definition ret {A : Type} (a : A) : M A := λ w, Some (a, w).

Definition bind {A B : Type} (c : M A) (k : A → M B) : M B :=
  λ w, match c w with
       | Some (a, w') => k a w'
       | None => None
       end.

(** A pure partial computation inside a callback. *)
Definition lift {A : Type} (o : option A) : M A :=
  λ w, match o with
       | Some a => Some (a, w)
       | None => None
       end.

Definition gets {A : Type} (f : World → A) : M A := λ w, Some (f w, w).
Definition modify (f : World → World) : M unit := λ w, Some (tt, f w).

Module Notations.
  Notation "x <- c ;; k" := (bind c (λ x, k))
    (at level 100, c at next level, k at level 200, right associativity).
  Notation "c ;; k" := (bind c (λ _, k))
    (at level 100, k at level 200, right associativity).
End Notations.
Import Notations.

(** Access to a node through its pointer. *)
Definition find_node (n : positive) : M Node :=
  λ w, match nodes w !! n with
       | Some x => Some (x, w)
       | None => None
       end.

Definition update_node (n : positive) (f : Node → Node) : M unit :=
  x <- find_node n ;;
  modify (with_nodes (λ g, <[n := f x]> g)).

Definition friendly_name_of (n : positive) : M string :=
  x <- find_node n ;; ret (get_friendly_name x).

Definition set_friendly_name (n : positive) (s : string) : M unit :=
  update_node n (with_friendly_name s).

(** [node->input_value(i)]; an index past the inputs throws. *)
Definition input_value (n : positive) (i : nat) : M Output :=
  x <- find_node n ;; lift (input_values x !! i).

(** [node->get_input_node_shared_ptr(i)] *)
Definition get_input_node_shared_ptr (n : positive) (i : nat) : M positive :=
  o <- input_value n i ;; ret (get_node o).

Definition get_input_size (n : positive) : M nat :=
  x <- find_node n ;; ret (length (input_values x)).

(** [ov::as_type_ptr<op::v0::Constant>(node)] *)
Definition as_Constant (n : positive) : M (option Constant) :=
  x <- find_node n ;;
  ret (match node_op x with OpConstant c => Some c | _ => None end).

(** [ov::as_type_ptr<op::internal::RoPE>(node)], giving its config. *)
Definition as_RoPE (n : positive) : M (option Config) :=
  x <- find_node n ;;
  ret (match node_op x with OpRoPE c => Some c | _ => None end).

(** [ov::is_type<K>(node)] for an operation [K] without attributes. *)
Definition is_op (k : Op) (n : positive) : M bool :=
  x <- find_node n ;; ret (bool_decide (node_op x = k)).

(** [rope_node->set_config(config)] *)
Definition set_config (n : positive) (config : Config) : M unit :=
  update_node n (with_op (OpRoPE config)).

(** [std::make_shared<op::internal::RoPE>(new_args, config)]: a new node
    with a new identity.  Its generated name is replaced right after
    construction by every caller; it is the empty string here. *)
Definition make_shared_RoPE (new_args : list Output) (config : Config)
  : M positive :=
  λ w, let n := next_node w in
       Some (n, mkWorld (<[n := mkNode (OpRoPE config) new_args "" []]> (nodes w))
                        (Pos.succ n) (new_nodes w)).

(** Modelled from the spec: [ov::copy_runtime_info(from, to)] lives
    outside the embedded sources.  The spec: "attach, to the new node, a
    merged record of produced-from source nodes ... an append-only
    metadata operation". *)
Definition copy_runtime_info (from : list positive) (to : positive) : M unit :=
  update_node to (λ x, with_rt_info (rt_info x ++ from) x).

(** Re-point a value read from [target] to the same output of
    [replacement]. *)
Definition redirect (target replacement : positive) (o : Output) : Output :=
  if decide (get_node o = target) then mkOutput replacement (get_index o) else o.

Definition redirect_node (target replacement : positive) (x : Node) : Node :=
  with_input_values (redirect target replacement <$> input_values x) x.

(** Modelled from the spec: [ov::replace_node(target, replacement)] lives
    outside the embedded sources.  The spec: "replace node A's entire
    output with node B, rewiring all of A's external consumers to B". *)
Definition replace_node (target replacement : positive) : M unit :=
  modify (with_nodes (λ g, redirect_node target replacement <$> g)).

(** [register_new_node(node)] of the matcher pass. *)
Definition register_new_node (n : positive) : M unit :=
  modify (λ w, mkWorld (nodes w) (next_node w) (new_nodes w ++ [n])).

(** [node->set_argument(position, value)]: replaces the input at
    [position]; at [position = get_input_size()] it adds one.  Positions
    further out would leave unconnected ports and are not represented. *)
Definition set_argument (n : positive) (position : nat) (v : Output) : M unit :=
  x <- find_node n ;;
  let args := input_values x in
  if (position <? length args)%nat then
    update_node n (with_input_values (<[position := v]> args))
  else if (position =? length args)%nat then
    update_node n (with_input_values (args ++ [v]))
  else lift None.

(** [node->validate_and_infer_types()] recomputes output shapes and
    element types, which the node store does not carry. *)
Definition validate_and_infer_types (n : positive) : M unit := ret tt.

(** The input ports of node [k] that read the value [o]. *)
Definition ports_reading (o : Output) (k : positive) (x : Node) : list Input :=
  omap id (imap (λ i v, if decide (v = o) then Some (mkInput k i) else None)
                (input_values x)).

Definition target_inputs (g : gmap positive Node) (o : Output) : list Input :=
  '(k, x) ← map_to_list g; ports_reading o k x.

(** [output.get_target_inputs()]: every input port reading [o]. *)
Definition get_target_inputs (o : Output) : M (list Input) :=
  gets (λ w, target_inputs (nodes w) o).

(** [input.replace_source_output(o)] *)
Definition replace_source_output (i : Input) (o : Output) : M unit :=
  x <- find_node (input_node i) ;;
  update_node (input_node i)
    (with_input_values (<[input_index i := o]> (input_values x))).

(** A [for] loop over a container, running the body for each element. *)
Fixpoint for_each {A : Type} (l : list A) (body : A → M unit) : M unit :=
  match l with
  | [] => ret tt
  | a :: l' => body a ;; for_each l' body
  end.

End Graph.

(* ===================================================================== *)
(** * What a callback reads from the matcher *)
(* ===================================================================== *)

Module Pattern.
Import IR.

(** [pattern::PatternSymbolValue]: the value a symbol of a pattern
    resolved to.  The class is declared outside the embedded sources;
    the alternatives are the ones the callbacks observe through
    [is_static], [is_integer], [i] and [g]: an integer, a double (its
    bits are never looked at), the symbol of a dynamic dimension, a
    group, or nothing (a default-constructed value). *)
#[warnings="-register-all"] Inductive PatternSymbolValue : Type :=
  | SymInvalid
  | SymInteger (i : Z)
  | SymDouble (bits : Z)
  | SymDynamic (s : positive)
  | SymGroup (g : list PatternSymbolValue).

Definition is_integer (v : PatternSymbolValue) : bool :=
  match v with SymInteger _ => true | _ => false end.

Definition is_dynamic (v : PatternSymbolValue) : bool :=
  match v with SymDynamic _ => true | _ => false end.

(** A value is static when it is a number. *)
Definition is_static (v : PatternSymbolValue) : bool :=
  match v with SymInteger _ | SymDouble _ => true | _ => false end.

(** [v.i()] throws unless [v] holds an integer. *)
Definition sym_i (v : PatternSymbolValue) : option Z :=
  match v with SymInteger i => Some i | _ => None end.

(** [v.g()] throws unless [v] holds a group. *)
Definition sym_g (v : PatternSymbolValue) : option (list PatternSymbolValue) :=
  match v with SymGroup g => Some g | _ => None end.

(** What [pattern::Matcher] hands to a callback, and what
    [gen_pattern::PatternValidator] computes from it.  Pattern nodes are
    named after the C++ variables that hold them.
    - [get_match_root]: the node aligned with the pattern root;
    - [get_pattern_value_map]: pattern node to matched value; a pattern
      node of an alternative that was not taken is absent;
    - [get_symbols]: the resolved symbols of predicate-based patterns;
    - [validator_ok], [validator_values]: validity and symbol values of
      [PatternValidator] for [makePattern]-based patterns. *)
Record Matcher : Type := mkMatcher {
  get_match_root : positive;
  get_pattern_value_map : gmap string Output;
  get_symbols : gmap string PatternSymbolValue;
  validator_ok : bool;
  validator_values : gmap string Z
}.

(** [symbols["name"]] on the [unordered_map]: an absent key yields a
    default-constructed value. *)
Definition symbol (m : Matcher) (name : string) : PatternSymbolValue :=
  default SymInvalid (get_symbols m !! name).

(** [validator["name"]] on the validator's [std::map<string, double>]: an
    absent key yields [0.0]. *)
Definition validator (m : Matcher) (name : string) : Z :=
  default 0 (validator_values m !! name).

(** [pattern_map.at(p)] throws for an absent key. *)
Definition at_ (m : Matcher) (p : string) : Graph.M Output :=
  Graph.lift (get_pattern_value_map m !! p).

(** [pattern_map.at(p).get_node_shared_ptr()] *)
Definition node_at (m : Matcher) (p : string) : Graph.M positive :=
  Graph.bind (at_ m p) (λ o, Graph.ret (get_node o)).

(** [pattern_map.count(p)] / [pattern_map.find(p) != pattern_map.end()] *)
Definition count (m : Matcher) (p : string) : bool :=
  bool_decide (is_Some (get_pattern_value_map m !! p)).

(** ** Shape predicates *)

(** [ov::Dimension] of a partial shape: a static length, or a dynamic
    dimension carrying its symbol. *)
Inductive Dimension : Type :=
  | Static (length : Z)
  | Dynamic (s : positive).

Definition dimension_value (d : Dimension) : PatternSymbolValue :=
  match d with
  | Static n => SymInteger n
  | Dynamic s => SymDynamic s
  end.

(** Modelled from the spec: the predicate
    [pattern::rank_equals(4) && pattern::shape_matches("[PRESERVED_DIMS..., head_size]")]
    of the Flux pattern input [x]; [shape_matches] lives outside the
    embedded sources.  The spec: "an arbitrary-length, possibly-empty
    prefix bound to symbol PRESERVED_DIMS followed by exactly one
    trailing dimension bound to head_size"; "variadic symbols compare as
    full lists".  The result is the symbol bindings the predicate adds. *)
Definition flux_x_predicate (shape : list Dimension)
  : option (gmap string PatternSymbolValue) :=
  if bool_decide (length shape = 4%nat) then
    match reverse shape with
    | last_dim :: rev_prefix =>
        Some (<["PRESERVED_DIMS" := SymGroup (dimension_value <$> reverse rev_prefix)]>
              (<["head_size" := dimension_value last_dim]> ∅))
    | [] => None
    end
  else None.

End Pattern.

(* ===================================================================== *)
(** * [fuse_rotary_positional_embeddings.cpp]: the callbacks *)
(* ===================================================================== *)

Module RoPE.
Import Cxx IR Graph Graph.Notations Pattern.

(** ** [chatglm_validate_reshape_symbols] *)

(** The four [static_cast<int>(validator[...])] come first, then the
    three accepted shapes of the triple. *)
Definition chatglm_validate_reshape_symbols (m : Matcher) : option bool :=
  A ← double_to_int (validator m "A");
  B ← double_to_int (validator m "B");
  C ← double_to_int (validator m "C");
  head_cnt ← double_to_int (validator m "head_cnt");
  if ((A =? -1) && (B =? head_cnt) && (C =? 1))          (* ChatGLM4 *)
     || ((A =? 1) && (B =? -1) && (C =? head_cnt))       (* ChatGLM3 *)
     || ((A =? 0) && (B =? 0) && (C =? 0))               (* ChatGLM nano *)
  then Some true
  else Some false.

(** ** [RoPEFusionFlux] *)

Definition RoPEFusionFlux_callback (m : Matcher) : M bool :=
  let root := get_match_root m in
  preserved_dims <- lift (sym_g (symbol m "PRESERVED_DIMS")) ;;
  num_heads <- lift (preserved_dims !! 1%nat) ;;
  let head_size := symbol m "head_size" in
  if negb (is_static num_heads) || negb (is_static head_size) then ret false
  else
    num_heads_i <- lift (sym_i num_heads) ;;
    head_size_i <- lift (sym_i head_size) ;;
    let config := default_Config in
    let config := set_head_cnt (to_size_t num_heads_i) config in
    let config := set_head_size (to_size_t head_size_i) config in
    let config := set_rotary_ndims (IR.head_size config) config in
    let config := set_is_interleaved true config in
    let config := set_output_trans0213 false config in
    v_x <- at_ m "x" ;;
    v_cos <- at_ m "t_cos" ;;
    v_sin <- at_ m "t_sin" ;;
    let new_args := [v_x; v_cos; v_sin] in
    let old_node := root in
    new_node <- make_shared_RoPE new_args config ;;
    old_name <- friendly_name_of old_node ;;
    set_friendly_name new_node old_name ;;
    n_x1 <- node_at m "x1" ;;
    n_split <- node_at m "split" ;;
    n_x2 <- node_at m "x2" ;;
    n_x3 <- node_at m "x3" ;;
    n_y1 <- node_at m "y1" ;;
    n_y2 <- node_at m "y2" ;;
    n_result <- node_at m "result" ;;
    copy_runtime_info [n_x1; n_split; n_x2; n_x3; n_y1; n_y2; n_result] new_node ;;
    replace_node old_node new_node ;;
    (* this new node may match following additional matchers *)
    register_new_node new_node ;;
    ret true.

(** ** [RoPEFusionGPTNEOX] *)

(** "check mul(x, cos) exists": which of the two operands of the first
    multiply is [x]; the other one is the cosine table. *)
Definition gptneox_find_cos (m : Matcher) : M (option Output) :=
  a1 <- at_ m "x_or_cos1" ;;
  vx <- at_ m "x" ;;
  if bool_decide (a1 = vx) then
    c <- at_ m "x_or_cos2" ;; ret (Some c)
  else
    a2 <- at_ m "x_or_cos2" ;;
    vx' <- at_ m "x" ;;
    if bool_decide (a2 = vx') then
      c <- at_ m "x_or_cos1" ;; ret (Some c)
    else ret None.    (* not a RoPE *)

Definition RoPEFusionGPTNEOX_callback (m : Matcher) : M bool :=
  let root := get_match_root m in
  found <- gptneox_find_cos m ;;
  match found with
  | None => ret false
  | Some v_cos =>
      let half_ndims := symbol m "half_ndims" in
      if negb (is_integer half_ndims) then ret false
      else
        half_ndims_i <- lift (sym_i half_ndims) ;;
        let config := default_Config in
        let config := set_rotary_ndims (size_t_mul 2 (to_size_t half_ndims_i)) config in
        v_x <- at_ m "x" ;;
        v_sin <- at_ m "t_sin" ;;
        let new_args := [v_x; v_cos; v_sin] in
        let old_node := root in
        new_node <- make_shared_RoPE new_args config ;;
        old_name <- friendly_name_of old_node ;;
        set_friendly_name new_node old_name ;;
        n_x2neg <- node_at m "x2neg" ;;
        n_x_rotate_half <- node_at m "x_rotate_half" ;;
        n_mul_cos <- node_at m "mul_cos" ;;
        n_mul_sin <- node_at m "mul_sin" ;;
        n_result <- node_at m "result" ;;
        copy_runtime_info [n_x2neg; n_x_rotate_half; n_mul_cos; n_mul_sin; n_result]
          new_node ;;
        replace_node old_node new_node ;;
        (* this new node may match following additional matchers *)
        register_new_node new_node ;;
        ret true
  end.

(** ** [RoPEFusionPreprocess] *)

(** The branch on which input pattern took part in the match; [None] is
    the final [return false]. *)
Definition preprocess_amend (m : Matcher) (rope_node : positive) (config : Config)
  : M (option Config) :=
  if count m "input_to_slice" then
    start <- lift (double_to_size_t (validator m "slice_start")) ;;
    let config := set_slice_start start config in
    stop <- lift (double_to_size_t (validator m "slice_stop")) ;;
    let config := set_slice_stop stop config in
    let config := set_input_trans0213 true config in
    v <- at_ m "input_to_slice" ;;
    set_argument rope_node 0 v ;;
    ret (Some config)
  else if count m "input_to_trans" then
    let config := set_input_trans0213 true config in
    v <- at_ m "input_to_trans" ;;
    set_argument rope_node 0 v ;;
    ret (Some config)
  else ret None.

Definition RoPEFusionPreprocess_callback (m : Matcher) : M bool :=
  if negb (validator_ok m) then ret false
  else
    let root := get_match_root m in
    rope <- as_RoPE root ;;
    match rope with
    | None => ret false
    | Some config =>        (* rope_node->get_config() *)
        let rope_node := root in
        amended <- preprocess_amend m rope_node config ;;
        match amended with
        | None => ret false
        | Some config =>
            set_config rope_node config ;;
            validate_and_infer_types rope_node ;;
            register_new_node rope_node ;;
            ret true
        end
    end.

(** ** [RoPEFusionGPTJ] *)

(** [!ndims.is_integer() || !ndims_over_2.is_integer() ||
     ndims_over_2.i() * 2 != ndims.i()], left to right. *)
Definition gptj_rejects (m : Matcher) : option bool :=
  let ndims := symbol m "ndims" in
  let ndims_over_2 := symbol m "ndims/2" in
  if negb (is_integer ndims) then Some true
  else if negb (is_integer ndims_over_2) then Some true
  else
    h ← sym_i ndims_over_2;
    p ← int64_mul h 2;
    n ← sym_i ndims;
    Some (negb (p =? n)).

(** "Fuse output transpose to Rope": the result is the configuration,
    the provenance list and the node to replace. *)
Definition gptj_fuse_output_transpose
    (root : positive) (config : Config) (rt_from : list positive)
  : M (Config * list positive * positive) :=
  root_target_inputs <- get_target_inputs (mkOutput root 0) ;;
  match root_target_inputs with
  | [input] =>      (* root_target_inputs.size() == 1 *)
      let target_node := input_node input in
      is_transpose <- is_op OpTranspose target_node ;;
      if is_transpose : bool then
        axes <- get_input_node_shared_ptr target_node 1 ;;
        axes_const <- as_Constant axes ;;
        match axes_const with
        | Some c =>
            order <- lift (cast_vector_int64 c) ;;
            if bool_decide (order = [0; 2; 1; 3]) then
              ret (set_output_trans0213 true config, (rt_from ++ [target_node])%list,
                   target_node)
            else ret (config, rt_from, root)
        | None => ret (config, rt_from, root)
        end
      else ret (config, rt_from, root)
  | _ => ret (config, rt_from, root)
  end.

(** "shapeof may be moved up from transpose to add": the [ShapeOf]
    readers of the rotary sum are moved to the data input. *)
Definition gptj_move_shapeof (m : Matcher) : M unit :=
  rotary_emb_node <- node_at m "rotary_emb" ;;
  let rotary_emb_out := mkOutput rotary_emb_node 0 in
  readers <- get_target_inputs rotary_emb_out ;;
  if (length readers =? 2)%nat then
    for_each readers (λ input,
      is_shapeof <- is_op OpShapeOf (input_node input) ;;
      if is_shapeof : bool then
        v <- at_ m "view_Reshape" ;;
        replace_source_output input v
      else ret tt)
  else ret tt.

Definition RoPEFusionGPTJ_callback (m : Matcher) : M bool :=
  let root := get_match_root m in
  reject <- lift (gptj_rejects m) ;;
  if reject : bool then ret false
  else
    n_varsplit <- node_at m "varsplit" ;;
    n_ri_sin <- node_at m "repeat_interleave_sin" ;;
    n_ri_cos <- node_at m "repeat_interleave_cos" ;;
    n_neg <- node_at m "neg_Multiply_1177" ;;
    n_stack <- node_at m "stack_1182" ;;
    n_mul_cos <- node_at m "mul_cos" ;;
    n_mul_sin <- node_at m "mul_sin" ;;
    n_rotary_emb <- node_at m "rotary_emb" ;;
    n_result <- node_at m "result" ;;
    let rt_from := [n_varsplit; n_ri_sin; n_ri_cos; n_neg; n_stack; n_mul_cos;
                    n_mul_sin; n_rotary_emb; n_result] in
    ndims_i <- lift (sym_i (symbol m "ndims")) ;;
    let config := set_rotary_ndims (to_size_t ndims_i) default_Config in
    fused <- gptj_fuse_output_transpose root config rt_from ;;
    let '(config, rt_from, root) := fused in
    let config := set_is_interleaved true config in
    (* input is [B,L,H,S] *)
    v_view <- at_ m "view_Reshape" ;;
    (* sin_cos table (gathered with positions) [1, L, 64] *)
    v_tab1 <- at_ m "gather_sin_cos" ;;
    v_tab2 <- at_ m "gather_sin_cos" ;;
    let new_args := [v_view; v_tab1; v_tab2] in
    let old_node := root in
    new_node <- make_shared_RoPE new_args config ;;
    old_name <- friendly_name_of old_node ;;
    set_friendly_name new_node old_name ;;
    copy_runtime_info rt_from new_node ;;
    replace_node old_node new_node ;;
    gptj_move_shapeof m ;;
    ret true.

(** ** [RoPEFusionChatGLM] *)

Definition RoPEFusionChatGLM_callback
    (split_output_id : Z) (support_2d_rope : bool) (m : Matcher) : M bool :=
  let root := get_match_root m in
  if negb (validator_ok m) then ret false
  else
    (* A temporarily work around until we move to the new Symbols *)
    valid <- lift (chatglm_validate_reshape_symbols m) ;;
    if negb valid then ret false
    else
      let config := default_Config in
      ndims <- lift (double_to_size_t (validator m "ndims")) ;;
      let config := set_rotary_ndims ndims config in
      let config := set_is_chatglm true config in
      let config := set_support_2d_rope support_2d_rope config in
      let config := set_use_rope_cache true config in
      head_cnt <- lift (double_to_size_t (validator m "head_cnt")) ;;
      let config := set_head_cnt head_cnt config in
      head_size <- lift (double_to_size_t (validator m "head_size")) ;;
      let config := set_head_size head_size config in
      config <-
        (if split_output_id =? 0 then
           (* query : split_output_id == 0 *)
           let config := set_slice_start 0 config in
           stop <- lift (double_to_size_t (validator m "total_size_q")) ;;
           ret (set_slice_stop stop config)
         else
           (* key : split_output_id == 1 *)
           start <- lift (double_to_size_t (validator m "total_size_q")) ;;
           let config := set_slice_start start config in
           (* size_t + double: the sum is taken in double *)
           stop <- lift (double_to_size_t
                           (double_add (size_t_to_double (slice_start config))
                                       (validator m "total_size_k"))) ;;
           ret (set_slice_stop stop config)) ;;
      root_is_reshape <- is_op OpReshape root ;;
      if root_is_reshape && negb (rotary_ndims config =? IR.head_size config)
      then ret false
      else
        v_qkv <- at_ m "qkv_linear" ;;
        v_cache1 <- at_ m "cos_sin_cache" ;;
        v_cache2 <- at_ m "cos_sin_cache" ;;
        let new_args := [v_qkv; v_cache1; v_cache2] in
        let old_node := root in
        new_node <- make_shared_RoPE new_args config ;;
        old_name <- friendly_name_of old_node ;;
        set_friendly_name new_node old_name ;;
        n_in0 <- get_input_node_shared_ptr root 0 ;;
        copy_runtime_info [n_in0; root] new_node ;;
        replace_node old_node new_node ;;
        ret true.

(** ** [RoPEFusionQwen] *)

(** The validation condition of the Qwen callback, left to right. *)
Definition qwen_rejects (m : Matcher) : option bool :=
  let head_cnt := symbol m "head_cnt" in
  let head_size := symbol m "head_size" in
  let head_size_over_2 := symbol m "head_size/2" in
  let head_cnt_by_head_size := symbol m "head_cnt*head_size" in
  if negb (is_integer head_cnt) then Some true
  else if negb (is_integer head_size) then Some true
  else if negb (is_integer head_size_over_2) then Some true
  else if negb (is_integer head_cnt_by_head_size) then Some true
  else
    h ← sym_i head_size_over_2;
    h2 ← int64_mul h 2;
    s ← sym_i head_size;
    if negb (h2 =? s) then Some true
    else
      c ← sym_i head_cnt;
      s' ← sym_i head_size;
      cs ← int64_mul c s';
      t ← sym_i head_cnt_by_head_size;
      Some (negb (cs =? t)).

Definition RoPEFusionQwen_callback (split_output_id : Z) (m : Matcher) : M bool :=
  let root := get_match_root m in
  reject <- lift (qwen_rejects m) ;;
  if reject : bool then ret false
  else
    let config := default_Config in
    let config := set_is_qwen true config in
    head_cnt_i <- lift (sym_i (symbol m "head_cnt")) ;;
    let config := set_head_cnt (to_size_t head_cnt_i) config in
    head_size_i <- lift (sym_i (symbol m "head_size")) ;;
    let config := set_head_size (to_size_t head_size_i) config in
    let config := set_rotary_ndims (IR.head_size config) config in
    let config :=
      if split_output_id =? 0 then
        (* query : split_output_id == 0 *)
        let config := set_slice_start 0 config in
        set_slice_stop (size_t_mul (head_cnt config) (IR.head_size config)) config
      else
        (* key : split_output_id == 1 *)
        let config :=
          set_slice_start (size_t_mul (head_cnt config) (IR.head_size config)) config in
        set_slice_stop
          (size_t_add (slice_start config)
                      (size_t_mul (head_cnt config) (IR.head_size config)))
          config in
    v_qkv <- at_ m "qkv_proj" ;;
    v_cos <- at_ m "rotary_emb_cos" ;;
    v_sin <- at_ m "rotary_emb_sin" ;;
    let new_args := [v_qkv; v_cos; v_sin] in
    n_neg <- node_at m "Multiply_567527" ;;
    n_cat <- node_at m "cat_Concat_593" ;;
    n_mul <- node_at m "mul_Multiply_594" ;;
    n_result <- node_at m "result" ;;
    let rt_from := [n_neg; n_cat; n_mul; n_result] in
    extended <-
      (if count m "position_ids" then
         v_pos <- at_ m "position_ids" ;;
         n_sq0 <- node_at m "ListUnpack_Squeeze_0_1" ;;
         n_sq1 <- node_at m "ListUnpack_Squeeze_1" ;;
         ret ((new_args ++ [v_pos])%list, set_gather_position_arg_id 3 config,
              (rt_from ++ [n_sq0; n_sq1])%list)
       else
         n_sq0 <- node_at m "ListUnpack_586_Squeeze_0" ;;
         n_sq1 <- node_at m "ListUnpack_586_Squeeze" ;;
         ret (new_args, config, (rt_from ++ [n_sq0; n_sq1])%list)) ;;
    let '(new_args, config, rt_from) := extended in
    let old_node := root in
    new_node <- make_shared_RoPE new_args config ;;
    old_name <- friendly_name_of old_node ;;
    set_friendly_name new_node old_name ;;
    copy_runtime_info rt_from new_node ;;
    replace_node old_node new_node ;;
    ret true.

(** ** [RoPEShareCosSin] *)

(** The members of the pass object the callback keeps across matches. *)
Record RoPEShareCosSin : Type := mkRoPEShareCosSin {
  m_inv_freq : ptr positive;
  m_shared_cos0 : ptr positive;
  m_shared_sin0 : ptr positive;
  m_shared_inputs : list (ptr positive)
}.

(** The members when the pass is constructed: null pointers, and two
    slots for the shared inputs. *)
Definition RoPEShareCosSin_new : RoPEShareCosSin :=
  mkRoPEShareCosSin nullptr nullptr nullptr [nullptr; nullptr].

Definition set_m_inv_freq (v : ptr positive) (this : RoPEShareCosSin) :=
  mkRoPEShareCosSin v (m_shared_cos0 this) (m_shared_sin0 this) (m_shared_inputs this).
Definition set_m_shared_cos0 (v : ptr positive) (this : RoPEShareCosSin) :=
  mkRoPEShareCosSin (m_inv_freq this) v (m_shared_sin0 this) (m_shared_inputs this).
Definition set_m_shared_sin0 (v : ptr positive) (this : RoPEShareCosSin) :=
  mkRoPEShareCosSin (m_inv_freq this) (m_shared_cos0 this) v (m_shared_inputs this).
Definition set_m_shared_inputs (v : list (ptr positive)) (this : RoPEShareCosSin) :=
  mkRoPEShareCosSin (m_inv_freq this) (m_shared_cos0 this) (m_shared_sin0 this) v.

(** The pattern vector [inputs = {makePattern(), makePattern()}]. *)
Definition inputs : list string := ["inputs[0]"; "inputs[1]"].

(** The first loop, over [i < m_shared_inputs.size()]: the result is
    [false] when the loop left the callback through [return false]. *)
Fixpoint share_collect_inputs (m : Matcher) (indices : list nat)
    (this : RoPEShareCosSin) : option (bool * RoPEShareCosSin) :=
  match indices with
  | [] => Some (true, this)
  | i :: indices' =>
      p ← inputs !! i;
      match get_pattern_value_map m !! p with
      | None => Some (false, this)
      | Some v =>
          let input_node := get_node v in
          share_collect_inputs m indices'
            (set_m_shared_inputs (<[i := Some input_node]> (m_shared_inputs this)) this)
      end
  end.

(** The second loop, over [i < inputs.size()]: [false] when it left the
    callback through [return false]. *)
Fixpoint share_check_inputs (m : Matcher) (indices : list nat)
    (this : RoPEShareCosSin) : option bool :=
  match indices with
  | [] => Some true
  | i :: indices' =>
      p ← inputs !! i;
      match get_pattern_value_map m !! p with
      | None => Some false
      | Some v =>
          let input_node := get_node v in
          shared ← m_shared_inputs this !! i;
          if bool_decide (shared ≠ Some input_node) then Some false
          else share_check_inputs m indices' this
      end
  end.

Definition RoPEShareCosSin_callback (m : Matcher) (this : RoPEShareCosSin)
  : M (bool * RoPEShareCosSin) :=
  let root := get_match_root m in
  if negb (validator_ok m) then ret (false, this)
  else
    match get_pattern_value_map m !! "const_inv_freq" with
    | None => ret (false, this)
    | Some it =>
        cur <- as_Constant (get_node it) ;;
        match cur with
        | None => ret (false, this)
        | Some cur_inv_freq =>
            (* the first match is the one to be shared, collect all inputs
               and constants into the state capture by lambda *)
            collected <-
              (if negb (ptr_to_bool (m_inv_freq this)) then
                 r <- lift (share_collect_inputs m
                              (seq 0 (length (m_shared_inputs this))) this) ;;
                 let '(completed, this) := r in
                 if completed : bool
                 then ret (true, set_m_inv_freq (Some (get_node it)) this)
                 else ret (false, this)
               else ret (true, this)) ;;
            let '(completed, this) := collected in
            if negb completed then ret (false, this)
            else
              (* check consts are the same as the one to be shared. *)
              shared_id <- lift (deref (m_inv_freq this)) ;;
              shared <- as_Constant shared_id ;;
              global_inv_freq <- lift (deref shared) ;;
              if bool_decide (get_element_type cur_inv_freq
                              ≠ get_element_type global_inv_freq)
              then ret (false, this)
              else if bool_decide (get_shape cur_inv_freq ≠ get_shape global_inv_freq)
              then ret (false, this)
              else
                cmp_error <- lift (memcmp (get_data_ptr cur_inv_freq)
                                          (get_data_ptr global_inv_freq)
                                          (get_byte_size global_inv_freq)) ;;
                if negb (cmp_error =? 0) then ret (false, this)
                else
                  (* check all inputs are the same as the one to be shared. *)
                  same <- lift (share_check_inputs m (seq 0 (length inputs)) this) ;;
                  if negb same then ret (false, this)
                  else
                    let is_sin_matched := count m "sin_Sin" in
                    if is_sin_matched && negb (ptr_to_bool (m_shared_sin0 this))
                    then ret (false, set_m_shared_sin0 (Some root) this)
                    else if negb is_sin_matched
                            && negb (ptr_to_bool (m_shared_cos0 this))
                    then ret (false, set_m_shared_cos0 (Some root) this)
                    else
                      let replacement :=
                        if count m "sin_Sin" then m_shared_sin0 this
                        else m_shared_cos0 this in
                      replacement_node <- lift (deref replacement) ;;
                      replace_node root replacement_node ;;
                      ret (true, this)
        end
    end.

End RoPE.

(* ===================================================================== *)
(** * Notions used to state the properties *)
(* ===================================================================== *)

Module Spec.
Import IR Graph Pattern.

(** The node store after a fusion: the fused node is added, and every
    reader of [old_node] is re-pointed to it. *)
Definition fused_nodes (g : gmap positive Node) (old_node new_node : positive)
    (rope : Node) : gmap positive Node :=
  redirect_node old_node new_node <$> <[new_node := rope]> g.

(** The same graph with the operands of node [n] written in the opposite
    order. *)
Definition swap_operands (n : positive) (w : World) : World :=
  with_nodes (alter (λ x, with_input_values (reverse (input_values x)) x) n) w.

(** The match on the graph with swapped operands of the first multiply:
    the two wildcard patterns of that multiply are aligned with its
    operands in their order, so their bindings are exchanged. *)
Definition swap_first_multiply (m : Matcher) : Matcher :=
  let pm := get_pattern_value_map m in
  let pm' :=
    match pm !! "x_or_cos1", pm !! "x_or_cos2" with
    | Some a, Some b => <["x_or_cos1" := b]> (<["x_or_cos2" := a]> pm)
    | _, _ => pm
    end in
  mkMatcher (get_match_root m) pm' (get_symbols m) (validator_ok m)
    (validator_values m).

(** The operand of the first multiply the GPT-NeoX callback takes for
    the cosine table, given the operands [a], [b] in pattern order and
    the value [vx] bound to [x]. *)
Definition gptneox_cos (a b vx : Output) : option Output :=
  if bool_decide (a = vx) then Some b
  else if bool_decide (b = vx) then Some a
  else None.

(** The node the GPT-NeoX callback builds. *)
Definition gptneox_rope (name : string) (half_ndims : Z)
    (vx v_cos v_sin : Output) (rt_from : list positive) : Node :=
  mkNode (OpRoPE (set_rotary_ndims
                    (Cxx.size_t_mul 2 (Cxx.to_size_t half_ndims)) default_Config))
         [vx; v_cos; v_sin] name rt_from.

(** The three accepted shapes of the ChatGLM reshape symbols. *)
Definition chatglm_triple (A B C head_cnt : Z) : Prop :=
  (A = -1 ∧ B = head_cnt ∧ C = 1)
  ∨ (A = 1 ∧ B = -1 ∧ C = head_cnt)
  ∨ (A = 0 ∧ B = 0 ∧ C = 0).

(** Node [t] is a transpose whose permutation is the constant
    [[0,2,1,3]]. *)
Definition is_transpose_0213 (g : gmap positive Node) (t : positive) : Prop :=
  ∃ (tn : Node) (axes : Output) (an : Node) (c : Constant),
    g !! t = Some tn
    ∧ node_op tn = OpTranspose
    ∧ input_values tn !! 1%nat = Some axes
    ∧ g !! get_node axes = Some an
    ∧ node_op an = OpConstant c
    ∧ cast_vector_int64 c = Some [0; 2; 1; 3].

(** Node [t] is the one and only reader of the first output of [root]. *)
Definition sole_consumer (g : gmap positive Node) (root t : positive) : Prop :=
  ∃ port, target_inputs g (mkOutput root 0) = [mkInput t port].

(** Every transpose has its permutation input, produced by a node of the
    graph; a constant permutation has an integral element type. *)
Definition transpose_well_formed (g : gmap positive Node) (tn : Node) : bool :=
  if bool_decide (node_op tn = OpTranspose) then
    match input_values tn !! 1%nat with
    | Some axes =>
        match g !! get_node axes with
        | Some an =>
            match node_op an with
            | OpConstant c => bool_decide (is_Some (cast_vector_int64 c))
            | _ => true
            end
        | None => false
        end
    | None => false
    end
  else true.

Definition transposes_well_formed (g : gmap positive Node) : Prop :=
  map_Forall (λ _ tn, transpose_well_formed g tn = true) g.

(** In [w'] the node [new_node] is [rope] and stands where [old_node]
    stood in [w]: nothing reads [old_node] any more, and every port that
    read an output of [old_node] reads the same output of [new_node]. *)
Definition stands_for (w w' : World) (old_node new_node : positive) (rope : Node)
  : Prop :=
  nodes w' !! new_node = Some rope
  ∧ (∀ k x a, nodes w' !! k = Some x → a ∈ input_values x → get_node a ≠ old_node)
  ∧ (∀ k x i idx,
       nodes w !! k = Some x →
       input_values x !! i = Some (mkOutput old_node idx) →
       ∃ x', nodes w' !! k = Some x'
             ∧ input_values x' !! i = Some (mkOutput new_node idx)).

(** An input port after the [ShapeOf] readers of [o] were moved to [v]:
    unchanged, or it read [o] and reads [v]. *)
Definition port_moved (o v a a' : Output) : Prop := a' = a ∨ (a = o ∧ a' = v).

Definition node_moved (o v : Output) (x x' : Node) : Prop :=
  node_op x' = node_op x
  ∧ get_friendly_name x' = get_friendly_name x
  ∧ rt_info x' = rt_info x
  ∧ Forall2 (port_moved o v) (input_values x) (input_values x')
  ∧ (node_op x ≠ OpShapeOf → input_values x' = input_values x).

Definition moved (o v : Output) (g g' : gmap positive Node) : Prop :=
  ∀ k, option_Forall2 (node_moved o v) (g !! k) (g' !! k).

(** ** The sharing pass *)

(** The seed of the branch (cosine or sine) the match belongs to. *)
Definition branch_seed (m : Matcher) (this : RoPE.RoPEShareCosSin) : Cxx.ptr positive :=
  if count m "sin_Sin" then RoPE.m_shared_sin0 this else RoPE.m_shared_cos0 this.

Definition record_seed (m : Matcher) (this : RoPE.RoPEShareCosSin)
  : RoPE.RoPEShareCosSin :=
  if count m "sin_Sin"
  then RoPE.set_m_shared_sin0 (Some (get_match_root m)) this
  else RoPE.set_m_shared_cos0 (Some (get_match_root m)) this.

(** The match has the constant and the two shared inputs that were seen
    first: same element type, same shape, same bytes, same input nodes. *)
Definition same_as_first_seen (cur global : Constant) (v0 v1 : Output)
    (this : RoPE.RoPEShareCosSin) : Prop :=
  get_element_type cur = get_element_type global
  ∧ get_shape cur = get_shape global
  ∧ get_data_ptr cur = get_data_ptr global
  ∧ RoPE.m_shared_inputs this = [Some (get_node v0); Some (get_node v1)].

End Spec.


(* ===================================================================== *)
(** * Concrete graphs and matches *)
(* ===================================================================== *)

Module Examples.
Import Cxx Type_hpp IR Graph Pattern RoPE.

(** ** Classes for [type.hpp] *)

Definition Base_info : DiscreteTypeInfo :=
  mkDiscreteTypeInfo "Base" (Some "v0") None.
Definition Base : CxxClass := mkCxxClass "Base" [] Base_info.

(** A class derived from [Base] whose type info names [Base] as parent. *)
Definition Child : CxxClass :=
  mkCxxClass "Child" [Base] (mkDiscreteTypeInfo "Child" (Some "v0") (Some Base_info)).

(** A class derived from [Base], singly and publicly, whose type info
    was declared without a parent. *)
Definition Detached : CxxClass :=
  mkCxxClass "Detached" [Base] (mkDiscreteTypeInfo "Detached" (Some "v0") None).

Definition Unrelated : CxxClass :=
  mkCxxClass "Unrelated" [] (mkDiscreteTypeInfo "Unrelated" (Some "v0") None).

Definition Extension_info : DiscreteTypeInfo :=
  mkDiscreteTypeInfo "ConversionExtensionBase" None None.
Definition Extension : CxxClass :=
  mkCxxClass ConversionExtensionBase [] Extension_info.
Definition MyExtension : CxxClass :=
  mkCxxClass "MyExtension" [Extension]
    (mkDiscreteTypeInfo "MyExtension" None (Some Extension_info)).

(** The dynamic cast on the classes of these examples, which all derive
    singly and publicly: a handle is converted when the class of its
    object is the target or derives from it. *)
Definition converts_to_base (T : CxxClass) (o : Object) : bool :=
  is_base_of (class_name T) (object_class o).

Definition a_child : Object := mkObject 1 Child.
Definition a_detached : Object := mkObject 2 Detached.
Definition an_extension : Object := mkObject 3 Extension.

(** ** Constants *)

Definition byte_of_Z (z : Z) : byte :=
  default "000"%byte (Byte.of_N (Z.to_N (z mod 256))).

(** Little-endian two's complement encoding on [size] bytes. *)
Fixpoint encode_le (size : nat) (z : Z) : list byte :=
  match size with
  | O => []
  | S size' => byte_of_Z z :: encode_le size' (z / 256)
  end.

Definition const_i64 (values : list Z) : Constant :=
  mkConstant i64 [length values] (mjoin (encode_le 8 <$> values)).
Definition const_i32 (values : list Z) : Constant :=
  mkConstant i32 [length values] (mjoin (encode_le 4 <$> values)).
Definition scalar_i64 (v : Z) : Constant := mkConstant i64 [] (encode_le 8 v).

(** [-1.0f] *)
Definition const_f32_minus_one : Constant :=
  mkConstant f32 [] ["000"; "000"; "128"; "191"]%byte.

Definition parameter (name : string) : Node := mkNode (OpOther "Parameter") [] name [].
Definition constant (c : Constant) (name : string) : Node :=
  mkNode (OpConstant c) [] name [].
Definition out (n : positive) : Output := mkOutput n 0.

(** ** A Flux-style interleaved RoPE on [x : [B,24,L,128]] *)

Definition flux_nodes : gmap positive Node :=
  list_to_map [
    (1%positive, parameter "x");
    (2%positive, parameter "t_cos");
    (3%positive, parameter "t_sin");
    (4%positive, constant (const_i64 [0; 24; 0; 64; 2]) "shape_5d");
    (5%positive, mkNode OpReshape [out 1; out 4] "x1" []);
    (6%positive, constant (scalar_i64 (-1)) "axis");
    (7%positive, mkNode (OpOther "Split") [out 5; out 6] "split" []);
    (8%positive, constant const_f32_minus_one "minus_one");
    (9%positive, mkNode (OpOther "Multiply") [mkOutput 7 1; out 8] "x1_1_neg" []);
    (10%positive, mkNode (OpOther "Concat") [out 9; mkOutput 7 0] "x2" []);
    (11%positive, constant (const_i64 [0; 24; 0; 128]) "shape_4d");
    (12%positive, mkNode OpReshape [out 10; out 11] "x3" []);
    (13%positive, mkNode (OpOther "Multiply") [out 1; out 2] "y1" []);
    (14%positive, mkNode (OpOther "Multiply") [out 12; out 3] "y2" []);
    (15%positive, mkNode (OpOther "Add") [out 13; out 14] "y" []);
    (16%positive, mkNode (OpOther "Result") [out 15] "result" [])].

Definition flux_world : World := mkWorld flux_nodes 17 [].

Definition flux_pattern_map : gmap string Output :=
  list_to_map [
    ("x", out 1); ("t_cos", out 2); ("t_sin", out 3); ("x1", out 5);
    ("split", out 7); ("x1_1_neg", out 9); ("x2", out 10); ("x3", out 12);
    ("y1", out 13); ("y2", out 14); ("result", out 15)].

(** The batch and the sequence length are dynamic. *)
Definition flux_shape : list Dimension := [Dynamic 1; Static 24; Dynamic 2; Static 128].

Definition flux_match : Matcher :=
  mkMatcher 15 flux_pattern_map (default ∅ (flux_x_predicate flux_shape)) true ∅.

(** The same match when the head count is a runtime-only dimension. *)
Definition flux_dynamic_heads_match : Matcher :=
  mkMatcher 15 flux_pattern_map
    (default ∅ (flux_x_predicate [Dynamic 1; Dynamic 3; Dynamic 2; Static 128]))
    true ∅.

(** ** A GPT-NeoX RoPE: [mul(x, cos) + mul(rotate_half(x), sin)] *)

Definition gptneox_nodes : gmap positive Node :=
  list_to_map [
    (1%positive, parameter "x");
    (2%positive, parameter "cos");
    (3%positive, parameter "sin");
    (4%positive, constant (scalar_i64 3) "axis");
    (5%positive, constant (const_i64 [64; 64]) "split_lengths");
    (6%positive, mkNode (OpOther "VariadicSplit") [out 1; out 4; out 5] "varsplit" []);
    (7%positive, constant const_f32_minus_one "minus_one");
    (8%positive, mkNode (OpOther "Multiply") [mkOutput 6 1; out 7] "x2neg" []);
    (9%positive, mkNode (OpOther "Concat") [out 8; mkOutput 6 0] "x_rotate_half" []);
    (10%positive, mkNode (OpOther "Multiply") [out 1; out 2] "mul_cos" []);
    (11%positive, mkNode (OpOther "Multiply") [out 9; out 3] "mul_sin" []);
    (12%positive, mkNode (OpOther "Add") [out 10; out 11] "y" []);
    (13%positive, mkNode (OpOther "Result") [out 12] "result" [])].

Definition gptneox_world : World := mkWorld gptneox_nodes 14 [].

Definition gptneox_match : Matcher :=
  mkMatcher 12
    (list_to_map [
       ("x", out 1); ("x_or_cos1", out 1); ("x_or_cos2", out 2); ("t_sin", out 3);
       ("varsplit", out 6); ("x2neg", out 8); ("x_rotate_half", out 9);
       ("mul_cos", out 10); ("mul_sin", out 11); ("result", out 12)])
    (<["half_ndims" := SymInteger 64]> ∅) true ∅.

(** The first multiply is [mul(cos, other)] with neither operand the
    rotated [x]. *)
Definition not_rope_match : Matcher :=
  mkMatcher 12
    (list_to_map [
       ("x", out 1); ("x_or_cos1", out 2); ("x_or_cos2", out 3); ("t_sin", out 3);
       ("varsplit", out 6); ("x2neg", out 8); ("x_rotate_half", out 9);
       ("mul_cos", out 10); ("mul_sin", out 11); ("result", out 12)])
    (<["half_ndims" := SymInteger 64]> ∅) true ∅.

(** The same graph with [mul(cos, sin)] as first multiply. *)
Definition not_rope_world : World :=
  mkWorld (<[10%positive := mkNode (OpOther "Multiply") [out 2; out 3] "mul_cos" []]>
             gptneox_nodes) 14 [].

(** ** A GPT-J RoPE followed by a transpose *)

(** The scalar constants of the slices are left out. *)
Definition gptj_nodes (permutation : list Z) : gmap positive Node :=
  list_to_map [
    (1%positive, parameter "view_Reshape");
    (2%positive, parameter "gather_sin_cos");
    (3%positive, constant (const_i64 [32; -1]) "split_lengths");
    (4%positive, mkNode (OpOther "VariadicSplit") [out 2; out 3] "varsplit" []);
    (5%positive, mkNode (OpOther "Gather") [mkOutput 4 0] "repeat_interleave_sin" []);
    (6%positive, mkNode (OpOther "Gather") [mkOutput 4 1] "repeat_interleave_cos" []);
    (7%positive, mkNode (OpOther "Slice") [out 1] "slice_Slice_965" []);
    (8%positive, mkNode (OpOther "Slice") [out 7] "slice_Slice_1174" []);
    (9%positive, mkNode (OpOther "Multiply") [out 8] "neg_Multiply_1177" []);
    (10%positive, mkNode (OpOther "Unsqueeze") [out 9] "Unsqueeze_65524" []);
    (11%positive, mkNode (OpOther "Slice") [out 7] "slice_Slice_1168" []);
    (12%positive, mkNode (OpOther "Unsqueeze") [out 11] "Unsqueeze_65525" []);
    (13%positive, mkNode (OpOther "Concat") [out 10; out 12] "stack_1182" []);
    (14%positive, mkNode OpReshape [out 13] "flatten_Reshape_Zero" []);
    (15%positive, mkNode (OpOther "Multiply") [out 7; out 6] "mul_cos" []);
    (16%positive, mkNode (OpOther "Multiply") [out 14; out 5] "mul_sin" []);
    (17%positive, mkNode (OpOther "Add") [out 15; out 16] "rotary_emb" []);
    (18%positive, mkNode (OpOther "Slice") [out 1] "slice_Slice_971" []);
    (19%positive, mkNode (OpOther "Concat") [out 17; out 18] "cat" []);
    (20%positive, constant (const_i64 permutation) "order");
    (21%positive, mkNode OpTranspose [out 19; out 20] "permute" []);
    (22%positive, mkNode (OpOther "Result") [out 21] "result" [])].

Definition gptj_world (permutation : list Z) : World :=
  mkWorld (gptj_nodes permutation) 23 [].

Definition gptj_pattern_map : gmap string Output :=
  list_to_map [
    ("gather_sin_cos", out 2); ("varsplit", out 4);
    ("repeat_interleave_sin", out 5); ("repeat_interleave_cos", out 6);
    ("view_Reshape", out 1); ("neg_Multiply_1177", out 9);
    ("stack_1182", out 13); ("mul_cos", out 15); ("mul_sin", out 16);
    ("rotary_emb", out 17); ("result", out 19)].

Definition gptj_match : Matcher :=
  mkMatcher 19 gptj_pattern_map
    (<["ndims" := SymInteger 64]> (<["ndims/2" := SymInteger 32]> ∅)) true ∅.

(** A match whose half symbol does not fit: [2 * 31 ≠ 64]. *)
Definition gptj_odd_match : Matcher :=
  mkMatcher 19 gptj_pattern_map
    (<["ndims" := SymInteger 64]> (<["ndims/2" := SymInteger 31]> ∅)) true ∅.

(** ** Qwen: resolved symbols that violate the declared relations *)

Definition qwen_odd_match : Matcher :=
  mkMatcher 1 ∅
    (list_to_map [("head_cnt", SymInteger 32); ("head_size", SymInteger 128);
                  ("head_size/2", SymInteger 64);
                  ("head_cnt*head_size", SymInteger 4000)])
    true ∅.

(** ** A RoPE node behind a slice and a transpose *)

Definition neox_config : Config := set_rotary_ndims 64 default_Config.

Definition preprocess_nodes : gmap positive Node :=
  list_to_map [
    (1%positive, parameter "qkv");
    (2%positive, mkNode (OpOther "Slice") [out 1] "slice" []);
    (3%positive, constant (const_i64 [0; 2; 1; 3]) "order");
    (4%positive, mkNode OpTranspose [out 2; out 3] "x" []);
    (5%positive, parameter "cos");
    (6%positive, parameter "sin");
    (7%positive, mkNode (OpRoPE neox_config) [out 4; out 5; out 6] "rope" []);
    (8%positive, mkNode (OpOther "Result") [out 7] "result" [])].

Definition preprocess_world : World := mkWorld preprocess_nodes 9 [].

Definition preprocess_match : Matcher :=
  mkMatcher 7
    (list_to_map [("input_to_slice", out 1); ("x", out 4); ("result", out 7)])
    ∅ true
    (list_to_map [("slice_start", 0); ("slice_stop", 128)]).

(** ** ChatGLM: the end of the pattern *)

Definition chatglm_nodes : gmap positive Node :=
  list_to_map [
    (1%positive, parameter "qkv_linear");
    (2%positive, parameter "cos_sin_cache");
    (3%positive, mkNode (OpOther "VariadicSplit") [out 1] "qkv_proj" []);
    (4%positive, mkNode OpReshape [out 3] "cur_key" []);
    (5%positive, mkNode (OpOther "Concat") [out 4; out 2] "stack_481" []);
    (6%positive, mkNode OpReshape [out 5] "flatten_Reshape_501" []);
    (7%positive, mkNode (OpOther "Slice") [out 4] "slice_Slice_443" []);
    (8%positive, mkNode (OpOther "Concat") [out 6; out 7] "cat_Concat_505" []);
    (9%positive, mkNode (OpOther "Result") [out 8] "result" [])].

Definition chatglm_world : World := mkWorld chatglm_nodes 10 [].

Definition chatglm_values (A B C : Z) : gmap string Z :=
  list_to_map [("ndims", 64); ("head_cnt", 32); ("head_size", 128);
               ("total_size_q", 4096); ("total_size_k", 256);
               ("total_size_v", 256); ("A", A); ("B", B); ("C", C)].

Definition chatglm_match (A B C : Z) : Matcher :=
  mkMatcher 8
    (list_to_map [("qkv_linear", out 1); ("cos_sin_cache", out 2)])
    ∅ true (chatglm_values A B C).

(** ** The cosine table prepared twice, once per layer *)

(** [{1.0f, 0.5f}] *)
Definition inv_freq : Constant :=
  mkConstant f32 [1; 2; 1]%nat
    ["000"; "000"; "128"; "063"; "000"; "000"; "000"; "063"]%byte.

(** [{1.0f, 0.25f}] *)
Definition other_inv_freq : Constant :=
  mkConstant f32 [1; 2; 1]%nat
    ["000"; "000"; "128"; "063"; "000"; "000"; "128"; "062"]%byte.

Definition share_nodes (second : Constant) : gmap positive Node :=
  list_to_map [
    (1%positive, parameter "shape_source");
    (2%positive, parameter "position_ids");
    (3%positive, constant inv_freq "inv_freq.0");
    (4%positive, mkNode (OpOther "Broadcast") [out 1] "Broadcast.0" []);
    (5%positive, mkNode (OpOther "Multiply") [out 3; out 4] "expand.0" []);
    (6%positive, mkNode (OpOther "MatMul") [out 5; out 2] "matmul.0" []);
    (7%positive, constant (const_i64 [0; 2; 1]) "order");
    (8%positive, mkNode OpTranspose [out 6; out 7] "transpose.0" []);
    (9%positive, mkNode (OpOther "Concat") [out 8; out 8] "cat.0" []);
    (10%positive, mkNode (OpOther "Cos") [out 9] "cos.0" []);
    (11%positive, mkNode (OpOther "Unsqueeze") [out 10] "cos_tab.0" []);
    (12%positive, constant second "inv_freq.1");
    (13%positive, mkNode (OpOther "Broadcast") [out 1] "Broadcast.1" []);
    (14%positive, mkNode (OpOther "Multiply") [out 12; out 13] "expand.1" []);
    (15%positive, mkNode (OpOther "MatMul") [out 14; out 2] "matmul.1" []);
    (16%positive, mkNode OpTranspose [out 15; out 7] "transpose.1" []);
    (17%positive, mkNode (OpOther "Concat") [out 16; out 16] "cat.1" []);
    (18%positive, mkNode (OpOther "Cos") [out 17] "cos.1" []);
    (19%positive, mkNode (OpOther "Unsqueeze") [out 18] "cos_tab.1" []);
    (20%positive, mkNode (OpOther "Multiply") [out 11] "layer.0" []);
    (21%positive, mkNode (OpOther "Multiply") [out 19] "layer.1" [])].

Definition share_world (second : Constant) : World :=
  mkWorld (share_nodes second) 22 [].

(** The match rooted at the table of the first layer, then the one of
    the second layer. *)
Definition share_match_0 : Matcher :=
  mkMatcher 11
    (list_to_map [("inputs[0]", out 1); ("inputs[1]", out 2);
                  ("const_inv_freq", out 3); ("cos_Cos", out 10);
                  ("result", out 11)])
    ∅ true ∅.

Definition share_match_1 : Matcher :=
  mkMatcher 19
    (list_to_map [("inputs[0]", out 1); ("inputs[1]", out 2);
                  ("const_inv_freq", out 12); ("cos_Cos", out 18);
                  ("result", out 19)])
    ∅ true ∅.

(** The members after the match of the first layer. *)
Definition share_seeded : RoPEShareCosSin :=
  mkRoPEShareCosSin (Some 3%positive) (Some 11%positive) nullptr
    [Some 1%positive; Some 2%positive].

(** The second layer prepares a sine table, from another constant. *)
Definition share_sin_world : World :=
  mkWorld (<[18%positive := mkNode (OpOther "Sin") [out 17] "sin.1" []]>
             (<[19%positive := mkNode (OpOther "Unsqueeze") [out 18] "sin_tab.1" []]>
                (share_nodes other_inv_freq)))
          22 [].

(** The match rooted at that sine table: the first match of the sine
    branch. *)
Definition share_sin_match_1 : Matcher :=
  mkMatcher 19
    (list_to_map [("inputs[0]", out 1); ("inputs[1]", out 2);
                  ("const_inv_freq", out 12); ("sin_Sin", out 18);
                  ("result", out 19)])
    ∅ true ∅.

End Examples.


(* ===================================================================== *)
(** * [fuse_rotary_positional_embeddings.cpp]: the index predicate, the
      remaining callbacks and the registration of the rules *)
(* ===================================================================== *)

Module Passes.
Import Cxx IR Graph Graph.Notations Pattern RoPE.

(** ** [const_idx_predicate] *)

(** The loop [for (size_t i = 0; i < vec.size(); i += 2, v++)] on the
    elements from index [i] on, with the current [v].  [vec[i + 1]] past
    the end and the overflow of [v++] have no defined result. *)
Fixpoint const_idx_loop (vec : list Z) (v : Z) : option bool :=
  match vec with
  | [] => Some true
  | a :: tail =>
      if negb (a =? v) then Some false
      else
        match tail with
        | [] => None
        | b :: rest =>
            if negb (b =? v) then Some false
            else if in_int32 (v + 1) then const_idx_loop rest (v + 1)
            else None
        end
  end.

Section index_predicate.
(** [Constant::get_vector<int32_t>()] is defined with the [Constant]
    class, outside the embedded sources; [None] stands for its
    throwing.  The lambda does not test the element type. *)
Variable get_vector_int32_t : Constant → option (list Z).

Definition const_idx_predicate (out : Output) : M bool :=
  const_node <- as_Constant (get_node out) ;;
  match const_node with
  | Some c =>
      vec <- lift (get_vector_int32_t c) ;;
      lift (const_idx_loop vec 0)
  | None => ret false
  end.

End index_predicate.

(** ** [RoPEFusionCosSinPreprocess] *)

(** [rope_node->get_config()] *)
Definition get_config (n : positive) : M Config :=
  c <- as_RoPE n ;; lift c.

(** [static_cast<int>(arg_id)] for a [size_t]: reduction to 32 bits. *)
Definition size_t_to_int (v : Z) : Z :=
  let r := v mod 2 ^ 32 in
  if r <? 2 ^ 31 then r else r - 2 ^ 32.

Definition cos_sin_attach_positions (m : Matcher) (rope_node : positive)
    (p : string) (config : Config) : M Config :=
  arg_id <- get_input_size rope_node ;;
  v <- at_ m p ;;
  set_argument rope_node arg_id v ;;
  ret (set_gather_position_arg_id (size_t_to_int (Z.of_nat arg_id)) config).

Definition RoPEFusionCosSinPreprocess_callback (m : Matcher) : M bool :=
  n <- node_at m "rope" ;;
  rope <- as_RoPE n ;;
  match rope with
  | None => ret false
  | Some _ =>
      let rope_node := n in
      (if count m "cos_const" then
         v <- at_ m "cos_const" ;; set_argument rope_node 1 v
       else ret tt) ;;
      (if count m "sin_const" then
         v <- at_ m "sin_const" ;; set_argument rope_node 2 v
       else ret tt) ;;
      config <- get_config rope_node ;;
      config <-
        (if count m "gather_positions" then
           cos_sin_attach_positions m rope_node "gather_positions" config
         else if count m "gather_positions_2d" then
           cos_sin_attach_positions m rope_node "gather_positions_2d" config
         else ret config) ;;
      set_config rope_node config ;;
      validate_and_infer_types rope_node ;;
      register_new_node rope_node ;;
      ret true
  end.

(** ** [RoPEFusionIOSlicing] *)

Definition RoPEFusionIOSlicing_callback (m : Matcher) : M bool :=
  let root := get_match_root m in
  in0 <- get_input_node_shared_ptr root 0 ;;
  rope <- as_RoPE in0 ;;
  match rope with
  | None => ret false
  | Some config =>
      let rope_node := in0 in
      if negb (validator_ok m) then ret false
      else
        let ndims := validator m "ndims" in
        (* size_t != double: the comparison is made in double *)
        if negb (size_t_to_double (rotary_ndims config) =? ndims) then ret false
        else
          (* remove slice & concat *)
          v_data <- at_ m "data" ;;
          set_argument rope_node 0 v_data ;;
          root_name <- friendly_name_of root ;;
          set_friendly_name rope_node root_name ;;
          n_result <- node_at m "result" ;;
          copy_runtime_info [rope_node; n_result] rope_node ;;
          replace_node root rope_node ;;
          validate_and_infer_types rope_node ;;
          register_new_node rope_node ;;
          ret true
  end.

(** ** [RoPEFusionChatGLMHF] *)

(** [!ndims.is_integer() || !head_cnt.is_integer() || !head_size.is_integer()
     || !half_ndims.is_integer() || half_ndims.i() * 2 != ndims.i()],
    left to right. *)
Definition chatglmhf_rejects (m : Matcher) : option bool :=
  let ndims := symbol m "ndims" in
  let head_cnt := symbol m "head_cnt" in
  let head_size := symbol m "head_size" in
  let half_ndims := symbol m "ndims/2" in
  if negb (is_integer ndims) then Some true
  else if negb (is_integer head_cnt) then Some true
  else if negb (is_integer head_size) then Some true
  else if negb (is_integer half_ndims) then Some true
  else
    h ← sym_i half_ndims;
    p ← int64_mul h 2;
    n ← sym_i ndims;
    Some (negb (p =? n)).

Definition RoPEFusionChatGLMHF_callback (m : Matcher) : M bool :=
  let root := get_match_root m in
  reject <- lift (chatglmhf_rejects m) ;;
  if reject : bool then ret false
  else
    let config := default_Config in
    ndims_i <- lift (sym_i (symbol m "ndims")) ;;
    let config := set_rotary_ndims (to_size_t ndims_i) config in
    let config := set_is_chatglm true config in
    let config := set_support_2d_rope true config in
    head_cnt_i <- lift (sym_i (symbol m "head_cnt")) ;;
    let config := set_head_cnt (to_size_t head_cnt_i) config in
    head_size_i <- lift (sym_i (symbol m "head_size")) ;;
    let config := set_head_size (to_size_t head_size_i) config in
    v_qk <- at_ m "qk_linear" ;;
    v_cos <- at_ m "cos" ;;
    v_sin <- at_ m "sin" ;;
    let new_args := [v_qk; v_cos; v_sin] in
    let old_node := root in
    new_node <- make_shared_RoPE new_args config ;;
    old_name <- friendly_name_of old_node ;;
    set_friendly_name new_node old_name ;;
    n_in0 <- get_input_node_shared_ptr root 0 ;;
    copy_runtime_info [n_in0; root] new_node ;;
    replace_node old_node new_node ;;
    ret true.

(** ** [RoPEFusion::run_on_model] *)

(** The matcher passes of this file, with their constructor arguments. *)
Inductive MatcherPass : Type :=
  | Flux
  | GPTNEOX
  | GPTJ
  | CosSinPreprocess
  | IOSlicing
  | Preprocess
  | ChatGLM (split_output_id : Z) (support_2d_rope : bool)
  | ChatGLMHF
  | Qwen (split_output_id : Z)
  | ShareCosSin.

#[global] Instance MatcherPass_eq_dec : EqDecision MatcherPass.
Proof. solve_decision. Defined.

(** Modelled from the spec: the default of the second constructor
    argument of [RoPEFusionChatGLM] is declared in a header outside the
    embedded sources; the spec calls the 2D-positional variant of the
    rule optional. *)
Definition ChatGLM_default_support_2d_rope : bool := false.

(** The passes [run_on_model] registers with the manager of the symbolic
    optimizations, in registration order.  Running them over the model
    is [symbolic_optimizations.run_on_model(model)], outside the
    embedded sources. *)
Definition run_on_model (m_support_2d_rope : bool) : list MatcherPass :=
  [Flux; GPTNEOX; GPTJ;
   (* optional heads & tails are fused in separate matcher pass,
      after RoPENode has been created. *)
   CosSinPreprocess; IOSlicing; Preprocess;
   ChatGLM 0 ChatGLM_default_support_2d_rope;
   ChatGLM 1 ChatGLM_default_support_2d_rope]
  ++ (if m_support_2d_rope then [ChatGLM 0 true; ChatGLM 1 true; ChatGLMHF] else [])
  ++ [Qwen 0; Qwen 1; ShareCosSin].

(** The callback a pass registers with its matcher.  Only
    [RoPEShareCosSin] has members that outlive a match. *)
Definition callback (p : MatcherPass) (m : Matcher) (this : RoPEShareCosSin)
  : M (bool * RoPEShareCosSin) :=
  let stateless (cb : M bool) := b <- cb ;; ret (b, this) in
  match p with
  | Flux => stateless (RoPEFusionFlux_callback m)
  | GPTNEOX => stateless (RoPEFusionGPTNEOX_callback m)
  | GPTJ => stateless (RoPEFusionGPTJ_callback m)
  | CosSinPreprocess => stateless (RoPEFusionCosSinPreprocess_callback m)
  | IOSlicing => stateless (RoPEFusionIOSlicing_callback m)
  | Preprocess => stateless (RoPEFusionPreprocess_callback m)
  | ChatGLM split_output_id support_2d_rope =>
      stateless (RoPEFusionChatGLM_callback split_output_id support_2d_rope m)
  | ChatGLMHF => stateless (RoPEFusionChatGLMHF_callback m)
  | Qwen split_output_id => stateless (RoPEFusionQwen_callback split_output_id m)
  | ShareCosSin => RoPEShareCosSin_callback m this
  end.

End Passes.

(* ===================================================================== *)
(** * Notions used to state further properties *)
(* ===================================================================== *)

Module Props.
Import Cxx IR Graph Pattern RoPE Passes.

(** The index vector of a repeat-interleave over [k] entries:
    [0, 0, 1, 1, ..., k-1, k-1]. *)
Definition repeat_interleave_indices (k : nat) : list Z :=
  i ← seqZ 0 (Z.of_nat k); [i; i].

(** Every node of the store has an identity below [next_node], so the
    identity [make_shared] hands out next is not in use. *)
Definition well_numbered (w : World) : Prop :=
  ∀ k, is_Some (nodes w !! k) → (k < next_node w)%positive.

(** The fields of a configuration that say which dialect was recognised
    and with which sizes; the slice window, the input transpose flag and
    the position argument are the fields a later rule may add. *)
Definition dialect (c : Config)
  : bool * bool * Z * bool * bool * bool * bool * Z * Z :=
  (output_trans0213 c, is_interleaved c, rotary_ndims c, is_chatglm c,
   support_2d_rope c, is_qwen c, use_rope_cache c, head_cnt c, head_size c).

(** Node [x'] has the operation of [x]; a fused node may differ in the
    fields of its configuration outside [dialect]. *)
Definition op_kept (x x' : Node) : Prop :=
  match node_op x with
  | OpRoPE c => ∃ c', node_op x' = OpRoPE c' ∧ dialect c' = dialect c
  | o => node_op x' = o
  end.

(** The passes whose callback writes [support_2d_rope = true]. *)
Definition sets_support_2d_rope (p : MatcherPass) : bool :=
  match p with
  | ChatGLM _ support_2d_rope => support_2d_rope
  | ChatGLMHF => true
  | _ => false
  end.

(** What a callback may do to the node store of a well-numbered state:
    the state stays well-numbered; no identity is taken back; every node
    stays, with its operation; a node that was not there is a fused
    node with one of the identities handed out in between, and it has
    [support_2d_rope] only if [allow_2d]. *)
Definition evolves (allow_2d : bool) (w w' : World) : Prop :=
  well_numbered w →
  well_numbered w'
  ∧ (next_node w ≤ next_node w')%positive
  ∧ (∀ k x, nodes w !! k = Some x → ∃ x', nodes w' !! k = Some x' ∧ op_kept x x')
  ∧ (∀ k x', nodes w' !! k = Some x' → nodes w !! k = None →
       (next_node w ≤ k)%positive
       ∧ ∃ c, node_op x' = OpRoPE c
              ∧ (allow_2d = false → support_2d_rope c = false)).

(** No fused node of the store has [support_2d_rope]. *)
Definition no_2d_rope (w : World) : Prop :=
  ∀ k x c, nodes w !! k = Some x → node_op x = OpRoPE c → support_2d_rope c = false.

(** The members of the sharing pass hold a seed only if they hold the
    constant: the state the pass starts in, and every state it reaches. *)
Definition seeds_after_constant (this : RoPEShareCosSin) : Prop :=
  is_Some (m_shared_cos0 this) ∨ is_Some (m_shared_sin0 this) →
  is_Some (m_inv_freq this).

(** Every input of every node is produced by a node of the store. *)
Definition closed (w : World) : Prop :=
  ∀ k x o, nodes w !! k = Some x → o ∈ input_values x →
           is_Some (nodes w !! get_node o).

(** The values bound by the match are produced by nodes of the store. *)
Definition match_in_graph (m : Matcher) (w : World) : Prop :=
  ∀ p v, get_pattern_value_map m !! p = Some v → is_Some (nodes w !! get_node v).

(** The seeds held by the sharing pass are nodes of the store. *)
Definition seeds_in_graph (this : RoPEShareCosSin) (w : World) : Prop :=
  (∀ s, m_shared_cos0 this = Some s → is_Some (nodes w !! s))
  ∧ (∀ s, m_shared_sin0 this = Some s → is_Some (nodes w !! s)).


End Props.


(* ===================================================================== *)
(** * Further concrete graphs and matches *)
(* ===================================================================== *)

Module MoreExamples.
Import Cxx IR Graph Pattern RoPE Passes Examples.

(** ** A fused node reading two gathered constant tables *)

Definition cos_sin_nodes : gmap positive Node :=
  list_to_map [
    (1%positive, parameter "x");
    (2%positive, constant inv_freq "cos_const");
    (3%positive, constant other_inv_freq "sin_const");
    (4%positive, parameter "position_ids");
    (5%positive, parameter "batch_size");
    (6%positive, mkNode (OpOther "Slice") [out 2; out 5] "cos_slice" []);
    (7%positive, mkNode (OpOther "GatherElements") [out 6; out 4] "cos_tab" []);
    (8%positive, mkNode (OpOther "Slice") [out 3; out 5] "sin_slice" []);
    (9%positive, mkNode (OpOther "GatherElements") [out 8; out 4] "sin_tab" []);
    (10%positive, mkNode (OpRoPE neox_config) [out 1; out 7; out 9] "rope" []);
    (11%positive, mkNode (OpOther "Result") [out 10] "result" [])].

Definition cos_sin_world : World := mkWorld cos_sin_nodes 12 [].

Definition cos_sin_match : Matcher :=
  mkMatcher 10
    (list_to_map [("rope", out 10); ("cos_const", out 2); ("sin_const", out 3);
                  ("gather_positions", out 4)])
    ∅ true ∅.

(** ** A fused node on the first 64 of 128 dimensions *)

Definition io_slicing_nodes : gmap positive Node :=
  list_to_map [
    (1%positive, parameter "data");
    (2%positive, mkNode (OpOther "Slice") [out 1] "x" []);
    (3%positive, parameter "cos");
    (4%positive, parameter "sin");
    (5%positive, mkNode (OpRoPE neox_config) [out 2; out 3; out 4] "rope" []);
    (6%positive, mkNode (OpOther "Slice") [out 1] "y" []);
    (7%positive, mkNode (OpOther "Concat") [out 5; out 6] "cat" []);
    (8%positive, mkNode (OpOther "Result") [out 7] "result" [])].

Definition io_slicing_world : World := mkWorld io_slicing_nodes 9 [].

Definition io_slicing_match (ndims : Z) : Matcher :=
  mkMatcher 7 (list_to_map [("data", out 1); ("result", out 7)])
    ∅ true (<["ndims" := ndims]> ∅).

(** ** ChatGLM-HF: the ends of the pattern *)

Definition chatglm_hf_nodes : gmap positive Node :=
  list_to_map [
    (1%positive, parameter "qk_linear");
    (2%positive, parameter "cos");
    (3%positive, parameter "sin");
    (4%positive, mkNode OpReshape [out 1] "reshape" []);
    (5%positive, mkNode (OpOther "Gather") [out 2] "repeat_interleave_cos" []);
    (6%positive, mkNode (OpOther "Gather") [out 3] "repeat_interleave_sin" []);
    (7%positive, mkNode (OpOther "Slice") [out 4] "slice_1" []);
    (8%positive, mkNode (OpOther "Multiply") [out 7; out 5] "multiply" []);
    (9%positive, mkNode OpReshape [out 7] "flatten" []);
    (10%positive, mkNode (OpOther "Multiply") [out 9; out 6] "multiply_1" []);
    (11%positive, mkNode (OpOther "Add") [out 8; out 10] "add" []);
    (12%positive, mkNode (OpOther "Slice") [out 4] "slice_5" []);
    (13%positive, mkNode (OpOther "Concat") [out 11; out 12] "cat" []);
    (14%positive, mkNode (OpOther "Result") [out 13] "result" [])].

Definition chatglm_hf_world : World := mkWorld chatglm_hf_nodes 15 [].

Definition chatglm_hf_match (half_ndims : Z) : Matcher :=
  mkMatcher 13
    (list_to_map [("qk_linear", out 1); ("cos", out 2); ("sin", out 3)])
    (list_to_map [("ndims", SymInteger 64); ("head_cnt", SymInteger 2);
                  ("head_size", SymInteger 128); ("ndims/2", SymInteger half_ndims)])
    true ∅.

(** ** Qwen: the ends of the pattern, without position ids *)

Definition qwen_nodes : gmap positive Node :=
  list_to_map [
    (1%positive, parameter "qkv_proj");
    (2%positive, parameter "rotary_emb_cos");
    (3%positive, parameter "rotary_emb_sin");
    (4%positive, mkNode (OpOther "VariadicSplit") [out 1] "ListUnpack_410" []);
    (5%positive, mkNode OpReshape [out 4] "view_Reshape_424" []);
    (6%positive, mkNode (OpOther "VariadicSplit") [out 5] "ListUnpack_586" []);
    (7%positive, mkNode (OpOther "Multiply") [mkOutput 6 1] "Multiply_567527" []);
    (8%positive, mkNode (OpOther "Squeeze") [out 7] "ListUnpack_586_Squeeze_0" []);
    (9%positive, mkNode (OpOther "Squeeze") [out 6] "ListUnpack_586_Squeeze" []);
    (10%positive, mkNode (OpOther "Concat") [out 8; out 9] "cat_Concat_593" []);
    (11%positive, mkNode (OpOther "Multiply") [out 10; out 3] "mul_Multiply_594" []);
    (12%positive, mkNode (OpOther "Multiply") [out 5; out 2] "mul_Multiply_552" []);
    (13%positive, mkNode (OpOther "Add") [out 12; out 11] "add_Add_597" []);
    (14%positive, mkNode (OpOther "Result") [out 13] "result" [])].

Definition qwen_world : World := mkWorld qwen_nodes 15 [].

Definition qwen_match : Matcher :=
  mkMatcher 13
    (list_to_map [("qkv_proj", out 1); ("rotary_emb_cos", out 2);
                  ("rotary_emb_sin", out 3); ("Multiply_567527", out 7);
                  ("ListUnpack_586_Squeeze_0", out 8);
                  ("ListUnpack_586_Squeeze", out 9); ("cat_Concat_593", out 10);
                  ("mul_Multiply_594", out 11); ("result", out 13)])
    (list_to_map [("head_cnt", SymInteger 32); ("head_size", SymInteger 128);
                  ("head_size/2", SymInteger 64);
                  ("head_cnt*head_size", SymInteger 4096)])
    true ∅.

(** The same match on a graph that gathers the tables by position ids,
    the rotated halves still being squeezed. *)
Definition qwen_positions_world : World :=
  mkWorld (<[15%positive := parameter "position_ids"]> qwen_nodes) 16 [].

Definition qwen_mixed_match : Matcher :=
  mkMatcher 13
    (<["position_ids" := out 15]> (get_pattern_value_map qwen_match))
    (get_symbols qwen_match) true ∅.

(** ** ChatGLM: a match rooted at the reshape *)

Definition chatglm_reshape_match : Matcher :=
  mkMatcher 6
    (list_to_map [("qkv_linear", out 1); ("cos_sin_cache", out 2)])
    ∅ true (chatglm_values (-1) 32 1).

(** ** ChatGLM: a key window that ends beyond [2^53] *)

Definition chatglm_large_match : Matcher :=
  mkMatcher 8
    (list_to_map [("qkv_linear", out 1); ("cos_sin_cache", out 2)])
    ∅ true
    (<["total_size_q" := 2 ^ 53]> (<["total_size_k" := 1]> (chatglm_values (-1) 32 1))).

(** ** GPT-J: a [ShapeOf] reading the rotary sum *)

Definition gptj_shapeof_world : World :=
  mkWorld (<[24%positive := mkNode OpShapeOf [out 17] "shape" []]>
             (gptj_nodes [0; 2; 1; 3]))
          25 [].

End MoreExamples.


(* ===================================================================== *)
(* ===================================================================== *)
(**                         Lemmas and theorems                          *)
(* ===================================================================== *)
(* ===================================================================== *)


(* ===================================================================== *)
(** * Running the primitives *)
(* ===================================================================== *)

Section run.
Import Cxx IR Graph Graph.Notations Pattern.
Context (w : World).

Lemma run_bind {A B} (c : M A) (k : A → M B) a w' :
  c w = Some (a, w') → bind c k w = k a w'.
Proof. unfold bind. by intros ->. Qed.

Lemma bind_assoc {A B C} (c : M A) (k1 : A → M B) (k2 : B → M C) :
  bind (bind c k1) k2 w = bind c (λ a, bind (k1 a) k2) w.
Proof. unfold bind. by destruct (c w) as [[? ?]|]. Qed.

Lemma run_lift {A} (o : option A) a : o = Some a → lift o w = Some (a, w).
Proof. by intros ->. Qed.

Lemma run_at m p v :
  get_pattern_value_map m !! p = Some v → at_ m p w = Some (v, w).
Proof. unfold at_. apply run_lift. Qed.

Lemma run_node_at m p v :
  get_pattern_value_map m !! p = Some v → node_at m p w = Some (get_node v, w).
Proof.
  intros H. unfold node_at. by rewrite (run_bind _ _ _ _ (run_at _ _ _ H)).
Qed.

Lemma run_find_node n x : nodes w !! n = Some x → find_node n w = Some (x, w).
Proof. unfold find_node. by intros ->. Qed.

Lemma run_update_node n f x :
  nodes w !! n = Some x →
  update_node n f w
  = Some (tt, mkWorld (<[n := f x]> (nodes w)) (next_node w) (new_nodes w)).
Proof.
  intros H. unfold update_node.
  by rewrite (run_bind _ _ _ _ (run_find_node _ _ H)).
Qed.

Lemma run_friendly_name_of n x :
  nodes w !! n = Some x → friendly_name_of n w = Some (get_friendly_name x, w).
Proof.
  intros H. unfold friendly_name_of.
  by rewrite (run_bind _ _ _ _ (run_find_node _ _ H)).
Qed.

Lemma run_is_op k n x :
  nodes w !! n = Some x → is_op k n w = Some (bool_decide (node_op x = k), w).
Proof.
  intros H. unfold is_op. by rewrite (run_bind _ _ _ _ (run_find_node _ _ H)).
Qed.

Lemma run_as_Constant n x :
  nodes w !! n = Some x →
  as_Constant n w
  = Some (match node_op x with OpConstant c => Some c | _ => None end, w).
Proof.
  intros H. unfold as_Constant.
  by rewrite (run_bind _ _ _ _ (run_find_node _ _ H)).
Qed.

Lemma run_as_RoPE n x :
  nodes w !! n = Some x →
  as_RoPE n w = Some (match node_op x with OpRoPE c => Some c | _ => None end, w).
Proof.
  intros H. unfold as_RoPE. by rewrite (run_bind _ _ _ _ (run_find_node _ _ H)).
Qed.

Lemma run_input_value n i x o :
  nodes w !! n = Some x → input_values x !! i = Some o →
  input_value n i w = Some (o, w).
Proof.
  intros H Hi. unfold input_value.
  rewrite (run_bind _ _ _ _ (run_find_node _ _ H)). by apply run_lift.
Qed.

Lemma run_get_input_node_shared_ptr n i x o :
  nodes w !! n = Some x → input_values x !! i = Some o →
  get_input_node_shared_ptr n i w = Some (get_node o, w).
Proof.
  intros H Hi. unfold get_input_node_shared_ptr.
  by rewrite (run_bind _ _ _ _ (run_input_value _ _ _ _ H Hi)).
Qed.
End run.

(** A lookup in a node store built by insertions. *)
Ltac solve_lookup :=
  cbn [IR.nodes];
  repeat first [ rewrite lookup_insert_eq | rewrite lookup_insert_ne by congruence ];
  first [ eassumption | reflexivity ].

(** One step of a callback: run the first action of the leading bind. *)
Ltac mstep :=
  first
    [ erewrite run_bind by (apply run_at; eassumption)
    | erewrite run_bind by (apply run_node_at; eassumption)
    | erewrite run_bind by (apply run_lift; first [eassumption | reflexivity])
    | erewrite run_bind by (apply run_friendly_name_of; solve_lookup)
    | erewrite run_bind by (apply run_update_node; solve_lookup)
    | erewrite run_bind by (apply run_is_op; solve_lookup)
    | erewrite run_bind by (apply run_as_Constant; solve_lookup)
    | erewrite run_bind by (apply run_as_RoPE; solve_lookup)
    | erewrite run_bind by reflexivity ].

(* ===================================================================== *)
(** * The node store after a fusion *)
(* ===================================================================== *)

Section fused.
Import IR Graph Spec.

Lemma redirect_other old new o : get_node o ≠ old → redirect old new o = o.
Proof. intros H. unfold redirect. by rewrite decide_False. Qed.

Lemma redirect_not_old old new o : old ≠ new → get_node (redirect old new o) ≠ old.
Proof.
  intros Hne. unfold redirect. destruct (decide (get_node o = old)); cbn; congruence.
Qed.

Lemma redirect_list_other old new (l : list Output) :
  Forall (λ o, get_node o ≠ old) l → redirect old new <$> l = l.
Proof.
  induction 1 as [|o l Ho _ IH]; [done|].
  cbn. by rewrite redirect_other, IH.
Qed.

Lemma fused_lookup_new g old new rope :
  Forall (λ o, get_node o ≠ old) (input_values rope) →
  fused_nodes g old new rope !! new = Some rope.
Proof.
  intros H. unfold fused_nodes. rewrite lookup_fmap, lookup_insert_eq. cbn.
  unfold redirect_node. rewrite redirect_list_other by done. by destruct rope.
Qed.

Lemma fused_lookup_old g old new rope k :
  k ≠ new →
  fused_nodes g old new rope !! k = redirect_node old new <$> g !! k.
Proof.
  intros H. unfold fused_nodes. by rewrite lookup_fmap, lookup_insert_ne.
Qed.

Lemma fused_dom g old new rope :
  dom (fused_nodes g old new rope) = {[new]} ∪ dom g.
Proof. unfold fused_nodes. by rewrite dom_fmap_L, dom_insert_L. Qed.

(** After the fusion nobody reads the replaced node. *)
Lemma fused_no_reader g old new rope k x o :
  old ≠ new →
  fused_nodes g old new rope !! k = Some x → o ∈ input_values x →
  get_node o ≠ old.
Proof.
  intros Hne Hk Ho. unfold fused_nodes in Hk. rewrite lookup_fmap in Hk.
  destruct (<[new:=rope]> g !! k) as [y|]; [|done].
  cbn in Hk. injection Hk as <-. cbn in Ho.
  apply list_elem_of_fmap in Ho as (o' & -> & _). by apply redirect_not_old.
Qed.

(** Every port that read the replaced node reads the fused node, the
    other ports are as before, and the nodes keep operation and name. *)
Lemma fused_rewired g old new rope k x :
  g !! k = Some x → g !! new = None →
  ∃ x', fused_nodes g old new rope !! k = Some x'
        ∧ node_op x' = node_op x
        ∧ get_friendly_name x' = get_friendly_name x
        ∧ input_values x' = redirect old new <$> input_values x.
Proof.
  intros Hk Hnew. assert (k ≠ new) by congruence.
  rewrite fused_lookup_old, Hk by done. by eexists.
Qed.

(** A node of the store takes the place of [old_node]. *)
Lemma fused_stands_for w w' old_node new_node rope :
  nodes w' = fused_nodes (nodes w) old_node new_node rope →
  old_node ≠ new_node →
  Forall (λ o, get_node o ≠ old_node) (input_values rope) →
  (∀ x, nodes w !! new_node = Some x →
        Forall (λ o, get_node o ≠ old_node) (input_values x)) →
  stands_for w w' old_node new_node rope.
Proof.
  intros Hw' Hne Hup Hold. unfold stands_for. rewrite Hw'.
  split; [by apply fused_lookup_new|]. split.
  - intros k x a. by apply fused_no_reader.
  - intros k x i idx Hk Hi. destruct (decide (k = new_node)) as [->|Hk'].
    + specialize (Hold x Hk). rewrite Forall_lookup in Hold.
      by destruct (Hold i _ Hi).
    + rewrite fused_lookup_old, Hk by done. eexists. split; [done|].
      cbn. rewrite list_lookup_fmap, Hi. cbn. unfold redirect. cbn.
      by rewrite decide_True.
Qed.
End fused.


(* ===================================================================== *)
(** * [type.hpp] *)
(* ===================================================================== *)

Section type_hpp.
Import Cxx Type_hpp.

Lemma is_type_null T : is_type T nullptr = Some false.
Proof. reflexivity. Qed.

Lemma is_type_object T o :
  is_type T (Some o) = Some (is_castable (get_type_info o) (get_type_info_static T)).
Proof. reflexivity. Qed.

(** C10 (as amended).  [is_type<T>(v)] is [false] for a null [v], without
    dereferencing it, and otherwise the answer of
    [v->get_type_info().is_castable(T::get_type_info_static())].
    [as_type_ptr<T>] of a null handle is an empty pointer.  For a [T]
    derived from [ConversionExtensionBase], a handle that is not castable
    yields an empty pointer; for any other [T] the result is the one of
    [std::dynamic_pointer_cast], which does not ask [is_castable]: the
    handle is converted whenever the dynamic cast converts. *)
Theorem C10_is_type_and_as_type_ptr
    (dynamic_cast_converts : CxxClass → Object → bool)
    (T : CxxClass) (o : Object) (v : ptr Object) :
  is_type T nullptr = Some false
  ∧ is_type T (Some o)
    = Some (is_castable (get_type_info o) (get_type_info_static T))
  ∧ as_type_ptr dynamic_cast_converts T nullptr = Some nullptr
  ∧ (use_ov_dynamic_cast T = true →
     is_type T (Some o) = Some false →
     as_type_ptr dynamic_cast_converts T (Some o) = Some nullptr)
  ∧ (use_ov_dynamic_cast T = false →
     as_type_ptr dynamic_cast_converts T v
     = Some (dynamic_pointer_cast dynamic_cast_converts T v))
  ∧ (use_ov_dynamic_cast T = false →
     dynamic_cast_converts T o = true →
     as_type_ptr dynamic_cast_converts T (Some o) = Some (Some o)).
Proof.
  split; [apply is_type_null|]. split; [apply is_type_object|].
  split; [|split; [|split]].
  - unfold as_type_ptr, AsTypePtr_call. rewrite is_type_null.
    by destruct (use_ov_dynamic_cast T).
  - intros Hdyn Hno. unfold as_type_ptr, AsTypePtr_call.
    by rewrite Hdyn, Hno.
  - intros Hdyn. unfold as_type_ptr. by rewrite Hdyn.
  - intros Hdyn Hconv. unfold as_type_ptr, dynamic_pointer_cast.
    by rewrite Hdyn, Hconv.
Qed.

Lemma C10_is_type_and_as_type_ptr_witness :
  use_ov_dynamic_cast Examples.MyExtension = true
  ∧ is_type Examples.MyExtension (Some Examples.an_extension) = Some false
  ∧ as_type_ptr Examples.converts_to_base Examples.MyExtension
      (Some Examples.an_extension) = Some nullptr
  ∧ use_ov_dynamic_cast Examples.Base = false
  ∧ as_type_ptr Examples.converts_to_base Examples.Base (Some Examples.a_child)
    = Some (Some Examples.a_child).
Proof.
  pose proof (C10_is_type_and_as_type_ptr Examples.converts_to_base
                Examples.MyExtension Examples.an_extension nullptr)
    as (_ & _ & _ & Hext & _).
  pose proof (C10_is_type_and_as_type_ptr Examples.converts_to_base
                Examples.Base Examples.a_child nullptr)
    as (_ & _ & _ & _ & _ & Hdyn).
  split; [reflexivity|]. split; [reflexivity|].
  split; [apply Hext; reflexivity|].
  split; [reflexivity|]. apply Hdyn; reflexivity.
Defined.

(** C10 as stated fails.  The class [Detached] derives from [Base], so a
    dynamic cast converts a handle to a [Detached] object to [Base]; its
    type info was declared without a parent, so [is_type<Base>] answers
    [false] for that handle.  [as_type_ptr<Base>] converts it all the
    same: for a [T] outside the [ConversionExtensionBase] family it asks
    [std::dynamic_pointer_cast] and not the type info. *)
Lemma C10_counterexample :
  ¬ ∃ dynamic_cast_converts : CxxClass → Object → bool,
      dynamic_cast_converts Examples.Base Examples.a_detached = true
      ∧ ∀ (T : CxxClass) (v : ptr Object),
          v = nullptr ∨ is_type T v = Some false →
          as_type_ptr dynamic_cast_converts T v = Some nullptr.
Proof.
  intros (converts & Hconv & H).
  specialize (H Examples.Base (Some Examples.a_detached) (or_intror eq_refl)).
  unfold as_type_ptr, dynamic_pointer_cast in H. rewrite Hconv in H.
  cbn in H. discriminate H.
Qed.
End type_hpp.


(* ===================================================================== *)
(** * [RoPEFusionFlux] *)
(* ===================================================================== *)

Section flux.
Import Cxx IR Graph Graph.Notations Pattern RoPE Spec.

Lemma flux_x_predicate_symbols (m : Matcher) (d0 d1 d2 d3 : Dimension) syms :
  flux_x_predicate [d0; d1; d2; d3] = Some syms →
  syms ⊆ get_symbols m →
  symbol m "PRESERVED_DIMS"
  = SymGroup [dimension_value d0; dimension_value d1; dimension_value d2]
  ∧ symbol m "head_size" = dimension_value d3.
Proof.
  intros Hp Hsub. cbv [flux_x_predicate] in Hp. cbn in Hp.
  injection Hp as <-. unfold symbol. split.
  - erewrite lookup_weaken; [reflexivity| |exact Hsub]. by rewrite lookup_insert_eq.
  - erewrite lookup_weaken; [reflexivity| |exact Hsub].
    rewrite lookup_insert_ne by done. by rewrite lookup_insert_eq.
Qed.

(** C3.  When the head count (the second preserved dimension) or the
    head size of a Flux match is not statically known, the callback
    returns [false] and leaves the graph, the node counter and the list
    of registered nodes as they were. *)
Theorem C3_flux_dynamic_dimension_not_fused
    (m : Matcher) (w : World) (preserved_dims : list PatternSymbolValue)
    (num_heads : PatternSymbolValue) :
  symbol m "PRESERVED_DIMS" = SymGroup preserved_dims →
  preserved_dims !! 1%nat = Some num_heads →
  is_static num_heads = false ∨ is_static (symbol m "head_size") = false →
  RoPEFusionFlux_callback m w = Some (false, w).
Proof.
  intros Hg Hd Hs. unfold RoPEFusionFlux_callback. rewrite Hg.
  cbn [sym_g]. do 2 mstep.
  destruct Hs as [-> | ->]; [reflexivity|]. by rewrite orb_true_r.
Qed.

Lemma C3_flux_dynamic_dimension_not_fused_witness :
  RoPEFusionFlux_callback Examples.flux_dynamic_heads_match Examples.flux_world
  = Some (false, Examples.flux_world).
Proof.
  apply (C3_flux_dynamic_dimension_not_fused _ _
           [SymDynamic 1; SymDynamic 3; SymDynamic 2] (SymDynamic 3)).
  - reflexivity.
  - reflexivity.
  - left. reflexivity.
Defined.

(** C1.  A Flux match on an input [x] of shape [[B,24,L,128]] (any [B]
    and [L], static or not) makes the callback succeed; the graph then
    holds exactly one more node, a RoPE node reading [(x, t_cos, t_sin)]
    with [head_cnt = 24], [head_size = rotary_ndims = 128],
    [is_interleaved = true] and [output_trans0213 = false]; every input
    that read the Add root reads the RoPE node instead, all other nodes
    keep operation, name and inputs, and nothing reads the root any
    more. *)
Theorem C1_flux_fuses_to_one_rope
    (m : Matcher) (w : World) (B L : Dimension) (x t_cos t_sin : Output)
    (syms : gmap string PatternSymbolValue) :
  let root := get_match_root m in
  let new_node := next_node w in
  (* the symbols bound by the predicate on [x] *)
  flux_x_predicate [B; Static 24; L; Static 128] = Some syms →
  syms ⊆ get_symbols m →
  (* the pattern nodes the callback looks up *)
  get_pattern_value_map m !! "x" = Some x →
  get_pattern_value_map m !! "t_cos" = Some t_cos →
  get_pattern_value_map m !! "t_sin" = Some t_sin →
  Forall (λ p, is_Some (get_pattern_value_map m !! p))
         ["x1"; "split"; "x2"; "x3"; "y1"; "y2"; "result"] →
  (* the root is in the graph, below its inputs *)
  is_Some (nodes w !! root) →
  Forall (λ o, get_node o ≠ root) [x; t_cos; t_sin] →
  (* [make_shared] returns a new identity *)
  nodes w !! new_node = None →
  ∃ (w' : World) (rope : Node) (config : Config),
    RoPEFusionFlux_callback m w = Some (true, w')
    ∧ nodes w' !! new_node = Some rope
    ∧ node_op rope = OpRoPE config
    ∧ input_values rope = [x; t_cos; t_sin]
    ∧ head_cnt config = 24
    ∧ head_size config = 128
    ∧ rotary_ndims config = 128
    ∧ is_interleaved config = true
    ∧ output_trans0213 config = false
    ∧ dom (nodes w') = {[new_node]} ∪ dom (nodes w)
    ∧ (∀ k n, nodes w !! k = Some n →
         ∃ n', nodes w' !! k = Some n'
               ∧ node_op n' = node_op n
               ∧ get_friendly_name n' = get_friendly_name n
               ∧ input_values n' = redirect root new_node <$> input_values n)
    ∧ (∀ k n o, nodes w' !! k = Some n → o ∈ input_values n → get_node o ≠ root).
Proof.
  intros root new_node Hp Hsub Hx Hc Hs Hrt [root_node Hroot] Hup Hnew.
  subst root new_node.
  destruct (flux_x_predicate_symbols m _ _ _ _ _ Hp Hsub) as [Hg Hh].
  repeat (apply Forall_cons in Hrt as [[? ?] Hrt]). clear Hrt.
  assert (get_match_root m ≠ next_node w)
    by (intros E; rewrite E in Hroot; congruence).
  unfold RoPEFusionFlux_callback. rewrite Hg, Hh.
  cbn [sym_g dimension_value]. do 2 mstep.
  cbn [dimension_value is_static negb orb sym_i].
  repeat mstep.
  cbn [nodes next_node new_nodes]. rewrite !insert_insert_eq.
  unfold register_new_node, replace_node, modify, with_nodes, ret.
  cbn [nodes next_node new_nodes].
  eexists _, _, _. split; [reflexivity|]. cbn [nodes].
  cbn [with_rt_info with_friendly_name rt_info node_op input_values get_friendly_name app].
  match goal with
  | |- context [redirect_node ?old ?new <$> <[?new := ?r]> (nodes w)] =>
      change (redirect_node old new <$> <[new := r]> (nodes w))
        with (fused_nodes (nodes w) old new r)
  end.
  split; [by apply fused_lookup_new|].
  split; [reflexivity|]. split; [reflexivity|].
  do 5 (split; [reflexivity|]).
  split; [apply fused_dom|]. split.
  - intros k n Hk. by apply fused_rewired.
  - intros k n o. by apply fused_no_reader.
Qed.

Lemma C1_flux_fuses_to_one_rope_witness :
  ∃ (w' : World) (rope : Node) (config : Config),
    RoPEFusionFlux_callback Examples.flux_match Examples.flux_world = Some (true, w')
    ∧ nodes w' !! 17%positive = Some rope
    ∧ node_op rope = OpRoPE config
    ∧ input_values rope = [Examples.out 1; Examples.out 2; Examples.out 3]
    ∧ head_cnt config = 24
    ∧ head_size config = 128
    ∧ rotary_ndims config = 128
    ∧ is_interleaved config = true
    ∧ output_trans0213 config = false.
Proof.
  destruct (C1_flux_fuses_to_one_rope Examples.flux_match Examples.flux_world
              (Dynamic 1) (Dynamic 2)
              (Examples.out 1) (Examples.out 2) (Examples.out 3)
              (default ∅ (flux_x_predicate Examples.flux_shape)))
    as (w' & rope & config & H).
  - reflexivity.
  - reflexivity.
  - reflexivity.
  - reflexivity.
  - reflexivity.
  - repeat constructor; by eexists.
  - by eexists.
  - repeat constructor; by vm_compute.
  - reflexivity.
  - exists w', rope, config.
    destruct H as (? & ? & ? & ? & ? & ? & ? & ? & ? & _).
    repeat split; assumption.
Defined.
End flux.


(* ===================================================================== *)
(** * [RoPEFusionGPTNEOX] *)
(* ===================================================================== *)

Section gptneox.
Import Cxx IR Graph Graph.Notations Pattern RoPE Spec.

Lemma gptneox_cos_swap a b vx : gptneox_cos b a vx = gptneox_cos a b vx.
Proof.
  unfold gptneox_cos. repeat case_bool_decide; congruence.
Qed.

Lemma run_gptneox_find_cos m w a b vx :
  get_pattern_value_map m !! "x_or_cos1" = Some a →
  get_pattern_value_map m !! "x_or_cos2" = Some b →
  get_pattern_value_map m !! "x" = Some vx →
  gptneox_find_cos m w = Some (gptneox_cos a b vx, w).
Proof.
  intros Ha Hb Hx. unfold gptneox_find_cos, gptneox_cos.
  do 2 mstep. case_bool_decide; [by mstep|].
  do 2 mstep. case_bool_decide; [by mstep|done].
Qed.

Lemma run_gptneox m w a b vx v_sin root_node o1 o2 o3 o4 o5 :
  get_pattern_value_map m !! "x_or_cos1" = Some a →
  get_pattern_value_map m !! "x_or_cos2" = Some b →
  get_pattern_value_map m !! "x" = Some vx →
  get_pattern_value_map m !! "t_sin" = Some v_sin →
  get_pattern_value_map m !! "x2neg" = Some o1 →
  get_pattern_value_map m !! "x_rotate_half" = Some o2 →
  get_pattern_value_map m !! "mul_cos" = Some o3 →
  get_pattern_value_map m !! "mul_sin" = Some o4 →
  get_pattern_value_map m !! "result" = Some o5 →
  nodes w !! get_match_root m = Some root_node →
  nodes w !! next_node w = None →
  RoPEFusionGPTNEOX_callback m w
  = match gptneox_cos a b vx, symbol m "half_ndims" with
    | Some v_cos, SymInteger h =>
        Some (true,
              mkWorld
                (fused_nodes (nodes w) (get_match_root m) (next_node w)
                   (gptneox_rope (get_friendly_name root_node) h vx v_cos v_sin
                      (get_node <$> [o1; o2; o3; o4; o5])))
                (Pos.succ (next_node w)) (new_nodes w ++ [next_node w]))
    | _, _ => Some (false, w)
    end.
Proof.
  intros Ha Hb Hx Hs H1 H2 H3 H4 H5 Hroot Hnew.
  assert (get_match_root m ≠ next_node w)
    by (intros E; rewrite E in Hroot; congruence).
  unfold RoPEFusionGPTNEOX_callback.
  erewrite run_bind by (by apply run_gptneox_find_cos).
  destruct (gptneox_cos a b vx) as [v_cos|]; [|done].
  destruct (symbol m "half_ndims"); try done.
  cbn [is_integer negb sym_i]. repeat mstep.
  cbn [nodes next_node new_nodes]. rewrite !insert_insert_eq.
  reflexivity.
Qed.

Lemma swap_first_multiply_lookup m a b p :
  get_pattern_value_map m !! "x_or_cos1" = Some a →
  get_pattern_value_map m !! "x_or_cos2" = Some b →
  get_pattern_value_map (swap_first_multiply m) !! p
  = if bool_decide (p = "x_or_cos1") then Some b
    else if bool_decide (p = "x_or_cos2") then Some a
    else get_pattern_value_map m !! p.
Proof.
  intros Ha Hb. unfold swap_first_multiply. cbn. rewrite Ha, Hb.
  repeat case_bool_decide; subst.
  - by rewrite lookup_insert_eq.
  - rewrite lookup_insert_ne by done. by rewrite lookup_insert_eq.
  - by rewrite !lookup_insert_ne.
Qed.

Lemma swap_operands_fused g old new rope n :
  n ≠ new →
  fused_nodes (alter (λ x, with_input_values (reverse (input_values x)) x) n g)
              old new rope
  = alter (λ x, with_input_values (reverse (input_values x)) x) n
      (fused_nodes g old new rope).
Proof.
  intros Hn. unfold fused_nodes. apply map_eq. intros k.
  destruct (decide (k = n)) as [->|Hk].
  - rewrite lookup_alter_eq, !lookup_fmap, !lookup_insert_ne by done.
    rewrite lookup_alter_eq. destruct (g !! n) as [x|]; [|done].
    cbn. f_equal. unfold redirect_node, with_input_values. cbn.
    by rewrite fmap_reverse.
  - rewrite lookup_alter_ne, !lookup_fmap by done.
    destruct (decide (k = new)) as [->|Hk'].
    + by rewrite !lookup_insert_eq.
    + rewrite !lookup_insert_ne by done. by rewrite lookup_alter_ne.
Qed.

(** C2.  Take a GPT-NeoX match whose first multiply reads [(a, b)], the
    pattern nodes [x_or_cos1], [x_or_cos2] being bound to them in this
    order, and the same match on the graph where that multiply reads
    [(b, a)] (the two bindings exchanged).
    (1) If one of the operands is the value bound to [x] and
    [half_ndims] is an integer [h], the callback fuses in both graphs,
    and into the very same RoPE node: [rotary_ndims = 2 * h], arguments
    [(x, cos, sin)] where [cos] is the operand that is not [x].  In both
    graphs that node is the only one added, it stands where the Add root
    stood, and it is registered; the two resulting graphs differ by the
    operand order of the multiply only.
    (2) If neither operand is the value bound to [x], the callback
    returns [false] in both graphs and changes nothing. *)
Theorem C2_gptneox_operand_order
    (m : Matcher) (w : World) (a b vx v_sin v_mul : Output) (mul_node : Node)
    (h : Z) :
  let root := get_match_root m in
  let new_node := next_node w in
  let mul := get_node v_mul in
  let m' := swap_first_multiply m in
  let w' := swap_operands mul w in
  get_pattern_value_map m !! "x_or_cos1" = Some a →
  get_pattern_value_map m !! "x_or_cos2" = Some b →
  get_pattern_value_map m !! "x" = Some vx →
  get_pattern_value_map m !! "t_sin" = Some v_sin →
  get_pattern_value_map m !! "mul_cos" = Some v_mul →
  Forall (λ p, is_Some (get_pattern_value_map m !! p))
         ["x2neg"; "x_rotate_half"; "mul_sin"; "result"] →
  (* the first multiply and its operands as written *)
  nodes w !! mul = Some mul_node →
  input_values mul_node = [a; b] →
  (* the root is in the graph, below the inputs of the pattern *)
  is_Some (nodes w !! root) →
  Forall (λ o, get_node o ≠ root) [a; b; vx; v_sin] →
  (* [make_shared] returns a new identity *)
  nodes w !! new_node = None →
  (a = vx ∨ b = vx →
   symbol m "half_ndims" = SymInteger h →
   ∃ (w1 : World) (rope : Node) (config : Config) (v_cos : Output),
     RoPEFusionGPTNEOX_callback m w = Some (true, w1)
     ∧ RoPEFusionGPTNEOX_callback m' w' = Some (true, swap_operands mul w1)
     ∧ ((a = vx ∧ v_cos = b) ∨ (b = vx ∧ v_cos = a))
     ∧ node_op rope = OpRoPE config
     ∧ rotary_ndims config = size_t_mul 2 (to_size_t h)
     ∧ input_values rope = [vx; v_cos; v_sin]
     ∧ stands_for w w1 root new_node rope
     ∧ stands_for w' (swap_operands mul w1) root new_node rope
     ∧ dom (nodes w1) = {[new_node]} ∪ dom (nodes w)
     ∧ dom (nodes (swap_operands mul w1)) = {[new_node]} ∪ dom (nodes w')
     ∧ new_nodes w1 = (new_nodes w ++ [new_node])%list)
  ∧ (a ≠ vx → b ≠ vx →
     RoPEFusionGPTNEOX_callback m w = Some (false, w)
     ∧ RoPEFusionGPTNEOX_callback m' w' = Some (false, w')).
Proof.
  intros root new_node mul m' w' Ha Hb Hx Hs Hm Hrt Hmul Hops [root_node Hroot]
    Hup Hnew.
  subst root new_node mul m' w'.
  apply Forall_cons in Hrt as [[o1 Ho1] Hrt].
  apply Forall_cons in Hrt as [[o2 Ho2] Hrt].
  apply Forall_cons in Hrt as [[o3 Ho3] Hrt].
  apply Forall_cons in Hrt as [[o4 Ho4] _].
  assert (get_node v_mul ≠ next_node w) as Hmn by congruence.
  assert (get_match_root m ≠ next_node w) as Hrn by congruence.
  pose proof (swap_first_multiply_lookup m a b) as Hsw.
  assert (∃ root_node',
            nodes (swap_operands (get_node v_mul) w) !! get_match_root m
            = Some root_node'
            ∧ get_friendly_name root_node' = get_friendly_name root_node)
    as (root_node' & Hroot' & Hname).
  { cbn. rewrite lookup_alter. case_decide as Heq.
    - rewrite Heq, Hroot. by eexists.
    - by eexists. }
  assert (nodes (swap_operands (get_node v_mul) w) !! next_node w = None) as Hnew'
    by (cbn; by rewrite lookup_alter_ne, Hnew).
  rewrite (run_gptneox m w a b vx v_sin root_node o1 o2 v_mul o3 o4) by done.
  rewrite (run_gptneox (swap_first_multiply m) _ b a vx v_sin root_node'
             o1 o2 v_mul o3 o4);
    [|by rewrite (Hsw _ Ha Hb)..|exact Hroot'|exact Hnew'].
  rewrite (gptneox_cos_swap a b vx).
  change (symbol (swap_first_multiply m) "half_ndims") with (symbol m "half_ndims").
  split.
  - intros Hx_op Hh. rewrite Hh.
    assert (∃ v_cos, gptneox_cos a b vx = Some v_cos
                     ∧ ((a = vx ∧ v_cos = b) ∨ (b = vx ∧ v_cos = a)))
      as (v_cos & Hcos & Hwhich).
    { unfold gptneox_cos. repeat case_bool_decide.
      - exists b. auto.
      - exists a. auto.
      - by destruct Hx_op. }
    rewrite Hcos.
    assert (Forall (λ o, get_node o ≠ get_match_root m) [vx; v_cos; v_sin]) as Hargs.
    { repeat (apply Forall_cons in Hup as [? Hup]).
      destruct Hwhich as [[_ ->]|[_ ->]]; repeat constructor; done. }
    eexists _, (gptneox_rope (get_friendly_name root_node) h vx v_cos v_sin
                  (get_node <$> [o1; o2; v_mul; o3; o4])), _, v_cos.
    split; [reflexivity|]. split.
    { rewrite Hname. unfold swap_operands, with_nodes.
      cbn [nodes next_node new_nodes].
      f_equal. f_equal. f_equal. by rewrite swap_operands_fused. }
    split; [exact Hwhich|]. split; [reflexivity|]. split; [reflexivity|].
    split; [reflexivity|]. split.
    { apply fused_stands_for; [reflexivity|done|done|].
      intros x' Hx'. congruence. }
    split.
    { apply fused_stands_for; [|done|done|].
      - unfold swap_operands, with_nodes. cbn [nodes].
        by rewrite swap_operands_fused.
      - intros x' Hx'. congruence. }
    split; [apply fused_dom|]. split; [|reflexivity].
    unfold swap_operands, with_nodes. cbn [nodes].
    by rewrite !dom_alter_L, fused_dom.
  - intros Hna Hnb. unfold gptneox_cos.
    by rewrite !bool_decide_eq_false_2.
Qed.
End gptneox.


(* ===================================================================== *)
(** * Validation of resolved symbols: GPT-J, Qwen, ChatGLM *)
(* ===================================================================== *)

Section validation.
Import Cxx IR Graph Graph.Notations Pattern RoPE Spec.

Lemma gptj_rejects_mismatch m ndims ndims_over_2 :
  symbol m "ndims" = SymInteger ndims →
  symbol m "ndims/2" = SymInteger ndims_over_2 →
  in_int64 (ndims_over_2 * 2) = true →
  gptj_rejects m = Some (negb (ndims_over_2 * 2 =? ndims)).
Proof.
  intros Hn Hh Hr. unfold gptj_rejects, int64_mul. rewrite Hn, Hh. cbn.
  by rewrite Hr.
Qed.

Lemma qwen_rejects_mismatch m head_cnt head_size head_size_over_2 product :
  symbol m "head_cnt" = SymInteger head_cnt →
  symbol m "head_size" = SymInteger head_size →
  symbol m "head_size/2" = SymInteger head_size_over_2 →
  symbol m "head_cnt*head_size" = SymInteger product →
  in_int64 (head_size_over_2 * 2) = true →
  head_size_over_2 * 2 ≠ head_size
  ∨ (in_int64 (head_cnt * head_size) = true ∧ head_cnt * head_size ≠ product) →
  qwen_rejects m = Some true.
Proof.
  intros Hc Hs Hh Hp Hr Hbad. unfold qwen_rejects, int64_mul.
  rewrite Hc, Hs, Hh, Hp. cbn. rewrite Hr. cbn.
  destruct (head_size_over_2 * 2 =? head_size) eqn:E; [|done].
  apply Z.eqb_eq in E. destruct Hbad as [?|[Hr' Hne]]; [done|].
  cbn. rewrite Hr'. cbn. by apply Z.eqb_neq in Hne as ->.
Qed.

(** C4.  GPT-J: when the resolved [ndims/2] and [ndims] do not satisfy
    [2 * (ndims/2) = ndims], the callback returns [false] and the state
    (graph, node counter, registered nodes) is untouched.  Qwen: the same
    when [2 * (head_size/2) ≠ head_size], or when [head_cnt * head_size]
    differs from the resolved product symbol.  The products are the
    [int64_t] products of the code; they are taken not to overflow. *)
Theorem C4_symbol_relation_violated_no_fusion
    (gptj qwen : Matcher) (split_output_id : Z) (w : World)
    (ndims ndims_over_2 : Z)
    (head_cnt head_size head_size_over_2 head_cnt_by_head_size : Z) :
  (symbol gptj "ndims" = SymInteger ndims →
   symbol gptj "ndims/2" = SymInteger ndims_over_2 →
   in_int64 (ndims_over_2 * 2) = true →
   2 * ndims_over_2 ≠ ndims →
   RoPEFusionGPTJ_callback gptj w = Some (false, w))
  ∧ (symbol qwen "head_cnt" = SymInteger head_cnt →
     symbol qwen "head_size" = SymInteger head_size →
     symbol qwen "head_size/2" = SymInteger head_size_over_2 →
     symbol qwen "head_cnt*head_size" = SymInteger head_cnt_by_head_size →
     in_int64 (head_size_over_2 * 2) = true →
     2 * head_size_over_2 ≠ head_size
     ∨ (in_int64 (head_cnt * head_size) = true
        ∧ head_cnt * head_size ≠ head_cnt_by_head_size) →
     RoPEFusionQwen_callback split_output_id qwen w = Some (false, w)).
Proof.
  split.
  - intros Hn Hh Hr Hne. unfold RoPEFusionGPTJ_callback.
    pose proof (gptj_rejects_mismatch gptj _ _ Hn Hh Hr) as Hrej.
    assert ((ndims_over_2 * 2 =? ndims) = false) as E by (apply Z.eqb_neq; lia).
    rewrite E in Hrej.
    by rewrite (run_bind _ _ _ _ _ (run_lift w _ _ Hrej)).
  - intros Hc Hs Hh Hp Hr Hbad. unfold RoPEFusionQwen_callback.
    assert (qwen_rejects qwen = Some true) as Hrej.
    { eapply qwen_rejects_mismatch; try eassumption.
      destruct Hbad as [?|?]; [left; lia|by right]. }
    by rewrite (run_bind _ _ _ _ _ (run_lift w _ _ Hrej)).
Qed.

Lemma double_to_int_Some d v : double_to_int d = Some v → v = d.
Proof. unfold double_to_int. case_match; congruence. Qed.

Lemma chatglm_validate_true m :
  chatglm_validate_reshape_symbols m = Some true →
  chatglm_triple (validator m "A") (validator m "B") (validator m "C")
                 (validator m "head_cnt").
Proof.
  unfold chatglm_validate_reshape_symbols, chatglm_triple.
  destruct (double_to_int (validator m "A")) as [A|] eqn:HA; [|done].
  destruct (double_to_int (validator m "B")) as [B|] eqn:HB; [|done].
  destruct (double_to_int (validator m "C")) as [C|] eqn:HC; [|done].
  destruct (double_to_int (validator m "head_cnt")) as [h|] eqn:Hh; [|done].
  apply double_to_int_Some in HA as ->, HB as ->, HC as ->, Hh as ->.
  cbn. case_match eqn:E; [|done]. intros _.
  repeat first [ apply orb_true_iff in E as [E|E]
               | apply andb_true_iff in E as [E ?] ];
    repeat match goal with H : (_ =? _) = true |- _ => apply Z.eqb_eq in H end;
    auto.
Qed.

Lemma chatglm_validate_false m :
  in_int32 (validator m "A") = true →
  in_int32 (validator m "B") = true →
  in_int32 (validator m "C") = true →
  in_int32 (validator m "head_cnt") = true →
  ¬ chatglm_triple (validator m "A") (validator m "B") (validator m "C")
                   (validator m "head_cnt") →
  chatglm_validate_reshape_symbols m = Some false.
Proof.
  intros HA HB HC Hh Hno.
  unfold chatglm_validate_reshape_symbols, double_to_int.
  rewrite HA, HB, HC, Hh. cbn. case_match eqn:E; [|done].
  exfalso. apply Hno. unfold chatglm_triple.
  repeat first [ apply orb_true_iff in E as [E|E]
               | apply andb_true_iff in E as [E ?] ];
    repeat match goal with H : (_ =? _) = true |- _ => apply Z.eqb_eq in H end;
    auto.
Qed.

(** C9.  The ChatGLM callback fuses (returns [true], or changes the state
    at all) only when the reshape symbols form one of the triples
    [(-1, head_cnt, 1)], [(1, -1, head_cnt)], [(0, 0, 0)]; for any other
    triple it returns [false] and the state is untouched.  (The symbols are the validator's values; the callback
    reads them through [static_cast<int>], which is defined for values
    that fit an [int].) *)
Theorem C9_chatglm_reshape_triple
    (split_output_id : Z) (support_2d_rope : bool) (m : Matcher) (w : World) :
  let A := validator m "A" in
  let B := validator m "B" in
  let C := validator m "C" in
  let head_cnt := validator m "head_cnt" in
  (∀ b w', RoPEFusionChatGLM_callback split_output_id support_2d_rope m w
           = Some (b, w') →
           b = true ∨ w' ≠ w →
           chatglm_triple A B C head_cnt)
  ∧ (in_int32 A = true → in_int32 B = true → in_int32 C = true →
     in_int32 head_cnt = true →
     ¬ chatglm_triple A B C head_cnt →
     RoPEFusionChatGLM_callback split_output_id support_2d_rope m w
     = Some (false, w)).
Proof.
  intros A B C head_cnt. subst A B C head_cnt.
  unfold RoPEFusionChatGLM_callback. split.
  - intros b w'. destruct (validator_ok m); cbn [negb].
    2:{ intros [= <- <-] [?|?]; done. }
    destruct (chatglm_validate_reshape_symbols m) as [[|]|] eqn:E.
    + intros _ _. by apply chatglm_validate_true.
    + intros [= <- <-] [?|?]; done.
    + done.
  - intros HA HB HC Hh Hno. destruct (validator_ok m); [|done]. cbn [negb].
    by rewrite (run_bind _ _ _ _ _
                  (run_lift w _ _ (chatglm_validate_false m HA HB HC Hh Hno))).
Qed.
End validation.


(* ===================================================================== *)
(** * Readers of a value *)
(* ===================================================================== *)

Section readers.
Import IR Graph Spec.

Lemma elem_of_ports_reading o k x inp :
  inp ∈ ports_reading o k x
  ↔ input_node inp = k ∧ input_values x !! input_index inp = Some o.
Proof.
  unfold ports_reading. rewrite list_elem_of_omap. split.
  - intros (oi & Hin & Hid). cbn in Hid. subst oi.
    apply elem_of_lookup_imap in Hin as (i & v & Heq & Hlook).
    case_decide; [|done]. injection Heq as ->. by subst.
  - intros [<- Hlook]. exists (Some inp). split; [|done].
    apply elem_of_lookup_imap. exists (input_index inp), o.
    rewrite decide_True by done. by destruct inp.
Qed.

Lemma elem_of_target_inputs g o inp :
  inp ∈ target_inputs g o
  ↔ ∃ x, g !! input_node inp = Some x
         ∧ input_values x !! input_index inp = Some o.
Proof.
  unfold target_inputs. rewrite list_elem_of_bind. split.
  - intros ([k x] & Hin & Hkx). apply elem_of_map_to_list in Hkx.
    apply elem_of_ports_reading in Hin as [<- ?]. eauto.
  - intros (x & Hx & Hi). exists (input_node inp, x). split.
    + by apply elem_of_ports_reading.
    + by apply elem_of_map_to_list.
Qed.
End readers.


(* ===================================================================== *)
(** * [RoPEFusionGPTJ] *)
(* ===================================================================== *)

Section gptj.
Import Cxx IR Graph Graph.Notations Pattern RoPE Spec.

Lemma node_moved_refl o v x : node_moved o v x x.
Proof.
  repeat split; try done. apply Forall2_same_length_lookup_2; [done|].
  intros i a a' Ha Ha'. left. congruence.
Qed.

Lemma moved_refl o v g : moved o v g g.
Proof.
  intros k. destruct (g !! k); constructor. apply node_moved_refl.
Qed.

Lemma moved_lookup_l o v g g' k x :
  moved o v g g' → g !! k = Some x →
  ∃ x', g' !! k = Some x' ∧ node_moved o v x x'.
Proof.
  intros Hm Hx. specialize (Hm k). rewrite Hx in Hm.
  destruct (g' !! k) as [x'|]; inversion Hm; eauto.
Qed.

Lemma moved_lookup_r o v g g' k x' :
  moved o v g g' → g' !! k = Some x' →
  ∃ x, g !! k = Some x ∧ node_moved o v x x'.
Proof.
  intros Hm Hx. specialize (Hm k). rewrite Hx in Hm.
  destruct (g !! k) as [x|]; inversion Hm; eauto.
Qed.

(** Re-pointing one [ShapeOf] reader of [o] to [v] keeps [moved]. *)
Lemma moved_replace_source o v g g' k i x x' :
  moved o v g g' →
  g !! k = Some x → input_values x !! i = Some o →
  g' !! k = Some x' → node_op x' = OpShapeOf →
  moved o v g (<[k := with_input_values (<[i := v]> (input_values x')) x']> g').
Proof.
  intros Hm Hx Hi Hx' Hop k'. destruct (decide (k' = k)) as [->|Hk].
  - rewrite lookup_insert_eq, Hx. constructor.
    destruct (moved_lookup_l _ _ _ _ _ _ Hm Hx) as (x0 & Hx0 & Hn).
    assert (x0 = x') as -> by congruence.
    destruct Hn as (Hop' & Hname & Hrt & Hports & _).
    repeat split; try done.
    + cbn. rewrite <- (list_insert_id (input_values x) i o) by done.
      apply Forall2_insert; [done|]. by right.
    + congruence.
  - rewrite lookup_insert_ne by done. apply Hm.
Qed.

Lemma run_replace_source_output w inp v x :
  nodes w !! input_node inp = Some x →
  replace_source_output inp v w
  = Some (tt, mkWorld
                (<[input_node inp :=
                     with_input_values (<[input_index inp := v]> (input_values x)) x]>
                   (nodes w))
                (next_node w) (new_nodes w)).
Proof.
  intros Hx. unfold replace_source_output.
  rewrite (run_bind _ _ _ _ _ (run_find_node w _ _ Hx)).
  by rewrite (run_update_node w _ _ _ Hx).
Qed.

Lemma run_move_readers m o v g readers :
  get_pattern_value_map m !! "view_Reshape" = Some v →
  Forall (λ inp, ∃ x, g !! input_node inp = Some x
                      ∧ input_values x !! input_index inp = Some o) readers →
  ∀ w, moved o v g (nodes w) →
    ∃ w', for_each readers (λ input,
            is_shapeof <- is_op OpShapeOf (input_node input) ;;
            if is_shapeof : bool then
              v <- at_ m "view_Reshape" ;;
              replace_source_output input v
            else ret tt) w = Some (tt, w')
          ∧ next_node w' = next_node w
          ∧ new_nodes w' = new_nodes w
          ∧ moved o v g (nodes w').
Proof.
  intros Hv. induction 1 as [|inp readers (x & Hx & Hi) _ IH]; intros w Hm.
  - by exists w.
  - cbn [for_each]. cbn beta.
    destruct (moved_lookup_l _ _ _ _ _ _ Hm Hx) as (x' & Hx' & _).
    rewrite bind_assoc, (run_bind _ _ _ _ _ (run_is_op w _ _ _ Hx')).
    case_bool_decide as Hop.
    + rewrite bind_assoc, (run_bind _ _ _ _ _ (run_at w _ _ _ Hv)).
      rewrite (run_bind _ _ _ _ _ (run_replace_source_output w _ _ _ Hx')).
      edestruct (IH (mkWorld
                       (<[input_node inp :=
                            with_input_values
                              (<[input_index inp := v]> (input_values x')) x']>
                          (nodes w))
                       (next_node w) (new_nodes w)))
        as (w' & Hrun & ? & ? & ?).
      { cbn. by eapply moved_replace_source. }
      exists w'. by rewrite Hrun.
    + erewrite run_bind by reflexivity. exact (IH w Hm).
Qed.

Lemma run_gptj_move_shapeof m w remb v :
  get_pattern_value_map m !! "rotary_emb" = Some remb →
  get_pattern_value_map m !! "view_Reshape" = Some v →
  ∃ w', gptj_move_shapeof m w = Some (tt, w')
        ∧ next_node w' = next_node w
        ∧ new_nodes w' = new_nodes w
        ∧ moved (mkOutput (get_node remb) 0) v (nodes w) (nodes w').
Proof.
  intros Hr Hv. unfold gptj_move_shapeof.
  rewrite (run_bind _ _ _ _ _ (run_node_at w _ _ _ Hr)).
  erewrite run_bind by reflexivity.
  case_match.
  - apply run_move_readers; [done| |apply moved_refl].
    apply Forall_forall. intros inp Hin. by apply elem_of_target_inputs.
  - exists w. repeat split; try done. apply moved_refl.
Qed.
End gptj.


Section gptj_main.
Import Cxx IR Graph Graph.Notations Pattern RoPE Spec.

Lemma run_gptj_fuse_absorb w root t config rt_from :
  sole_consumer (nodes w) root t →
  is_transpose_0213 (nodes w) t →
  gptj_fuse_output_transpose root config rt_from w
  = Some ((set_output_trans0213 true config, (rt_from ++ [t])%list, t), w).
Proof.
  intros [port Hsole] (tn & axes & an & c & Ht & Hop & Hax & Han & Hc & Hperm).
  unfold gptj_fuse_output_transpose.
  erewrite run_bind by reflexivity. rewrite Hsole. cbn [input_node].
  rewrite (run_bind _ _ _ _ _ (run_is_op w _ _ _ Ht)).
  rewrite bool_decide_eq_true_2 by done.
  rewrite (run_bind _ _ _ _ _ (run_get_input_node_shared_ptr w _ _ _ _ Ht Hax)).
  rewrite (run_bind _ _ _ _ _ (run_as_Constant w _ _ Han)), Hc.
  rewrite (run_bind _ _ _ _ _ (run_lift w _ _ Hperm)).
  by rewrite bool_decide_eq_true_2.
Qed.

Lemma run_gptj_fuse_keep w root config rt_from :
  ¬ (∃ t, sole_consumer (nodes w) root t ∧ is_transpose_0213 (nodes w) t) →
  transposes_well_formed (nodes w) →
  gptj_fuse_output_transpose root config rt_from w
  = Some ((config, rt_from, root), w).
Proof.
  intros Hno Hwf. unfold gptj_fuse_output_transpose.
  erewrite run_bind by reflexivity.
  destruct (target_inputs (nodes w) (mkOutput root 0)) as [|inp [|? ?]] eqn:Hti;
    [done| |done].
  assert (inp ∈ target_inputs (nodes w) (mkOutput root 0)) as Hin
    by (rewrite Hti; apply list_elem_of_here).
  apply elem_of_target_inputs in Hin as (tn & Ht & _).
  rewrite (run_bind _ _ _ _ _ (run_is_op w _ _ _ Ht)).
  case_bool_decide as Hop; [|done].
  pose proof (Hwf _ _ Ht) as Hw. cbn in Hw. unfold transpose_well_formed in Hw.
  rewrite bool_decide_eq_true_2 in Hw by done.
  destruct (input_values tn !! 1%nat) as [axes|] eqn:Hax; [|done].
  destruct (nodes w !! get_node axes) as [an|] eqn:Han; [|done].
  rewrite (run_bind _ _ _ _ _ (run_get_input_node_shared_ptr w _ _ _ _ Ht Hax)).
  rewrite (run_bind _ _ _ _ _ (run_as_Constant w _ _ Han)).
  destruct (node_op an) as [c| | | | |] eqn:Hc; try done.
  apply bool_decide_eq_true_1 in Hw as [order Hperm].
  rewrite (run_bind _ _ _ _ _ (run_lift w _ _ Hperm)).
  case_bool_decide as Ho; [|done]. exfalso. apply Hno.
  exists (input_node inp). split.
  - exists (input_index inp). rewrite Hti. by destruct inp.
  - exists tn, axes, an, c. subst order. done.
Qed.

(** The fusion itself, whatever node [old_node] the transpose step chose
    to replace. *)
Lemma run_gptj m w n h v_view v_tab v_remb old_node old config rt_from os :
  symbol m "ndims" = SymInteger n →
  symbol m "ndims/2" = SymInteger h →
  h * 2 = n → in_int64 n = true →
  get_pattern_value_map m !! "view_Reshape" = Some v_view →
  get_pattern_value_map m !! "gather_sin_cos" = Some v_tab →
  get_pattern_value_map m !! "rotary_emb" = Some v_remb →
  Forall2 (λ p o, get_pattern_value_map m !! p = Some o)
    ["varsplit"; "repeat_interleave_sin"; "repeat_interleave_cos";
     "neg_Multiply_1177"; "stack_1182"; "mul_cos"; "mul_sin"; "result"] os →
  (∀ rt, gptj_fuse_output_transpose (get_match_root m)
           (set_rotary_ndims (to_size_t n) default_Config) rt w
         = Some ((config, rt_from rt, old_node), w)) →
  nodes w !! old_node = Some old →
  nodes w !! next_node w = None →
  is_Some (nodes w !! get_node v_remb) →
  Forall (λ o, get_node o ≠ old_node) [v_view; v_tab] →
  ∃ w' rope,
    RoPEFusionGPTJ_callback m w = Some (true, w')
    ∧ node_op rope = OpRoPE (set_is_interleaved true config)
    ∧ input_values rope = [v_view; v_tab; v_tab]
    ∧ stands_for w w' old_node (next_node w) rope.
Proof.
  intros Hn Hh Hhalf Hrange Hview Htab Hremb Hos Hfuse Hold Hnew [remb Hr] Hup.
  assert (old_node ≠ next_node w) by congruence.
  assert (get_node v_remb ≠ next_node w) by congruence.
  repeat (apply Forall_cons in Hup as [? Hup]).
  apply Forall2_cons_inv_l in Hos as (o1 & os1 & Ho1 & Hos & ->).
  apply Forall2_cons_inv_l in Hos as (o2 & os2 & Ho2 & Hos & ->).
  apply Forall2_cons_inv_l in Hos as (o3 & os3 & Ho3 & Hos & ->).
  apply Forall2_cons_inv_l in Hos as (o4 & os4 & Ho4 & Hos & ->).
  apply Forall2_cons_inv_l in Hos as (o5 & os5 & Ho5 & Hos & ->).
  apply Forall2_cons_inv_l in Hos as (o6 & os6 & Ho6 & Hos & ->).
  apply Forall2_cons_inv_l in Hos as (o7 & os7 & Ho7 & Hos & ->).
  apply Forall2_cons_inv_l in Hos as (o8 & os8 & Ho8 & Hos & ->).
  apply Forall2_nil_inv_l in Hos as ->.
  unfold RoPEFusionGPTJ_callback.
  assert (gptj_rejects m = Some false) as Hrej.
  { rewrite (gptj_rejects_mismatch m n h) by (done || by rewrite Hhalf).
    by rewrite Hhalf, Z.eqb_refl. }
  rewrite (run_bind _ _ _ _ _ (run_lift w _ _ Hrej)).
  do 9 mstep. rewrite Hn. cbn [sym_i]. mstep.
  rewrite (run_bind _ _ _ _ _ (Hfuse _)).
  do 3 mstep. repeat mstep.
  cbn [nodes next_node new_nodes]. rewrite !insert_insert_eq.
  unfold with_nodes.
  cbn [with_rt_info with_friendly_name rt_info node_op input_values
       get_friendly_name app nodes next_node new_nodes].
  match goal with
  | |- context [redirect_node ?o ?nw <$> <[?nw := ?r]> (nodes w)] =>
      change (redirect_node o nw <$> <[nw := r]> (nodes w))
        with (fused_nodes (nodes w) o nw r);
      set (rope := r)
  end.
  match goal with
  | |- context [bind (gptj_move_shapeof m) _ ?w1] =>
      destruct (run_gptj_move_shapeof m w1 _ _ Hremb Hview)
        as (w' & Hrun & _ & _ & Hmoved)
  end.
  rewrite (run_bind _ _ _ _ _ Hrun). cbn [nodes] in Hmoved.
  exists w', rope. split; [reflexivity|]. split; [reflexivity|].
  split; [reflexivity|].
  assert (fused_nodes (nodes w) old_node (next_node w) rope !! next_node w
          = Some rope) as Hfn.
  { apply fused_lookup_new. subst rope. cbn. repeat constructor; done. }
  split; [|split].
  - destruct (moved_lookup_l _ _ _ _ _ _ Hmoved Hfn)
      as (x' & Hx' & Hop & Hname & Hrt & _ & Hin).
    rewrite Hx'. f_equal. destruct x' as [? ? ? ?]. subst rope.
    unfold with_rt_info, with_friendly_name in Hop, Hname, Hrt, Hin |- *.
    cbn in Hop, Hname, Hrt, Hin |- *. rewrite Hin by done. congruence.
  - intros k x' a Hk Ha.
    destruct (moved_lookup_r _ _ _ _ _ _ Hmoved Hk)
      as (x & Hx & _ & _ & _ & Hports & _).
    apply list_elem_of_lookup in Ha as [i Hi].
    destruct (Forall2_lookup_r _ _ _ _ _ Hports Hi) as (a0 & Ha0 & [->|[_ ->]]).
    + eapply fused_no_reader; [done|exact Hx|].
      by eapply list_elem_of_lookup_2.
    + done.
  - intros k x i idx Hk Hi.
    destruct (fused_rewired (nodes w) old_node (next_node w) rope k x Hk Hnew)
      as (x1 & Hk1 & _ & _ & Hin1).
    destruct (moved_lookup_l _ _ _ _ _ _ Hmoved Hk1)
      as (x' & Hx' & _ & _ & _ & Hports & _).
    exists x'. split; [done|].
    assert (input_values x1 !! i = Some (mkOutput (next_node w) idx)) as Hi1.
    { rewrite Hin1, list_lookup_fmap, Hi. cbn. unfold redirect. cbn.
      by rewrite decide_True. }
    destruct (Forall2_lookup_l _ _ _ _ _ Hports Hi1) as (a' & Ha' & [->|[He _]]).
    + done.
    + injection He as He _. congruence.
Qed.
End gptj_main.


Section gptj_claim.
Import Cxx IR Graph Graph.Notations Pattern RoPE Spec.

(** C7.  In the GPT-J callback, when the one reader of the match root is
    a transpose whose permutation is the constant [[0,2,1,3]], the fused
    node has [output_trans0213 = true] and stands where the transpose
    stood: the readers of the transpose read the fused node and nothing
    reads the transpose any more.  In every other case
    [output_trans0213] is [false] and the fused node stands where the
    match root stood (a transpose reading the root now reads the fused
    node). *)
Theorem C7_gptj_output_transpose
    (m : Matcher) (w : World) (ndims ndims_over_2 : Z)
    (v_view v_tab v_remb : Output) :
  let root := get_match_root m in
  let new_node := next_node w in
  (* the symbols pass the validation *)
  symbol m "ndims" = SymInteger ndims →
  symbol m "ndims/2" = SymInteger ndims_over_2 →
  ndims_over_2 * 2 = ndims →
  in_int64 ndims = true →
  (* the pattern nodes the callback looks up *)
  get_pattern_value_map m !! "view_Reshape" = Some v_view →
  get_pattern_value_map m !! "gather_sin_cos" = Some v_tab →
  get_pattern_value_map m !! "rotary_emb" = Some v_remb →
  Forall (λ p, is_Some (get_pattern_value_map m !! p))
    ["varsplit"; "repeat_interleave_sin"; "repeat_interleave_cos";
     "neg_Multiply_1177"; "stack_1182"; "mul_cos"; "mul_sin"; "result"] →
  (* the matched nodes are in the graph, the pattern inputs above the root *)
  is_Some (nodes w !! root) →
  is_Some (nodes w !! get_node v_remb) →
  Forall (λ o, get_node o ≠ root) [v_view; v_tab] →
  nodes w !! new_node = None →
  (∀ t, sole_consumer (nodes w) root t →
        is_transpose_0213 (nodes w) t →
        Forall (λ o, get_node o ≠ t) [v_view; v_tab] →
        ∃ (w' : World) (rope : Node) (config : Config),
          RoPEFusionGPTJ_callback m w = Some (true, w')
          ∧ node_op rope = OpRoPE config
          ∧ input_values rope = [v_view; v_tab; v_tab]
          ∧ output_trans0213 config = true
          ∧ is_interleaved config = true
          ∧ rotary_ndims config = to_size_t ndims
          ∧ stands_for w w' t new_node rope)
  ∧ (¬ (∃ t, sole_consumer (nodes w) root t ∧ is_transpose_0213 (nodes w) t) →
     transposes_well_formed (nodes w) →
     ∃ (w' : World) (rope : Node) (config : Config),
       RoPEFusionGPTJ_callback m w = Some (true, w')
       ∧ node_op rope = OpRoPE config
       ∧ input_values rope = [v_view; v_tab; v_tab]
       ∧ output_trans0213 config = false
       ∧ is_interleaved config = true
       ∧ rotary_ndims config = to_size_t ndims
       ∧ stands_for w w' root new_node rope).
Proof.
  intros root new_node Hn Hh Hhalf Hrange Hview Htab Hremb Hrt [rn Hroot] Hr Hup Hnew.
  subst root new_node.
  assert (∃ os, Forall2 (λ p o, get_pattern_value_map m !! p = Some o)
                  ["varsplit"; "repeat_interleave_sin"; "repeat_interleave_cos";
                   "neg_Multiply_1177"; "stack_1182"; "mul_cos"; "mul_sin";
                   "result"] os) as [os Hos].
  { clear -Hrt. induction Hrt as [|p ps [o Ho] _ [os IH]].
    - by exists [].
    - exists (o :: os). by constructor. }
  split.
  - intros t Hsole Htr Hupt.
    pose proof Htr as (tn & _ & _ & _ & Ht & _).
    destruct (run_gptj m w ndims ndims_over_2 v_view v_tab v_remb t tn
                (set_output_trans0213 true
                   (set_rotary_ndims (to_size_t ndims) default_Config))
                (λ rt, (rt ++ [t])%list) os)
      as (w' & rope & Hrun & Hop & Hin & Hst); try done.
    { intros rt. by apply run_gptj_fuse_absorb. }
    eexists w', rope, _. split; [exact Hrun|]. split; [exact Hop|].
    split; [exact Hin|]. do 3 (split; [reflexivity|]). exact Hst.
  - intros Hno Hwf.
    destruct (run_gptj m w ndims ndims_over_2 v_view v_tab v_remb
                (get_match_root m) rn
                (set_rotary_ndims (to_size_t ndims) default_Config)
                (λ rt, rt) os)
      as (w' & rope & Hrun & Hop & Hin & Hst); try done.
    { intros rt. by apply run_gptj_fuse_keep. }
    eexists w', rope, _. split; [exact Hrun|]. split; [exact Hop|].
    split; [exact Hin|]. do 3 (split; [reflexivity|]). exact Hst.
Qed.
End gptj_claim.


(* ===================================================================== *)
(** * [RoPEFusionPreprocess] *)
(* ===================================================================== *)

Section preprocess.
Import Cxx IR Graph Graph.Notations Pattern RoPE Spec.

Lemma run_set_argument_0 w n x a args v :
  nodes w !! n = Some x → input_values x = a :: args →
  set_argument n 0 v w
  = Some (tt, mkWorld (<[n := with_input_values (v :: args) x]> (nodes w))
                      (next_node w) (new_nodes w)).
Proof.
  intros Hx Hin. unfold set_argument.
  rewrite (run_bind _ _ _ _ _ (run_find_node w _ _ Hx)), Hin. cbn.
  unfold update_node. by rewrite (run_bind _ _ _ _ _ (run_find_node w _ _ Hx)).
Qed.

(** C6.  When the Preprocess callback amends a RoPE node, the new
    configuration differs from the old one at most in [slice_start],
    [slice_stop] and [input_trans0213]: [rotary_ndims], [head_cnt],
    [head_size], [is_interleaved], [is_chatglm], [is_qwen],
    [gather_position_arg_id] (and the remaining flags) are the old ones.
    [input_trans0213] becomes [true]; the slice window is set when an
    input slice was matched and kept otherwise; the data argument is
    redirected to the input of the slice or of the transpose; the other
    arguments, the name and every other node are untouched. *)
Theorem C6_preprocess_keeps_configuration
    (m : Matcher) (w : World) (config : Config) (data : Output)
    (args : list Output) (name : string) (rt : list positive) (v : Output) :
  let rope_node := get_match_root m in
  validator_ok m = true →
  nodes w !! rope_node = Some (mkNode (OpRoPE config) (data :: args) name rt) →
  (get_pattern_value_map m !! "input_to_slice" = Some v
   ∧ in_size_t (validator m "slice_start") = true
   ∧ in_size_t (validator m "slice_stop") = true)
  ∨ (get_pattern_value_map m !! "input_to_slice" = None
     ∧ get_pattern_value_map m !! "input_to_trans" = Some v) →
  ∃ (w' : World) (config' : Config),
    RoPEFusionPreprocess_callback m w = Some (true, w')
    ∧ nodes w' = <[rope_node := mkNode (OpRoPE config') (v :: args) name rt]> (nodes w)
    ∧ rotary_ndims config' = rotary_ndims config
    ∧ head_cnt config' = head_cnt config
    ∧ head_size config' = head_size config
    ∧ is_interleaved config' = is_interleaved config
    ∧ is_chatglm config' = is_chatglm config
    ∧ is_qwen config' = is_qwen config
    ∧ gather_position_arg_id config' = gather_position_arg_id config
    ∧ output_trans0213 config' = output_trans0213 config
    ∧ support_2d_rope config' = support_2d_rope config
    ∧ use_rope_cache config' = use_rope_cache config
    ∧ input_trans0213 config' = true
    ∧ (is_Some (get_pattern_value_map m !! "input_to_slice") →
       slice_start config' = validator m "slice_start"
       ∧ slice_stop config' = validator m "slice_stop")
    ∧ (get_pattern_value_map m !! "input_to_slice" = None →
       slice_start config' = slice_start config
       ∧ slice_stop config' = slice_stop config).
Proof.
  intros rope_node Hok Hrope Hbranch. subst rope_node.
  unfold RoPEFusionPreprocess_callback. rewrite Hok. cbn [negb].
  rewrite (run_bind _ _ _ _ _ (run_as_RoPE w _ _ Hrope)). cbn [node_op].
  unfold preprocess_amend, count.
  destruct Hbranch as [(Hslice & Hstart & Hstop)|(Hnone & Htrans)].
  - rewrite Hslice, bool_decide_eq_true_2 by done.
    unfold double_to_size_t. rewrite Hstart, Hstop.
    rewrite bind_assoc. mstep. rewrite bind_assoc. mstep. rewrite bind_assoc.
    mstep. rewrite bind_assoc.
    rewrite (run_bind _ _ _ _ _ (run_set_argument_0 w _ _ _ _ _ Hrope eq_refl)).
    mstep. unfold set_config. mstep. do 2 mstep.
    cbn [nodes]. rewrite insert_insert_eq.
    eexists _, _. split; [reflexivity|]. split; [reflexivity|].
    cbn. repeat split; congruence.
  - rewrite Hnone, Htrans.
    rewrite bool_decide_eq_false_2 by (by intros [? ?]).
    rewrite bool_decide_eq_true_2 by done.
    rewrite bind_assoc. mstep. rewrite bind_assoc.
    rewrite (run_bind _ _ _ _ _ (run_set_argument_0 w _ _ _ _ _ Hrope eq_refl)).
    mstep. unfold set_config. mstep. do 2 mstep.
    cbn [nodes]. rewrite insert_insert_eq.
    eexists _, _. split; [reflexivity|]. split; [reflexivity|].
    cbn. repeat split; try done. all: by intros [? ?].
Qed.
End preprocess.


(* ===================================================================== *)
(** * [RoPEShareCosSin] *)
(* ===================================================================== *)

Section share.
Import Cxx IR Graph Graph.Notations Pattern RoPE Spec.

Lemma to_N_inj x y : Byte.to_N x = Byte.to_N y → x = y.
Proof.
  intros H. apply (inj Some). by rewrite <- (Byte.of_to_N x), H, Byte.of_to_N.
Qed.

Lemma memcmp_spec n : ∀ a b,
  length a = n → length b = n →
  ∃ r, memcmp a b n = Some r ∧ (r = 0 ↔ a = b).
Proof.
  induction n as [|n IH]; intros a b Ha Hb.
  - destruct a, b; try done. by exists 0.
  - destruct a as [|x a], b as [|y b]; try done. cbn [memcmp].
    destruct (Byte.to_N x <? Byte.to_N y)%N eqn:Hlt.
    { exists (-1). split; [done|]. split; [done|]. intros [= -> _].
      rewrite N.ltb_irrefl in Hlt. done. }
    destruct (Byte.to_N y <? Byte.to_N x)%N eqn:Hgt.
    { exists 1. split; [done|]. split; [done|]. intros [= -> _].
      rewrite N.ltb_irrefl in Hgt. done. }
    apply N.ltb_ge in Hlt, Hgt.
    assert (x = y) as -> by (apply to_N_inj; lia).
    destruct (IH a b) as (r & -> & Hr); [by injection Ha|by injection Hb|].
    exists r. split; [done|]. rewrite Hr. split; congruence.
Qed.

Lemma memcmp_same_buffers cur global :
  well_sized cur → well_sized global →
  get_element_type cur = get_element_type global →
  get_shape cur = get_shape global →
  ∃ r, memcmp (get_data_ptr cur) (get_data_ptr global) (get_byte_size global)
       = Some r
       ∧ (r = 0 ↔ get_data_ptr cur = get_data_ptr global).
Proof.
  intros Hc Hg Ht Hs. apply memcmp_spec; [|done].
  rewrite Hc. unfold get_byte_size. by rewrite Ht, Hs.
Qed.

Lemma run_share_collect m this v0 v1 s0 s1 :
  get_pattern_value_map m !! "inputs[0]" = Some v0 →
  get_pattern_value_map m !! "inputs[1]" = Some v1 →
  m_shared_inputs this = [s0; s1] →
  share_collect_inputs m (seq 0 (length (m_shared_inputs this))) this
  = Some (true, set_m_shared_inputs [Some (get_node v0); Some (get_node v1)] this).
Proof.
  intros H0 H1 Hs. rewrite Hs. cbn. rewrite H0. cbn. rewrite H1. cbn.
  by rewrite Hs.
Qed.

Lemma run_share_check m this v0 v1 s0 s1 :
  get_pattern_value_map m !! "inputs[0]" = Some v0 →
  get_pattern_value_map m !! "inputs[1]" = Some v1 →
  m_shared_inputs this = [s0; s1] →
  share_check_inputs m (seq 0 (length inputs)) this
  = Some (bool_decide (m_shared_inputs this
                       = [Some (get_node v0); Some (get_node v1)])).
Proof.
  intros H0 H1 Hs. rewrite Hs. cbn. rewrite H0. cbn. rewrite Hs. cbn.
  rewrite H1. cbn.
  repeat case_bool_decide; try done; simplify_eq; done.
Qed.

(** The callback once the first-seen constant [global] is known. *)
Lemma run_share m this w it cur_node cur v0 v1 s0 s1 ginv gnode global :
  validator_ok m = true →
  get_pattern_value_map m !! "const_inv_freq" = Some it →
  nodes w !! get_node it = Some cur_node →
  node_op cur_node = OpConstant cur →
  get_pattern_value_map m !! "inputs[0]" = Some v0 →
  get_pattern_value_map m !! "inputs[1]" = Some v1 →
  m_shared_inputs this = [s0; s1] →
  m_inv_freq this = Some ginv →
  nodes w !! ginv = Some gnode →
  node_op gnode = OpConstant global →
  well_sized cur → well_sized global →
  RoPEShareCosSin_callback m this w
  = if bool_decide (same_as_first_seen cur global v0 v1 this) then
      match branch_seed m this with
      | Some seed =>
          Some ((true, this),
                with_nodes (fmap (redirect_node (get_match_root m) seed)) w)
      | None => Some ((false, record_seed m this), w)
      end
    else Some ((false, this), w).
Proof.
  intros Hok Hit Hcur Hc H0 H1 Hs Hinv Hg Hgc Hwc Hwg.
  unfold RoPEShareCosSin_callback. rewrite Hok, Hit. cbn [negb].
  rewrite (run_bind _ _ _ _ _ (run_as_Constant w _ _ Hcur)), Hc.
  rewrite Hinv. cbn [ptr_to_bool negb].
  erewrite run_bind by reflexivity. cbn [negb].
  rewrite Hinv. erewrite run_bind by reflexivity.
  rewrite (run_bind _ _ _ _ _ (run_as_Constant w _ _ Hg)), Hgc.
  erewrite run_bind by reflexivity.
  unfold same_as_first_seen.
  case_bool_decide as Ht.
  { rewrite bool_decide_eq_false_2; [done|]. intros (? & _). done. }
  case_bool_decide as Hsh.
  { rewrite bool_decide_eq_false_2; [done|]. intros (_ & ? & _). done. }
  try apply dec_stable in Ht. try apply dec_stable in Hsh.
  destruct (memcmp_same_buffers cur global Hwc Hwg Ht Hsh) as (r & Hr & Hr0).
  rewrite (run_bind _ _ _ _ _ (run_lift w _ _ Hr)).
  destruct (r =? 0) eqn:Hz; cbn [negb].
  2:{ rewrite bool_decide_eq_false_2; [done|]. intros (_ & _ & Hd & _).
      apply Hr0 in Hd. apply Z.eqb_neq in Hz. done. }
  apply Z.eqb_eq in Hz. apply Hr0 in Hz.
  rewrite (run_bind _ _ _ _ _
             (run_lift w _ _ (run_share_check m this v0 v1 s0 s1 H0 H1 Hs))).
  case_bool_decide as Hin; cbn [negb].
  2:{ rewrite bool_decide_eq_false_2; [done|]. intros (_ & _ & _ & ?). done. }
  rewrite bool_decide_eq_true_2 by done.
  unfold branch_seed, record_seed.
  destruct (count m "sin_Sin"); cbn [andb negb].
  - destruct (m_shared_sin0 this) as [seed|]; cbn [ptr_to_bool negb]; [|done].
    by erewrite run_bind by reflexivity.
  - destruct (m_shared_cos0 this) as [seed|]; cbn [ptr_to_bool negb]; [|done].
    by erewrite run_bind by reflexivity.
Qed.
End share.


Section share_claim.
Import Cxx IR Graph Graph.Notations Pattern RoPE Spec.

(** The members after the very first match collected its constant and
    inputs. *)
Lemma run_share_first_step m this w it cur_node cur v0 v1 s0 s1 :
  validator_ok m = true →
  get_pattern_value_map m !! "const_inv_freq" = Some it →
  nodes w !! get_node it = Some cur_node →
  node_op cur_node = OpConstant cur →
  get_pattern_value_map m !! "inputs[0]" = Some v0 →
  get_pattern_value_map m !! "inputs[1]" = Some v1 →
  m_shared_inputs this = [s0; s1] →
  m_inv_freq this = None →
  RoPEShareCosSin_callback m this w
  = RoPEShareCosSin_callback m
      (set_m_inv_freq (Some (get_node it))
         (set_m_shared_inputs [Some (get_node v0); Some (get_node v1)] this)) w.
Proof.
  intros Hok Hit Hcur Hc H0 H1 Hs Hinv.
  unfold RoPEShareCosSin_callback. rewrite Hok, Hit. cbn [negb].
  rewrite !(run_bind _ _ _ _ _ (run_as_Constant w _ _ Hcur)), Hc.
  rewrite Hinv. cbn [ptr_to_bool negb m_inv_freq set_m_inv_freq].
  rewrite bind_assoc.
  rewrite (run_bind _ _ _ _ _
             (run_lift w _ _ (run_share_collect m this v0 v1 s0 s1 H0 H1 Hs))).
  cbn iota. by erewrite !run_bind by reflexivity.
Qed.

(** C5 (as amended).  Consider a match of the sharing pass whose
    inverse-frequency pattern is bound to the constant [cur] and whose
    two input patterns are bound to [v0], [v1].
    (1) Once a seed is recorded for the branch of the match (cosine or
    sine), the root of the match is replaced by that seed exactly when
    the constant has the element type, the shape and the bytes of the
    first-seen constant and the two inputs are the first-seen nodes;
    otherwise the callback returns [false] and changes nothing.
    (2) While no seed is recorded for the branch, the callback returns
    [false] and leaves the graph as it is.  The very first match of the
    pass records its constant, its inputs and its root.  A later first
    match of a branch records its root as the seed only when it agrees
    with what was seen first; when it does not, nothing is recorded. *)
Theorem C5_share_cos_sin
    (m : Matcher) (this : RoPEShareCosSin) (w : World) (it : Output)
    (cur_node : Node) (cur : Constant) (v0 v1 : Output) (s0 s1 : ptr positive) :
  let root := get_match_root m in
  validator_ok m = true →
  get_pattern_value_map m !! "const_inv_freq" = Some it →
  nodes w !! get_node it = Some cur_node →
  node_op cur_node = OpConstant cur →
  well_sized cur →
  get_pattern_value_map m !! "inputs[0]" = Some v0 →
  get_pattern_value_map m !! "inputs[1]" = Some v1 →
  m_shared_inputs this = [s0; s1] →
  (∀ ginv gnode global seed,
     m_inv_freq this = Some ginv →
     nodes w !! ginv = Some gnode →
     node_op gnode = OpConstant global →
     well_sized global →
     branch_seed m this = Some seed →
     (same_as_first_seen cur global v0 v1 this →
      RoPEShareCosSin_callback m this w
      = Some ((true, this), with_nodes (fmap (redirect_node root seed)) w))
     ∧ (¬ same_as_first_seen cur global v0 v1 this →
        RoPEShareCosSin_callback m this w = Some ((false, this), w)))
  ∧ (branch_seed m this = None →
     (m_inv_freq this = None →
      RoPEShareCosSin_callback m this w
      = Some ((false,
               record_seed m
                 (set_m_inv_freq (Some (get_node it))
                    (set_m_shared_inputs [Some (get_node v0); Some (get_node v1)]
                       this))),
              w))
     ∧ (∀ ginv gnode global,
          m_inv_freq this = Some ginv →
          nodes w !! ginv = Some gnode →
          node_op gnode = OpConstant global →
          well_sized global →
          (same_as_first_seen cur global v0 v1 this →
           RoPEShareCosSin_callback m this w
           = Some ((false, record_seed m this), w))
          ∧ (¬ same_as_first_seen cur global v0 v1 this →
             RoPEShareCosSin_callback m this w = Some ((false, this), w)))).
Proof.
  intros root Hok Hit Hcur Hc Hwc H0 H1 Hs. subst root. split.
  - intros ginv gnode global seed Hinv Hg Hgc Hwg Hseed.
    rewrite (run_share m this w it cur_node cur v0 v1 s0 s1 ginv gnode global)
      by done.
    rewrite Hseed. split; intros Hsame.
    + by rewrite bool_decide_eq_true_2.
    + by rewrite bool_decide_eq_false_2.
  - intros Hseed. split.
    + intros Hinv.
      rewrite (run_share_first_step m this w it cur_node cur v0 v1 s0 s1) by done.
      rewrite (run_share m _ w it cur_node cur v0 v1
                 (Some (get_node v0)) (Some (get_node v1))
                 (get_node it) cur_node cur) by done.
      rewrite bool_decide_eq_true_2 by done.
      unfold branch_seed in *. by destruct (count m "sin_Sin"); cbn; rewrite Hseed.
    + intros ginv gnode global Hinv Hg Hgc Hwg.
      rewrite (run_share m this w it cur_node cur v0 v1 s0 s1 ginv gnode global)
        by done.
      rewrite Hseed. split; intros Hsame.
      * by rewrite bool_decide_eq_true_2.
      * by rewrite bool_decide_eq_false_2.
Qed.

(** C5 as stated fails in its last sentence: the checks against the
    first-seen constant and inputs come before the seed is recorded, so
    the first match of a branch does not record its root when its
    constant differs from the first-seen one. *)
Lemma C5_counterexample :
  ¬ (∀ (m : Matcher) (this : RoPEShareCosSin) (w : World) (it : Output)
       (cur_node : Node) (cur : Constant) (v0 v1 : Output) (s0 s1 : ptr positive),
       validator_ok m = true →
       get_pattern_value_map m !! "const_inv_freq" = Some it →
       nodes w !! get_node it = Some cur_node →
       node_op cur_node = OpConstant cur →
       well_sized cur →
       get_pattern_value_map m !! "inputs[0]" = Some v0 →
       get_pattern_value_map m !! "inputs[1]" = Some v1 →
       m_shared_inputs this = [s0; s1] →
       (* no seed yet: the first match of its branch *)
       branch_seed m this = None →
       ∃ this',
         RoPEShareCosSin_callback m this w = Some ((false, this'), w)
         ∧ branch_seed m this' = Some (get_match_root m)).
Proof.
  intros H.
  destruct (H Examples.share_sin_match_1 Examples.share_seeded
              Examples.share_sin_world (Examples.out 12)
              (Examples.constant Examples.other_inv_freq "inv_freq.1")
              Examples.other_inv_freq (Examples.out 1) (Examples.out 2)
              (Some 1%positive) (Some 2%positive))
    as (this' & Hrun & Hseed); [reflexivity..|].
  assert (RoPEShareCosSin_callback Examples.share_sin_match_1 Examples.share_seeded
            Examples.share_sin_world
          = Some ((false, Examples.share_seeded), Examples.share_sin_world)) as Hrun'
    by (vm_compute; reflexivity).
  rewrite Hrun' in Hrun. injection Hrun as <-.
  vm_compute in Hseed. discriminate Hseed.
Qed.
End share_claim.


Section witnesses.
Import Cxx IR Graph Graph.Notations Pattern RoPE Spec Examples.

Lemma C2_gptneox_operand_order_witness :
  (∃ (w1 : World) (rope : Node) (config : Config),
     RoPEFusionGPTNEOX_callback gptneox_match gptneox_world = Some (true, w1)
     ∧ RoPEFusionGPTNEOX_callback (swap_first_multiply gptneox_match)
         (swap_operands 10 gptneox_world)
       = Some (true, swap_operands 10 w1)
     ∧ node_op rope = OpRoPE config
     ∧ rotary_ndims config = 128
     ∧ input_values rope = [out 1; out 2; out 3]
     ∧ stands_for gptneox_world w1 12 14 rope
     ∧ stands_for (swap_operands 10 gptneox_world) (swap_operands 10 w1) 12 14 rope)
  ∧ RoPEFusionGPTNEOX_callback not_rope_match not_rope_world
    = Some (false, not_rope_world).
Proof.
  destruct (C2_gptneox_operand_order gptneox_match gptneox_world
              (out 1) (out 2) (out 1) (out 3) (out 10)
              (mkNode (OpOther "Multiply") [out 1; out 2] "mul_cos" []) 64)
    as [Hfuse _];
    [reflexivity..| repeat constructor; by eexists | reflexivity | reflexivity
     | by eexists | repeat constructor; by vm_compute | reflexivity |].
  destruct (C2_gptneox_operand_order not_rope_match not_rope_world
              (out 2) (out 3) (out 1) (out 3) (out 10)
              (mkNode (OpOther "Multiply") [out 2; out 3] "mul_cos" []) 64)
    as [_ Hreject];
    [reflexivity..| repeat constructor; by eexists | reflexivity | reflexivity
     | by eexists | repeat constructor; by vm_compute | reflexivity |].
  split.
  - destruct (Hfuse (or_introl eq_refl) eq_refl)
      as (w1 & rope & config & v_cos & Hrun & Hswap & Hcos & Hop & Hnd & Hin
          & Hst & Hst' & _).
    exists w1, rope, config.
    split; [exact Hrun|]. split; [exact Hswap|]. split; [exact Hop|].
    split; [exact Hnd|]. split; [|by split].
    destruct Hcos as [[_ ->]|[Hb _]]; [exact Hin|discriminate Hb].
  - apply Hreject; discriminate.
Defined.

Lemma C4_symbol_relation_violated_no_fusion_witness :
  RoPEFusionGPTJ_callback gptj_odd_match (gptj_world [0; 2; 1; 3])
  = Some (false, gptj_world [0; 2; 1; 3])
  ∧ RoPEFusionQwen_callback 0 qwen_odd_match flux_world = Some (false, flux_world).
Proof.
  split.
  - apply (proj1 (C4_symbol_relation_violated_no_fusion
                    gptj_odd_match qwen_odd_match 0 (gptj_world [0; 2; 1; 3])
                    64 31 32 128 64 4000));
      [reflexivity | reflexivity | reflexivity | discriminate].
  - apply (proj2 (C4_symbol_relation_violated_no_fusion
                    gptj_odd_match qwen_odd_match 0 flux_world
                    64 31 32 128 64 4000));
      [reflexivity | reflexivity | reflexivity | reflexivity | reflexivity |].
    right. split; [reflexivity | discriminate].
Defined.

Lemma C5_share_cos_sin_witness :
  RoPEShareCosSin_callback share_match_1 share_seeded (share_world inv_freq)
  = Some ((true, share_seeded),
          with_nodes (fmap (redirect_node 19 11)) (share_world inv_freq))
  ∧ RoPEShareCosSin_callback share_match_1 share_seeded (share_world other_inv_freq)
    = Some ((false, share_seeded), share_world other_inv_freq)
  ∧ RoPEShareCosSin_callback share_match_0 RoPEShareCosSin_new (share_world inv_freq)
    = Some ((false, share_seeded), share_world inv_freq).
Proof.
  split; [|split].
  - destruct (C5_share_cos_sin share_match_1 share_seeded (share_world inv_freq)
                (out 12) (constant inv_freq "inv_freq.1") inv_freq (out 1) (out 2)
                (Some 1%positive) (Some 2%positive))
      as [Hseeded _]; [reflexivity..|].
    destruct (Hseeded 3%positive (constant inv_freq "inv_freq.0") inv_freq
                11%positive) as [Hsame _]; [reflexivity..|].
    apply Hsame. repeat split; reflexivity.
  - destruct (C5_share_cos_sin share_match_1 share_seeded
                (share_world other_inv_freq)
                (out 12) (constant other_inv_freq "inv_freq.1") other_inv_freq
                (out 1) (out 2) (Some 1%positive) (Some 2%positive))
      as [Hseeded _]; [reflexivity..|].
    destruct (Hseeded 3%positive (constant inv_freq "inv_freq.0") inv_freq
                11%positive) as [_ Hother]; [reflexivity..|].
    apply Hother. intros (_ & _ & Hdata & _). discriminate Hdata.
  - destruct (C5_share_cos_sin share_match_0 RoPEShareCosSin_new
                (share_world inv_freq)
                (out 3) (constant inv_freq "inv_freq.0") inv_freq (out 1) (out 2)
                nullptr nullptr)
      as [_ Hfirst]; [reflexivity..|].
    destruct (Hfirst eq_refl) as [Hvery_first _].
    exact (Hvery_first eq_refl).
Defined.

Lemma C6_preprocess_keeps_configuration_witness :
  ∃ (w' : World) (config' : Config),
    RoPEFusionPreprocess_callback preprocess_match preprocess_world = Some (true, w')
    ∧ nodes w' !! 7%positive
      = Some (mkNode (OpRoPE config') [out 1; out 5; out 6] "rope" [])
    ∧ rotary_ndims config' = 64
    ∧ input_trans0213 config' = true
    ∧ slice_start config' = 0
    ∧ slice_stop config' = 128.
Proof.
  destruct (C6_preprocess_keeps_configuration preprocess_match preprocess_world
              neox_config (out 4) [out 5; out 6] "rope" [] (out 1))
    as (w' & config' & Hrun & Hnodes & Hndims & _ & _ & _ & _ & _ & _ & _ & _ & _
        & Htrans & Hslice & _);
    [reflexivity | reflexivity | left; repeat split; reflexivity |].
  exists w', config'. split; [exact Hrun|]. split.
  { rewrite Hnodes. apply lookup_insert_eq. }
  split; [exact Hndims|]. split; [exact Htrans|].
  apply Hslice. by eexists.
Defined.

Lemma C7_gptj_output_transpose_witness :
  (∃ (w' : World) (rope : Node) (config : Config),
     RoPEFusionGPTJ_callback gptj_match (gptj_world [0; 2; 1; 3]) = Some (true, w')
     ∧ node_op rope = OpRoPE config
     ∧ output_trans0213 config = true
     ∧ stands_for (gptj_world [0; 2; 1; 3]) w' 21 23 rope)
  ∧ (∃ (w' : World) (rope : Node) (config : Config),
       RoPEFusionGPTJ_callback gptj_match (gptj_world [0; 1; 2; 3]) = Some (true, w')
       ∧ node_op rope = OpRoPE config
       ∧ output_trans0213 config = false
       ∧ stands_for (gptj_world [0; 1; 2; 3]) w' 19 23 rope).
Proof.
  split.
  - destruct (C7_gptj_output_transpose gptj_match (gptj_world [0; 2; 1; 3])
                64 32 (out 1) (out 2) (out 17)) as [Habsorb _];
      [reflexivity..| repeat constructor; by eexists | by eexists | by eexists
       | repeat constructor; by vm_compute | reflexivity |].
    destruct (Habsorb 21%positive)
      as (w' & rope & config & Hrun & Hop & _ & Hout & _ & _ & Hst).
    + exists 0%nat. reflexivity.
    + eexists _, (out 20), _, _. repeat split; reflexivity.
    + repeat constructor; by vm_compute.
    + by exists w', rope, config.
  - destruct (C7_gptj_output_transpose gptj_match (gptj_world [0; 1; 2; 3])
                64 32 (out 1) (out 2) (out 17)) as [_ Hkeep];
      [reflexivity..| repeat constructor; by eexists | by eexists | by eexists
       | repeat constructor; by vm_compute | reflexivity |].
    destruct Hkeep as (w' & rope & config & Hrun & Hop & _ & Hout & _ & _ & Hst).
    + intros (t & [port Hsole] & (tn & axes & an & c & Ht & _ & Hax & Han & Hc & Hperm)).
      vm_compute in Hsole. injection Hsole as <- _.
      vm_compute in Ht. injection Ht as <-.
      vm_compute in Hax. injection Hax as <-.
      vm_compute in Han. injection Han as <-.
      injection Hc as <-. vm_compute in Hperm. discriminate Hperm.
    + apply (bool_decide_unpack _). by vm_compute.
    + by exists w', rope, config.
Defined.

Lemma C9_chatglm_reshape_triple_witness :
  chatglm_triple (-1) 32 1 32
  ∧ RoPEFusionChatGLM_callback 0 false (chatglm_match 2 32 1) chatglm_world
    = Some (false, chatglm_world).
Proof.
  split.
  - assert (∃ w', RoPEFusionChatGLM_callback 0 false (chatglm_match (-1) 32 1)
                    chatglm_world = Some (true, w')) as [w' Hrun]
      by (eexists; vm_compute; reflexivity).
    exact (proj1 (C9_chatglm_reshape_triple 0 false (chatglm_match (-1) 32 1)
                    chatglm_world) true w' Hrun (or_introl eq_refl)).
  - apply (proj2 (C9_chatglm_reshape_triple 0 false (chatglm_match 2 32 1)
                    chatglm_world)); [reflexivity..|].
    intros [(HA & _)|[(HA & _)|(HA & _)]]; discriminate HA.
Defined.
End witnesses.


(* ===================================================================== *)
(** * [type.hpp]: further properties *)
(* ===================================================================== *)

Section type_hpp_more.
Import Cxx Type_hpp.

Lemma is_type_total T v : is_Some (is_type T v).
Proof. destruct v; by eexists. Qed.

(** X1.  [is_type_any_of<Types...>(v)] always has a result, and it is
    [true] exactly when [is_type<T>(v)] is [true] for one of the listed
    types; in particular it is [false] for a null [v] and for an empty
    list of types. *)
Theorem X1_is_type_any_of_exists (Ts : list CxxClass) (v : ptr Object) :
  ∃ b : bool,
    is_type_any_of Ts v = Some b
    ∧ (b = true ↔ ∃ T, T ∈ Ts ∧ is_type T v = Some true).
Proof.
  induction Ts as [|T Ts (b & IH & Hb)]; cbn.
  - exists false. split; [done|]. split; [done|].
    intros (T & HT & _). by apply elem_of_nil in HT.
  - destruct (is_type_total T v) as [b0 H0]. rewrite H0. cbn.
    destruct b0.
    + exists true. split; [done|]. split; [|done].
      intros _. exists T. split; [left|done].
    + exists b. split; [done|]. rewrite Hb. split.
      * intros (T' & HT' & H'). exists T'. split; [by right|done].
      * intros (T' & HT' & H'). apply elem_of_cons in HT' as [->|HT'].
        -- congruence.
        -- by exists T'.
Qed.

(** X2.  Whatever the dynamic cast of the language answers,
    [as_type_ptr<T>(v)] always has a result, which is the empty pointer
    or [v] itself; converting the result once more gives it back; and
    [as_type<T>] on raw pointers answers the same. *)
Theorem X2_as_type_ptr_same_or_null
    (dynamic_cast_converts : CxxClass → Object → bool)
    (T : CxxClass) (v : ptr Object) :
  ∃ r : ptr Object,
    as_type_ptr dynamic_cast_converts T v = Some r
    ∧ (r = nullptr ∨ r = v)
    ∧ as_type_ptr dynamic_cast_converts T r = Some r
    ∧ as_type dynamic_cast_converts T v = Some r.
Proof.
  unfold as_type_ptr, as_type, AsTypePtr_call, dynamic_pointer_cast.
  destruct (use_ov_dynamic_cast T) eqn:Hdyn.
  - destruct v as [o|]; cbn.
    + destruct (is_castable _ _) eqn:Hc; cbn.
      * exists (Some o). cbn. rewrite Hc. cbn. by repeat split; [right|..].
      * exists nullptr. by repeat split; [left|..].
    + exists nullptr. by repeat split; [left|..].
  - destruct v as [o|]; cbn.
    + destruct (dynamic_cast_converts T o) eqn:Hb.
      * exists (Some o). cbn. rewrite Hb. by repeat split; [right|..].
      * exists nullptr. by repeat split; [left|..].
    + exists nullptr. by repeat split; [left|..].
Qed.
End type_hpp_more.


(* ===================================================================== *)
(** * [const_idx_predicate] *)
(* ===================================================================== *)

Section const_idx.
Import Cxx IR Graph Graph.Notations Pattern RoPE Passes Props.

Lemma in_int32_spec v : in_int32 v = true ↔ - 2 ^ 31 <= v < 2 ^ 31.
Proof. unfold in_int32. rewrite andb_true_iff, Z.leb_le, Z.ltb_lt. done. Qed.

(** The pairs [v, v, v+1, v+1, ...] pass the loop started with [v]. *)
Lemma const_idx_loop_pairs (k : nat) (v : Z) (tail : list Z) :
  0 <= v → v + Z.of_nat k < 2 ^ 31 →
  const_idx_loop ((i ← seqZ v (Z.of_nat k); [i; i]) ++ tail) v
  = const_idx_loop tail (v + Z.of_nat k).
Proof.
  revert v. induction k as [|k IH]; intros v Hv Hk.
  - cbn. by rewrite Z.add_0_r.
  - rewrite seqZ_cons by lia. cbn [mbind list_bind app].
    cbn [const_idx_loop]. rewrite Z.eqb_refl. cbn [negb].
    assert (in_int32 (v + 1) = true) as -> by (apply in_int32_spec; lia).
    replace (Z.pred (Z.of_nat (S k))) with (Z.of_nat k) by lia.
    change (Z.succ v) with (v + 1) in *.
    replace (Z.succ v) with (v + 1) by lia.
    rewrite IH by lia. f_equal. lia.
Qed.

(** What the loop accepts is made of such pairs. *)
Lemma const_idx_loop_true (vec : list Z) (v : Z) :
  0 <= v < 2 ^ 31 →
  const_idx_loop vec v = Some true →
  ∃ k : nat, vec = (i ← seqZ v (Z.of_nat k); [i; i]) ∧ v + Z.of_nat k < 2 ^ 31.
Proof.
  remember (length vec) as n eqn:Hn. revert vec v Hn.
  induction n as [n IH] using lt_wf_ind. intros vec v Hn Hv H.
  destruct vec as [|a [|b rest]]; cbn in H.
  - exists 0%nat. split; [done|lia].
  - by destruct (a =? v).
  - destruct (a =? v) eqn:Ha; [|done]. destruct (b =? v) eqn:Hb; [|done].
    cbn in H. destruct (in_int32 (v + 1)) eqn:Hin; [|done].
    apply Z.eqb_eq in Ha as ->. apply Z.eqb_eq in Hb as ->.
    apply in_int32_spec in Hin.
    destruct (IH (length rest) ltac:(cbn in Hn; lia) rest (v + 1) eq_refl
                 ltac:(lia) H) as (k & -> & Hk).
    exists (S k). split; [|lia].
    rewrite (seqZ_cons v) by lia. cbn [mbind list_bind app].
    replace (Z.pred (Z.of_nat (S k))) with (Z.of_nat k) by lia.
    by replace (Z.succ v) with (v + 1) by lia.
Qed.

Lemma repeat_interleave_indices_length k :
  length (repeat_interleave_indices k) = (2 * k)%nat.
Proof.
  unfold repeat_interleave_indices. generalize 0.
  induction k as [|k IH]; intros v; [done|].
  rewrite seqZ_cons by lia. cbn [mbind list_bind app length].
  replace (Z.pred (Z.of_nat (S k))) with (Z.of_nat k) by lia.
  rewrite IH. lia.
Qed.

(** X3.  Whatever [Constant::get_vector<int32_t>] returns,
    [const_idx_predicate] never changes the graph; it answers [false]
    for a value whose node is not a constant; and it accepts exactly the
    constants whose vector is [0, 0, 1, 1, ..., k-1, k-1] for a [k]
    below [2^31]. *)
Theorem X3_const_idx_predicate_accepts
    (get_vector_int32_t : Constant → option (list Z)) (out : Output) (w : World) :
  (∀ r w', const_idx_predicate get_vector_int32_t out w = Some (r, w') → w' = w)
  ∧ (∀ x, nodes w !! get_node out = Some x →
          (∀ c, node_op x ≠ OpConstant c) →
          const_idx_predicate get_vector_int32_t out w = Some (false, w))
  ∧ (const_idx_predicate get_vector_int32_t out w = Some (true, w)
     ↔ ∃ (x : Node) (c : Constant) (k : nat),
         nodes w !! get_node out = Some x
         ∧ node_op x = OpConstant c
         ∧ get_vector_int32_t c = Some (repeat_interleave_indices k)
         ∧ Z.of_nat k < 2 ^ 31).
Proof.
  unfold const_idx_predicate, as_Constant, find_node, bind, lift, ret.
  split; [|split; [|split]].
  - intros r w'.
    destruct (nodes w !! get_node out) as [x|]; [|done].
    destruct (node_op x) as [c| | | | |]; try by intros [= _ <-].
    destruct (get_vector_int32_t c) as [vec|]; [|done].
    destruct (const_idx_loop vec 0); [|done]. by intros [= _ <-].
  - intros x -> Hop. destruct (node_op x) as [c| | | | |]; try done.
    by destruct (Hop c).
  - destruct (nodes w !! get_node out) as [x|] eqn:Hx; [|done].
    destruct (node_op x) as [c| | | | |] eqn:Hop; try done.
    destruct (get_vector_int32_t c) as [vec|] eqn:Hvec; [|done].
    destruct (const_idx_loop vec 0) as [b|] eqn:Hloop; [|done].
    intros [= ->].
    apply const_idx_loop_true in Hloop as (k & -> & Hk); [|lia].
    by exists x, c, k.
  - intros (x & c & k & -> & -> & -> & Hk).
    pose proof (const_idx_loop_pairs k 0 [] ltac:(lia) ltac:(lia)) as H.
    rewrite app_nil_r in H. unfold repeat_interleave_indices. by rewrite H.
Qed.

(** X4.  A vector of odd length is never accepted, and when all its
    complete pairs are the expected ones, say
    [0, 0, ..., k-1, k-1, k], the loop reads [vec[i + 1]] one element
    past the end of the vector. *)
Theorem X4_const_idx_loop_odd_length (vec : list Z) (k : nat) :
  Nat.Odd (length vec) → Z.of_nat k < 2 ^ 31 →
  const_idx_loop vec 0 ≠ Some true
  ∧ const_idx_loop (repeat_interleave_indices k ++ [Z.of_nat k]) 0 = None.
Proof.
  intros Hodd Hk. split.
  - intros H. apply const_idx_loop_true in H as (k' & -> & _); [|lia].
    pose proof (repeat_interleave_indices_length k') as Hlen.
    unfold repeat_interleave_indices in Hlen. rewrite Hlen in Hodd.
    destruct Hodd as [j Hj]. lia.
  - unfold repeat_interleave_indices.
    rewrite const_idx_loop_pairs by lia. cbn.
    by rewrite Z.eqb_refl.
Qed.

Lemma X4_const_idx_loop_odd_length_witness :
  const_idx_loop [0; 0; 1] 0 ≠ Some true
  ∧ const_idx_loop [0; 0; 1] 0 = None.
Proof.
  apply (X4_const_idx_loop_odd_length [0; 0; 1] 1).
  - exists 1%nat. reflexivity.
  - reflexivity.
Defined.
End const_idx.


(* ===================================================================== *)
(** * Reading a run backwards *)
(* ===================================================================== *)

Section inversion.
Import Cxx IR Graph Graph.Notations Pattern RoPE Passes.

Lemma bind_inv {A B} (c : M A) (k : A → M B) w r :
  bind c k w = Some r → ∃ a w1, c w = Some (a, w1) ∧ k a w1 = Some r.
Proof. unfold bind. destruct (c w) as [[a w1]|]; [|done]. by exists a, w1. Qed.

Lemma ret_inv {A} (a b : A) w w1 : ret a w = Some (b, w1) → a = b ∧ w = w1.
Proof. by intros [= -> ->]. Qed.

Lemma lift_inv {A} (o : option A) a w w1 :
  lift o w = Some (a, w1) → o = Some a ∧ w = w1.
Proof. unfold lift. destruct o; [|done]. by intros [= -> ->]. Qed.

Lemma gets_inv {A} (f : World → A) a w w1 :
  gets f w = Some (a, w1) → f w = a ∧ w = w1.
Proof. by intros [= -> ->]. Qed.

Lemma find_node_inv n x w w1 :
  find_node n w = Some (x, w1) → nodes w !! n = Some x ∧ w = w1.
Proof. unfold find_node. destruct (nodes w !! n); [|done]. by intros [= -> ->]. Qed.

Lemma at_inv m p v w w1 :
  at_ m p w = Some (v, w1) → get_pattern_value_map m !! p = Some v ∧ w = w1.
Proof. apply lift_inv. Qed.

Lemma node_at_inv m p n w w1 :
  node_at m p w = Some (n, w1) →
  (∃ v, get_pattern_value_map m !! p = Some v ∧ get_node v = n) ∧ w = w1.
Proof.
  unfold node_at. intros (v & w2 & [Hv <-]%at_inv & [<- <-]%ret_inv)%bind_inv.
  split; [|done]. by exists v.
Qed.

Lemma friendly_name_of_inv n s w w1 :
  friendly_name_of n w = Some (s, w1) →
  (∃ x, nodes w !! n = Some x ∧ get_friendly_name x = s) ∧ w = w1.
Proof.
  unfold friendly_name_of.
  intros (x & w2 & [Hx <-]%find_node_inv & [<- <-]%ret_inv)%bind_inv.
  split; [|done]. by exists x.
Qed.

Lemma is_op_inv k n b w w1 :
  is_op k n w = Some (b, w1) →
  (∃ x, nodes w !! n = Some x ∧ bool_decide (node_op x = k) = b) ∧ w = w1.
Proof.
  unfold is_op.
  intros (x & w2 & [Hx <-]%find_node_inv & [<- <-]%ret_inv)%bind_inv.
  split; [|done]. by exists x.
Qed.

Lemma as_Constant_inv n r w w1 :
  as_Constant n w = Some (r, w1) →
  (∃ x, nodes w !! n = Some x
        ∧ match node_op x with OpConstant c => Some c | _ => None end = r)
  ∧ w = w1.
Proof.
  unfold as_Constant.
  intros (x & w2 & [Hx <-]%find_node_inv & [<- <-]%ret_inv)%bind_inv.
  split; [|done]. by exists x.
Qed.

Lemma as_RoPE_inv n r w w1 :
  as_RoPE n w = Some (r, w1) →
  (∃ x, nodes w !! n = Some x
        ∧ match node_op x with OpRoPE c => Some c | _ => None end = r)
  ∧ w = w1.
Proof.
  unfold as_RoPE.
  intros (x & w2 & [Hx <-]%find_node_inv & [<- <-]%ret_inv)%bind_inv.
  split; [|done]. by exists x.
Qed.

Lemma get_config_inv n c w w1 :
  get_config n w = Some (c, w1) →
  (∃ x, nodes w !! n = Some x ∧ node_op x = OpRoPE c) ∧ w = w1.
Proof.
  unfold get_config.
  intros (r & w2 & [(x & Hx & Hr) <-]%as_RoPE_inv & [-> <-]%lift_inv)%bind_inv.
  split; [|done]. exists x. split; [done|].
  by destruct (node_op x); simplify_eq.
Qed.

Lemma input_value_inv n i o w w1 :
  input_value n i w = Some (o, w1) →
  (∃ x, nodes w !! n = Some x ∧ input_values x !! i = Some o) ∧ w = w1.
Proof.
  unfold input_value.
  intros (x & w2 & [Hx <-]%find_node_inv & [Ho <-]%lift_inv)%bind_inv.
  split; [|done]. by exists x.
Qed.

Lemma get_input_node_shared_ptr_inv n i k w w1 :
  get_input_node_shared_ptr n i w = Some (k, w1) →
  (∃ x o, nodes w !! n = Some x ∧ input_values x !! i = Some o ∧ get_node o = k)
  ∧ w = w1.
Proof.
  unfold get_input_node_shared_ptr.
  intros (o & w2 & [(x & Hx & Ho) <-]%input_value_inv & [<- <-]%ret_inv)%bind_inv.
  split; [|done]. by exists x, o.
Qed.

Lemma get_input_size_inv n k w w1 :
  get_input_size n w = Some (k, w1) →
  (∃ x, nodes w !! n = Some x ∧ length (input_values x) = k) ∧ w = w1.
Proof.
  unfold get_input_size.
  intros (x & w2 & [Hx <-]%find_node_inv & [<- <-]%ret_inv)%bind_inv.
  split; [|done]. by exists x.
Qed.

Lemma get_target_inputs_inv o l w w1 :
  get_target_inputs o w = Some (l, w1) → target_inputs (nodes w) o = l ∧ w = w1.
Proof. unfold get_target_inputs, gets. by intros [= <- <-]. Qed.

Lemma validate_and_infer_types_inv n u w w1 :
  validate_and_infer_types n w = Some (u, w1) → w = w1.
Proof. by intros [_ ?]%ret_inv. Qed.

(** The steps that change the state. *)
Lemma update_node_inv n f u w w1 :
  update_node n f w = Some (u, w1) →
  ∃ x, nodes w !! n = Some x
       ∧ w1 = mkWorld (<[n := f x]> (nodes w)) (next_node w) (new_nodes w).
Proof.
  unfold update_node.
  intros (x & w2 & [Hx <-]%find_node_inv & H)%bind_inv.
  exists x. split; [done|]. by injection H as _ <-.
Qed.

Lemma set_argument_inv n position v u w w1 :
  set_argument n position v w = Some (u, w1) →
  ∃ x l, nodes w !! n = Some x
         ∧ w1 = mkWorld (<[n := with_input_values l x]> (nodes w))
                        (next_node w) (new_nodes w)
         ∧ ((position < length (input_values x))%nat
              ∧ l = <[position := v]> (input_values x)
            ∨ position = length (input_values x)
              ∧ l = (input_values x ++ [v])%list).
Proof.
  unfold set_argument.
  intros (x & w2 & [Hx <-]%find_node_inv & H)%bind_inv. cbn beta zeta in H.
  destruct (position <? length (input_values x))%nat eqn:Hlt.
  - apply update_node_inv in H as (x' & Hx' & ->). simplify_eq.
    eexists _, _. split; [done|]. split; [done|]. left.
    by apply Nat.ltb_lt in Hlt.
  - destruct (position =? length (input_values x))%nat eqn:Heq; [|done].
    apply update_node_inv in H as (x' & Hx' & ->). simplify_eq.
    eexists _, _. split; [done|]. split; [done|]. right.
    by apply Nat.eqb_eq in Heq.
Qed.
End inversion.


(** Take a run [H : c w = Some (a, w')] apart, action by action.  The
    reads give what they read and leave the state; a step that writes is
    kept as a hypothesis about the states before and after it. *)
Ltac minv H :=
  lazymatch type of H with
  | Graph.bind _ _ _ = Some _ =>
      let a := fresh "a" in
      let w1 := fresh "w" in
      let E := fresh "E" in
      apply bind_inv in H as (a & w1 & E & H); cbn beta zeta in H;
      minv E; minv H
  | Graph.ret _ _ = Some _ =>
      apply ret_inv in H; destruct H; simplify_eq
  | Graph.lift _ _ = Some _ =>
      apply lift_inv in H as [H <-]
  | Pattern.at_ _ _ _ = Some _ =>
      apply at_inv in H as [H <-]
  | Pattern.node_at _ _ _ = Some _ =>
      apply node_at_inv in H as [(? & H & <-) <-]
  | Graph.find_node _ _ = Some _ =>
      apply find_node_inv in H as [H <-]
  | Graph.friendly_name_of _ _ = Some _ =>
      apply friendly_name_of_inv in H as [(? & H & <-) <-]
  | Graph.is_op _ _ _ = Some _ =>
      apply is_op_inv in H as [(? & H & <-) <-]
  | Graph.as_Constant _ _ = Some _ =>
      apply as_Constant_inv in H as [(? & H & <-) <-]
  | Graph.as_RoPE _ _ = Some _ =>
      apply as_RoPE_inv in H as [(? & H & <-) <-]
  | Passes.get_config _ _ = Some _ =>
      let Hop := fresh "Hop" in
      apply get_config_inv in H as [(? & H & Hop) <-]
  | Graph.input_value _ _ _ = Some _ =>
      let Hin := fresh "Hin" in
      apply input_value_inv in H as [(? & H & Hin) <-]
  | Graph.get_input_node_shared_ptr _ _ _ = Some _ =>
      let Hin := fresh "Hin" in
      apply get_input_node_shared_ptr_inv in H as [(? & ? & H & Hin & <-) <-]
  | Graph.get_input_size _ _ = Some _ =>
      apply get_input_size_inv in H as [(? & H & <-) <-]
  | Graph.get_target_inputs _ _ = Some _ =>
      apply get_target_inputs_inv in H as [H <-]
  | Graph.validate_and_infer_types _ _ = Some _ =>
      apply validate_and_infer_types_inv in H as <-
  | RoPE.gptneox_find_cos _ _ = Some _ =>
      unfold RoPE.gptneox_find_cos in H; minv H
  | RoPE.gptj_fuse_output_transpose _ _ _ _ = Some _ =>
      unfold RoPE.gptj_fuse_output_transpose in H; minv H
  | RoPE.preprocess_amend _ _ _ _ = Some _ =>
      unfold RoPE.preprocess_amend in H; minv H
  | Passes.cos_sin_attach_positions _ _ _ _ _ = Some _ =>
      unfold Passes.cos_sin_attach_positions in H; minv H
  | (match ?o with _ => _ end) _ = Some _ =>
      destruct o eqn:?; minv H
  | _ => idtac
  end.

Section atomic.
Import Cxx IR Graph Graph.Notations Pattern RoPE Passes Props.

(** X6.  A callback that returns [false] has not touched the graph:
    every [return false] of the ten callbacks comes before the first
    write.  (The members of [RoPEShareCosSin] may have changed.) *)
Theorem X6_callback_false_leaves_graph
    (p : MatcherPass) (m : Matcher) (this this' : RoPEShareCosSin) (w w' : World) :
  callback p m this w = Some ((false, this'), w') → w' = w.
Proof.
  intros H. destruct p; cbn [callback] in H.
  - unfold RoPEFusionFlux_callback in H. minv H; done.
  - unfold RoPEFusionGPTNEOX_callback in H. minv H; done.
  - unfold RoPEFusionGPTJ_callback in H. minv H; done.
  - unfold RoPEFusionCosSinPreprocess_callback in H. minv H; done.
  - unfold RoPEFusionIOSlicing_callback in H. minv H; done.
  - unfold RoPEFusionPreprocess_callback in H. minv H; done.
  - unfold RoPEFusionChatGLM_callback in H. minv H; done.
  - unfold RoPEFusionChatGLMHF_callback in H. minv H; done.
  - unfold RoPEFusionQwen_callback in H. minv H; done.
  - unfold RoPEShareCosSin_callback in H. minv H; done.
Qed.

Lemma X6_callback_false_leaves_graph_witness :
  ∃ w',
    callback GPTJ Examples.gptj_odd_match RoPEShareCosSin_new
      (Examples.gptj_world [0; 2; 1; 3])
    = Some ((false, RoPEShareCosSin_new), w')
    ∧ w' = Examples.gptj_world [0; 2; 1; 3].
Proof.
  eexists. split; [vm_compute; reflexivity|].
  apply (X6_callback_false_leaves_graph GPTJ Examples.gptj_odd_match
           RoPEShareCosSin_new RoPEShareCosSin_new).
  vm_compute. reflexivity.
Defined.
End atomic.


(* ===================================================================== *)
(** * What the writes of a callback keep *)
(* ===================================================================== *)

Section evolves.
Import Cxx IR Graph Graph.Notations Pattern RoPE Passes Props.

Lemma op_kept_same x x' : node_op x' = node_op x → op_kept x x'.
Proof.
  intros H. unfold op_kept. rewrite H. destruct (node_op x); try done.
  by eexists.
Qed.

Lemma op_kept_trans x x' x'' : op_kept x x' → op_kept x' x'' → op_kept x x''.
Proof.
  unfold op_kept. destruct (node_op x).
  all: try (intros ->; done).
  intros (c' & -> & Hd) (c'' & -> & Hd'). exists c''. split; [done|congruence].
Qed.

Lemma evolves_refl a w : evolves a w w.
Proof.
  intros Hw. split; [done|]. split; [lia|]. split.
  - intros k x Hx. exists x. split; [done|]. by apply op_kept_same.
  - intros k x Hx Hnone. congruence.
Qed.

Lemma evolves_trans a w1 w2 w3 : evolves a w1 w2 → evolves a w2 w3 → evolves a w1 w3.
Proof.
  intros H1 H2 Hw. destruct (H1 Hw) as (Hw2 & Hn1 & Hk1 & Hnew1).
  destruct (H2 Hw2) as (Hw3 & Hn2 & Hk2 & Hnew2).
  split; [done|]. split; [lia|]. split.
  - intros k x Hx. destruct (Hk1 k x Hx) as (x2 & Hx2 & Hop).
    destruct (Hk2 k x2 Hx2) as (x3 & Hx3 & Hop').
    exists x3. split; [done|]. by eapply op_kept_trans.
  - intros k x3 Hx3 Hnone. destruct (nodes w2 !! k) as [x2|] eqn:Hx2.
    + destruct (Hnew1 k x2 Hx2 Hnone) as (Hle & c & Hc & H2d).
      split; [done|]. destruct (Hk2 k x2 Hx2) as (x3' & Hx3' & Hop).
      simplify_eq. unfold op_kept in Hop. rewrite Hc in Hop.
      destruct Hop as (c' & Hc' & Hd). exists c'. split; [done|].
      intros Ha. specialize (H2d Ha). unfold dialect in Hd. congruence.
    + destruct (Hnew2 k x3 Hx3 Hx2) as (Hle & c & Hc & H2d).
      split; [lia|]. by exists c.
Qed.

(** A write to an existing node that keeps its operation. *)
Lemma evolves_insert a w n x x' :
  nodes w !! n = Some x → op_kept x x' →
  evolves a w (mkWorld (<[n := x']> (nodes w)) (next_node w) (new_nodes w)).
Proof.
  intros Hx Hop Hw. split; [|split; [cbn; lia|split]]; cbn.
  - intros k [y Hy]. cbn in Hy. apply Hw.
    destruct (decide (k = n)) as [->|Hne]; [by eexists|].
    rewrite lookup_insert_ne in Hy by done. by eexists.
  - intros k y Hy. destruct (decide (k = n)) as [->|Hne].
    + rewrite lookup_insert_eq. simplify_eq. by eexists.
    + rewrite lookup_insert_ne by done. exists y. split; [done|].
      by apply op_kept_same.
  - intros k y Hy Hnone. destruct (decide (k = n)) as [->|Hne]; [congruence|].
    rewrite lookup_insert_ne in Hy by done. congruence.
Qed.

Lemma evolves_update_node a n f u w w1 :
  (∀ x, node_op (f x) = node_op x) →
  update_node n f w = Some (u, w1) → evolves a w w1.
Proof.
  intros Hf (x & Hx & ->)%update_node_inv.
  apply (evolves_insert a w n x); [done|]. by apply op_kept_same.
Qed.

Lemma evolves_set_friendly_name a n s u w w1 :
  set_friendly_name n s w = Some (u, w1) → evolves a w w1.
Proof. intros H. by eapply evolves_update_node; [|exact H]. Qed.

Lemma evolves_copy_runtime_info a from to u w w1 :
  copy_runtime_info from to w = Some (u, w1) → evolves a w w1.
Proof. intros H. by eapply evolves_update_node; [|exact H]. Qed.

Lemma evolves_set_argument a n position v u w w1 :
  set_argument n position v w = Some (u, w1) → evolves a w w1.
Proof.
  intros (x & l & Hx & -> & _)%set_argument_inv.
  apply (evolves_insert a w n x); [done|]. by apply op_kept_same.
Qed.

Lemma evolves_replace_source_output a i o u w w1 :
  replace_source_output i o w = Some (u, w1) → evolves a w w1.
Proof.
  unfold replace_source_output.
  intros (x & w2 & [Hx <-]%find_node_inv & H)%bind_inv.
  by eapply evolves_update_node; [|exact H].
Qed.

Lemma evolves_set_config a n cfg u w w1 :
  (∀ x, nodes w !! n = Some x →
        ∃ c, node_op x = OpRoPE c ∧ dialect cfg = dialect c) →
  set_config n cfg w = Some (u, w1) → evolves a w w1.
Proof.
  unfold set_config. intros Hc (x & Hx & ->)%update_node_inv.
  apply (evolves_insert a w n x); [done|].
  destruct (Hc x Hx) as (c & Hop & Hd). unfold op_kept. rewrite Hop.
  by exists cfg.
Qed.

Lemma evolves_make_shared_RoPE a args cfg n w w1 :
  (a = false → support_2d_rope cfg = false) →
  make_shared_RoPE args cfg w = Some (n, w1) → evolves a w w1.
Proof.
  intros H2d [= <- <-] Hw. split; [|split; [cbn; lia|split]]; cbn.
  - intros k [y Hy]. cbn in Hy |- *.
    destruct (decide (k = next_node w)) as [->|Hne]; [lia|].
    rewrite lookup_insert_ne in Hy by done.
    specialize (Hw k ltac:(by eexists)). lia.
  - intros k y Hy.
    assert (k ≠ next_node w)
      by (specialize (Hw k ltac:(by eexists)); lia).
    rewrite lookup_insert_ne by done. exists y. split; [done|].
    by apply op_kept_same.
  - intros k y Hy Hnone.
    destruct (decide (k = next_node w)) as [->|Hne].
    + rewrite lookup_insert_eq in Hy. simplify_eq. split; [lia|].
      by exists cfg.
    + rewrite lookup_insert_ne in Hy by done. congruence.
Qed.

Lemma evolves_replace_node a target replacement u w w1 :
  replace_node target replacement w = Some (u, w1) → evolves a w w1.
Proof.
  intros [= <- <-] Hw. unfold with_nodes. split; [|split; [cbn; lia|split]]; cbn.
  - intros k [y Hy]. cbn in Hy. rewrite lookup_fmap in Hy.
    apply Hw. destruct (nodes w !! k); [by eexists|done].
  - intros k y Hy. rewrite lookup_fmap, Hy. cbn. eexists. split; [done|].
    by apply op_kept_same.
  - intros k y Hy Hnone. rewrite lookup_fmap, Hnone in Hy. done.
Qed.

Lemma evolves_register_new_node a n u w w1 :
  register_new_node n w = Some (u, w1) → evolves a w w1.
Proof.
  intros [= <- <-] Hw. split; [|split; [cbn; lia|split]]; cbn.
  - intros k Hk. by apply Hw.
  - intros k y Hy. exists y. split; [done|]. by apply op_kept_same.
  - intros k y Hy Hnone. congruence.
Qed.

Lemma evolves_for_each {A} a (l : list A) (body : A → M unit) u w w1 :
  (∀ x u' w2 w3, body x w2 = Some (u', w3) → evolves a w2 w3) →
  for_each l body w = Some (u, w1) → evolves a w w1.
Proof.
  intros Hbody. revert w. induction l as [|x l IH]; intros w H; cbn in H.
  - apply ret_inv in H as [_ <-]. apply evolves_refl.
  - apply bind_inv in H as (u' & w2 & E & H).
    eapply evolves_trans; [by eapply Hbody|by apply IH].
Qed.

Lemma evolves_gptj_move_shapeof a m u w w1 :
  gptj_move_shapeof m w = Some (u, w1) → evolves a w w1.
Proof.
  unfold gptj_move_shapeof. intros H. minv H; [|apply evolves_refl].
  eapply evolves_for_each; [|done].
  intros i u' w2 w3 Hb. cbn beta in Hb. minv Hb; [|apply evolves_refl].
  by eapply evolves_replace_source_output.
Qed.
End evolves.

(** Follow the writes of a run, from the last one back to the start. *)
Ltac evolve :=
  repeat first
    [ apply evolves_refl
    | eapply evolves_trans;
      [| first
           [ eapply evolves_register_new_node; eassumption
           | eapply evolves_replace_node; eassumption
           | eapply evolves_copy_runtime_info; eassumption
           | eapply evolves_set_friendly_name; eassumption
           | eapply evolves_set_argument; eassumption
           | eapply evolves_gptj_move_shapeof; eassumption
           | eapply evolves_make_shared_RoPE;
             [| eassumption];
             first [ intros _; reflexivity
                   | intros _; repeat case_match; reflexivity
                   | intros ->; reflexivity
                   | intros ?; discriminate ] ] ] ].


Section set_argument_op.
Import Cxx IR Graph Graph.Notations Pattern RoPE Passes Props.

Lemma set_argument_op n position v u w w1 k x :
  set_argument n position v w = Some (u, w1) → nodes w !! k = Some x →
  ∃ x1, nodes w1 !! k = Some x1 ∧ node_op x1 = node_op x.
Proof.
  intros (y & l & Hy & -> & _)%set_argument_inv Hx. cbn.
  destruct (decide (k = n)) as [->|Hne].
  - rewrite lookup_insert_eq. simplify_eq. by eexists.
  - rewrite lookup_insert_ne by done. by eexists.
Qed.

End set_argument_op.

(** The node a configuration is written to is a fused node, and the
    configuration written differs from its own outside [dialect] only. *)
Ltac amended_config :=
  intros ? ?;
  repeat match goal with
  | H : match IR.node_op ?x with _ => _ end = Some _ |- _ =>
      destruct (IR.node_op x) eqn:?; simplify_eq
  end;
  repeat match goal with
  | Ha : Graph.set_argument _ _ _ ?w = Some (_, ?w0), Hx : IR.nodes ?w !! _ = Some _ |- _ =>
      let x1 := fresh "x" in
      let H1 := fresh "H" in
      let H2 := fresh "H" in
      destruct (set_argument_op _ _ _ _ _ _ _ _ Ha Hx) as (x1 & H1 & H2);
      clear Hx
  end;
  simplify_eq;
  match goal with
  | Hop : IR.node_op _ = IR.OpRoPE ?c |- _ =>
      exists c; split; [congruence | reflexivity]
  end.

Ltac evolve_set_config :=
  match goal with
  | Hc : Graph.set_config _ _ ?wc = Some (_, ?w1) |- Props.evolves _ _ ?w1 =>
      eapply evolves_trans; [| eapply evolves_set_config; [| exact Hc] ]
  end.

Section callbacks_evolve.
Import Cxx IR Graph Graph.Notations Pattern RoPE Passes Props.

Lemma Flux_evolves m b w w' :
  RoPEFusionFlux_callback m w = Some (b, w') → evolves false w w'.
Proof. intros H. unfold RoPEFusionFlux_callback in H. minv H; evolve. Qed.

Lemma GPTNEOX_evolves m b w w' :
  RoPEFusionGPTNEOX_callback m w = Some (b, w') → evolves false w w'.
Proof. intros H. unfold RoPEFusionGPTNEOX_callback in H. minv H; evolve. Qed.

Lemma GPTJ_evolves m b w w' :
  RoPEFusionGPTJ_callback m w = Some (b, w') → evolves false w w'.
Proof. intros H. unfold RoPEFusionGPTJ_callback in H. minv H; evolve. Qed.

Lemma ChatGLM_evolves split_output_id support_2d m b w w' :
  RoPEFusionChatGLM_callback split_output_id support_2d m w = Some (b, w') →
  evolves support_2d w w'.
Proof. intros H. unfold RoPEFusionChatGLM_callback in H. minv H; evolve. Qed.

Lemma ChatGLMHF_evolves m b w w' :
  RoPEFusionChatGLMHF_callback m w = Some (b, w') → evolves true w w'.
Proof. intros H. unfold RoPEFusionChatGLMHF_callback in H. minv H; evolve. Qed.

Lemma Qwen_evolves split_output_id m b w w' :
  RoPEFusionQwen_callback split_output_id m w = Some (b, w') → evolves false w w'.
Proof. intros H. unfold RoPEFusionQwen_callback in H. minv H; evolve. Qed.

Lemma IOSlicing_evolves m b w w' :
  RoPEFusionIOSlicing_callback m w = Some (b, w') → evolves false w w'.
Proof. intros H. unfold RoPEFusionIOSlicing_callback in H. minv H; evolve. Qed.

Lemma ShareCosSin_evolves m this r w w' :
  RoPEShareCosSin_callback m this w = Some (r, w') → evolves false w w'.
Proof. intros H. unfold RoPEShareCosSin_callback in H. minv H; evolve. Qed.

Lemma Preprocess_evolves m b w w' :
  RoPEFusionPreprocess_callback m w = Some (b, w') → evolves false w w'.
Proof.
  intros H. unfold RoPEFusionPreprocess_callback in H. minv H; evolve.
  all: evolve_set_config; [evolve | amended_config].
Qed.

Lemma CosSinPreprocess_evolves m b w w' :
  RoPEFusionCosSinPreprocess_callback m w = Some (b, w') → evolves false w w'.
Proof.
  intros H. unfold RoPEFusionCosSinPreprocess_callback in H. minv H; evolve.
  all: evolve_set_config; [evolve | amended_config].
Qed.

Lemma callback_evolves p m this r w w' :
  callback p m this w = Some (r, w') → evolves (sets_support_2d_rope p) w w'.
Proof.
  intros H. destruct p; cbn [callback] in H;
    try (apply bind_inv in H as (b & w1 & H & [_ <-]%ret_inv)).
  - by eapply Flux_evolves.
  - by eapply GPTNEOX_evolves.
  - by eapply GPTJ_evolves.
  - by eapply CosSinPreprocess_evolves.
  - by eapply IOSlicing_evolves.
  - by eapply Preprocess_evolves.
  - by eapply ChatGLM_evolves.
  - by eapply ChatGLMHF_evolves.
  - by eapply Qwen_evolves.
  - by eapply ShareCosSin_evolves.
Qed.
End callbacks_evolve.


(* ===================================================================== *)
(** * Every registered callback: what it keeps *)
(* ===================================================================== *)

Section every_callback.
Import Cxx IR Graph Graph.Notations Pattern RoPE Passes Props.

Lemma well_numbered_checked w :
  map_Forall (λ k _, (k < next_node w)%positive) (nodes w) → well_numbered w.
Proof. intros H k [x Hx]. by apply (H k x). Qed.

Lemma no_2d_rope_checked w :
  map_Forall (λ _ x, match node_op x with
                     | OpRoPE c => negb (support_2d_rope c)
                     | _ => true
                     end = true) (nodes w) →
  no_2d_rope w.
Proof.
  intros H k x c Hx Hop. specialize (H k x Hx). cbn in H. rewrite Hop in H.
  by apply negb_true_iff.
Qed.

(** X7.  Started in a well-numbered state, a callback ends in a
    well-numbered state, and every node it adds is a fused node (with an
    identity that was not in use): the callbacks construct no operation
    other than [op::internal::RoPE]. *)
Theorem X7_callback_adds_only_fused_nodes
    (p : MatcherPass) (m : Matcher) (this : RoPEShareCosSin)
    (r : bool * RoPEShareCosSin) (w w' : World) :
  well_numbered w →
  callback p m this w = Some (r, w') →
  well_numbered w'
  ∧ ∀ k x', nodes w' !! k = Some x' → nodes w !! k = None →
      (next_node w ≤ k < next_node w')%positive
      ∧ ∃ c, node_op x' = OpRoPE c.
Proof.
  intros Hw Hrun.
  destruct (callback_evolves _ _ _ _ _ _ Hrun Hw) as (Hw' & _ & _ & Hnew).
  split; [done|]. intros k x' Hx' Hnone.
  destruct (Hnew k x' Hx' Hnone) as (Hle & c & Hc & _).
  split; [|by exists c].
  split; [done|]. apply Hw'. by eexists.
Qed.

Lemma X7_callback_adds_only_fused_nodes_witness :
  ∃ w',
    well_numbered Examples.flux_world
    ∧ callback Flux Examples.flux_match RoPEShareCosSin_new Examples.flux_world
      = Some ((true, RoPEShareCosSin_new), w')
    ∧ well_numbered w'
    ∧ ∀ k x', nodes w' !! k = Some x' → nodes Examples.flux_world !! k = None →
        (17 ≤ k < next_node w')%positive ∧ ∃ c, node_op x' = OpRoPE c.
Proof.
  assert (well_numbered Examples.flux_world) as Hw.
  { apply well_numbered_checked, (bool_decide_unpack _). by vm_compute. }
  eexists. split; [exact Hw|]. split; [vm_compute; reflexivity|].
  apply (X7_callback_adds_only_fused_nodes Flux Examples.flux_match
           RoPEShareCosSin_new (true, RoPEShareCosSin_new) Examples.flux_world);
    [exact Hw|].
  vm_compute. reflexivity.
Defined.

(** X8.  Started in a well-numbered state, a callback removes no node
    and changes the operation of no node; of a fused node that exists
    it may change the slice window, the input transpose flag and the
    position argument, and no other field of the configuration. *)
Theorem X8_callback_keeps_operations
    (p : MatcherPass) (m : Matcher) (this : RoPEShareCosSin)
    (r : bool * RoPEShareCosSin) (w w' : World) (k : positive) (x : Node) :
  well_numbered w →
  callback p m this w = Some (r, w') →
  nodes w !! k = Some x →
  ∃ x', nodes w' !! k = Some x'
        ∧ match node_op x with
          | OpRoPE c =>
              ∃ c', node_op x' = OpRoPE c'
                    ∧ rotary_ndims c' = rotary_ndims c
                    ∧ head_cnt c' = head_cnt c
                    ∧ head_size c' = head_size c
                    ∧ is_interleaved c' = is_interleaved c
                    ∧ is_chatglm c' = is_chatglm c
                    ∧ support_2d_rope c' = support_2d_rope c
                    ∧ is_qwen c' = is_qwen c
                    ∧ use_rope_cache c' = use_rope_cache c
                    ∧ output_trans0213 c' = output_trans0213 c
          | o => node_op x' = o
          end.
Proof.
  intros Hw Hrun Hx.
  destruct (callback_evolves _ _ _ _ _ _ Hrun Hw) as (_ & _ & Hkeep & _).
  destruct (Hkeep k x Hx) as (x' & Hx' & Hop). exists x'. split; [done|].
  unfold op_kept in Hop. destruct (node_op x); try done.
  destruct Hop as (c' & Hc' & Hd). exists c'. split; [done|].
  unfold dialect in Hd. injection Hd as -> -> -> -> -> -> -> -> ->. done.
Qed.

Lemma X8_callback_keeps_operations_witness :
  ∃ w' x',
    well_numbered Examples.preprocess_world
    ∧ callback Preprocess Examples.preprocess_match RoPEShareCosSin_new
        Examples.preprocess_world
      = Some ((true, RoPEShareCosSin_new), w')
    ∧ nodes w' !! 7%positive = Some x'
    ∧ ∃ c', node_op x' = OpRoPE c' ∧ rotary_ndims c' = 64.
Proof.
  assert (well_numbered Examples.preprocess_world) as Hw.
  { apply well_numbered_checked, (bool_decide_unpack _). by vm_compute. }
  pose (w' := default Examples.preprocess_world
                (snd <$> callback Preprocess Examples.preprocess_match
                           RoPEShareCosSin_new Examples.preprocess_world)).
  assert (callback Preprocess Examples.preprocess_match RoPEShareCosSin_new
            Examples.preprocess_world
          = Some ((true, RoPEShareCosSin_new), w')) as Hrun
    by (vm_compute; reflexivity).
  destruct (X8_callback_keeps_operations Preprocess Examples.preprocess_match
              RoPEShareCosSin_new _ Examples.preprocess_world w' 7%positive
              (mkNode (OpRoPE Examples.neox_config)
                 [Examples.out 4; Examples.out 5; Examples.out 6] "rope" [])
              Hw Hrun eq_refl)
    as (x' & Hx' & c' & Hc' & Hndims & _).
  exists w', x'. split; [exact Hw|]. split; [exact Hrun|]. split; [exact Hx'|].
  exists c'. split; [exact Hc'|]. exact Hndims.
Defined.

Lemma run_on_model_no_2d p :
  p ∈ run_on_model false → sets_support_2d_rope p = false.
Proof.
  cbn. rewrite !elem_of_cons, elem_of_nil.
  intros H; repeat (destruct H as [->|H]; [reflexivity|]); done.
Qed.

(** X9.  Without the flag [m_support_2d_rope], no pass that
    [run_on_model] registers brings [support_2d_rope] into the graph: if
    no fused node has it before a callback, none has it after. *)
Theorem X9_no_2d_rope_without_flag
    (p : MatcherPass) (m : Matcher) (this : RoPEShareCosSin)
    (r : bool * RoPEShareCosSin) (w w' : World) :
  p ∈ run_on_model false →
  well_numbered w → no_2d_rope w →
  callback p m this w = Some (r, w') →
  no_2d_rope w'.
Proof.
  intros Hp Hw Hno Hrun k x' c' Hx' Hc'.
  pose proof (callback_evolves _ _ _ _ _ _ Hrun Hw) as (_ & _ & Hkeep & Hnew).
  rewrite (run_on_model_no_2d p Hp) in Hnew.
  destruct (nodes w !! k) as [x|] eqn:Hx.
  - destruct (Hkeep k x Hx) as (y & Hy & Hop). simplify_eq.
    unfold op_kept in Hop. destruct (node_op x) eqn:Hopx; try congruence.
    destruct Hop as (c'' & Hc'' & Hd).
    rewrite Hc' in Hc''. injection Hc'' as <-.
    unfold dialect in Hd. injection Hd as _ _ _ _ -> _ _ _ _.
    by eapply Hno.
  - destruct (Hnew k x' Hx' Hx) as (_ & c & Hc & H2d).
    rewrite Hc' in Hc. injection Hc as <-. by apply H2d.
Qed.

Lemma X9_no_2d_rope_without_flag_witness :
  ∃ w',
    ChatGLM 1 false ∈ run_on_model false
    ∧ well_numbered Examples.chatglm_world
    ∧ no_2d_rope Examples.chatglm_world
    ∧ callback (ChatGLM 1 false) (Examples.chatglm_match (-1) 32 1)
        RoPEShareCosSin_new Examples.chatglm_world
      = Some ((true, RoPEShareCosSin_new), w')
    ∧ no_2d_rope w'.
Proof.
  assert (ChatGLM 1 false ∈ run_on_model false) as Hp.
  { apply (bool_decide_unpack _). by vm_compute. }
  assert (well_numbered Examples.chatglm_world) as Hw.
  { apply well_numbered_checked, (bool_decide_unpack _). by vm_compute. }
  assert (no_2d_rope Examples.chatglm_world) as Hno.
  { apply no_2d_rope_checked, (bool_decide_unpack _). by vm_compute. }
  eexists. split; [exact Hp|]. split; [exact Hw|]. split; [exact Hno|].
  split; [vm_compute; reflexivity|].
  apply (X9_no_2d_rope_without_flag (ChatGLM 1 false)
           (Examples.chatglm_match (-1) 32 1) RoPEShareCosSin_new
           (true, RoPEShareCosSin_new) Examples.chatglm_world);
    [exact Hp | exact Hw | exact Hno |].
  vm_compute. reflexivity.
Defined.
End every_callback.


(* ===================================================================== *)
(** * [RoPEFusionCosSinPreprocess] *)
(* ===================================================================== *)

Section cos_sin_preprocess.
Import Cxx IR Graph Graph.Notations Pattern RoPE Passes Props.

Lemma run_set_argument_replace w n x position v :
  nodes w !! n = Some x → (position < length (input_values x))%nat →
  set_argument n position v w
  = Some (tt, mkWorld (<[n := with_input_values (<[position := v]> (input_values x)) x]>
                         (nodes w))
                      (next_node w) (new_nodes w)).
Proof.
  intros Hx Hlt. unfold set_argument.
  rewrite (run_bind _ _ _ _ _ (run_find_node w _ _ Hx)). cbn zeta.
  apply Nat.ltb_lt in Hlt as ->.
  unfold update_node. by rewrite (run_bind _ _ _ _ _ (run_find_node w _ _ Hx)).
Qed.

Lemma run_set_argument_append w n x v :
  nodes w !! n = Some x →
  set_argument n (length (input_values x)) v w
  = Some (tt, mkWorld (<[n := with_input_values (input_values x ++ [v]) x]> (nodes w))
                      (next_node w) (new_nodes w)).
Proof.
  intros Hx. unfold set_argument.
  rewrite (run_bind _ _ _ _ _ (run_find_node w _ _ Hx)). cbn zeta.
  rewrite Nat.ltb_irrefl, Nat.eqb_refl.
  unfold update_node. by rewrite (run_bind _ _ _ _ _ (run_find_node w _ _ Hx)).
Qed.

Lemma run_get_input_size w n x :
  nodes w !! n = Some x → get_input_size n w = Some (length (input_values x), w).
Proof.
  intros H. unfold get_input_size. by rewrite (run_bind _ _ _ _ _ (run_find_node w _ _ H)).
Qed.

Lemma run_get_config w n x c :
  nodes w !! n = Some x → node_op x = OpRoPE c → get_config n w = Some (c, w).
Proof.
  intros H Hop. unfold get_config.
  rewrite (run_bind _ _ _ _ _ (run_as_RoPE w _ _ H)), Hop. done.
Qed.

Lemma count_Some m p v : get_pattern_value_map m !! p = Some v → count m p = true.
Proof. intros H. unfold count. rewrite H. by apply bool_decide_eq_true_2. Qed.

Lemma count_None m p : get_pattern_value_map m !! p = None → count m p = false.
Proof.
  intros H. unfold count. rewrite H. apply bool_decide_eq_false_2. by intros [? ?].
Qed.

Lemma run_cos_sin_attach_positions w m n p x c v :
  nodes w !! n = Some x → get_pattern_value_map m !! p = Some v →
  cos_sin_attach_positions m n p c w
  = Some (set_gather_position_arg_id
            (size_t_to_int (Z.of_nat (length (input_values x)))) c,
          mkWorld (<[n := with_input_values (input_values x ++ [v]) x]> (nodes w))
                  (next_node w) (new_nodes w)).
Proof.
  intros Hx Hp. unfold cos_sin_attach_positions.
  rewrite (run_bind _ _ _ _ _ (run_get_input_size w _ _ Hx)).
  rewrite (run_bind _ _ _ _ _ (run_at w _ _ _ Hp)).
  by rewrite (run_bind _ _ _ _ _ (run_set_argument_append w _ _ _ Hx)).
Qed.

(** X10.  On a fused node with inputs [x, cos_tab, sin_tab, ...] the
    CosSinPreprocess callback puts the two constant tables in place of
    inputs 1 and 2.  When a position input was matched ([gather_positions]
    first, else [gather_positions_2d]) it is added as a further input
    and [gather_position_arg_id] becomes the index of that input, the
    number of inputs the node had; no other field of the configuration,
    no other input, and no other node changes.  The node is registered
    for further matching and no node is created. *)
Theorem X10_cos_sin_preprocess_attaches_positions
    (m : Matcher) (w : World) (config : Config)
    (v_rope a0 a1 a2 v_cos v_sin : Output) (rest : list Output)
    (name : string) (rt : list positive) :
  let pm := get_pattern_value_map m in
  let rope_node := get_node v_rope in
  let positions :=
    match pm !! "gather_positions" with
    | Some v => Some v
    | None => pm !! "gather_positions_2d"
    end in
  let arg_id := Z.of_nat (length (a0 :: a1 :: a2 :: rest)) in
  pm !! "rope" = Some v_rope →
  nodes w !! rope_node
  = Some (mkNode (OpRoPE config) (a0 :: a1 :: a2 :: rest) name rt) →
  pm !! "cos_const" = Some v_cos →
  pm !! "sin_const" = Some v_sin →
  arg_id < 2 ^ 31 →
  RoPEFusionCosSinPreprocess_callback m w
  = Some (true,
          mkWorld
            (<[rope_node :=
                 mkNode
                   (OpRoPE (match positions with
                            | Some _ => set_gather_position_arg_id arg_id config
                            | None => config
                            end))
                   (a0 :: v_cos :: v_sin :: rest ++ option_list positions)
                   name rt]> (nodes w))
            (next_node w) (new_nodes w ++ [rope_node])).
Proof.
  intros pm rope_node positions arg_id Hrope Hnode Hcos Hsin Hid.
  subst pm rope_node positions arg_id.
  assert (size_t_to_int (Z.of_nat (length (a0 :: a1 :: a2 :: rest)))
          = Z.of_nat (length (a0 :: a1 :: a2 :: rest))) as Hint.
  { unfold size_t_to_int. rewrite Z.mod_small by lia.
    by apply Z.ltb_lt in Hid as ->. }
  change (length (a0 :: a1 :: a2 :: rest)) with (S (S (S (length rest)))) in Hint.
  unfold RoPEFusionCosSinPreprocess_callback.
  mstep. mstep. cbn [node_op].
  rewrite (count_Some _ _ _ Hcos), (count_Some _ _ _ Hsin).
  rewrite bind_assoc. mstep.
  erewrite run_bind
    by (eapply run_set_argument_replace; [eassumption|cbn; lia]).
  rewrite bind_assoc. mstep.
  erewrite run_bind
    by (eapply run_set_argument_replace; [solve_lookup|cbn; lia]).
  erewrite run_bind by (eapply run_get_config; [solve_lookup|reflexivity]).
  cbn [nodes input_values with_input_values node_op get_friendly_name rt_info].
  rewrite insert_insert_eq.
  destruct (get_pattern_value_map m !! "gather_positions") as [v|] eqn:Hp.
  - rewrite (count_Some _ _ _ Hp).
    erewrite run_bind
      by (eapply run_cos_sin_attach_positions; [solve_lookup|eassumption]).
    unfold set_config. mstep. do 2 mstep.
    cbn [nodes input_values with_input_values node_op get_friendly_name rt_info].
    rewrite !insert_insert_eq. cbn. unfold with_op. cbn.
    rewrite Hint. reflexivity.
  - rewrite (count_None _ _ Hp).
    destruct (get_pattern_value_map m !! "gather_positions_2d") as [v|] eqn:Hp2.
    + rewrite (count_Some _ _ _ Hp2).
      erewrite run_bind
        by (eapply run_cos_sin_attach_positions; [solve_lookup|eassumption]).
      unfold set_config. mstep. do 2 mstep.
      cbn [nodes input_values with_input_values node_op get_friendly_name rt_info].
      rewrite !insert_insert_eq. cbn. unfold with_op. cbn.
      rewrite Hint. reflexivity.
    + rewrite (count_None _ _ Hp2).
      mstep. unfold set_config. mstep. do 2 mstep.
      cbn [nodes input_values with_input_values node_op get_friendly_name rt_info].
      rewrite !insert_insert_eq. cbn. rewrite app_nil_r. reflexivity.
Qed.

Lemma X10_cos_sin_preprocess_attaches_positions_witness :
  RoPEFusionCosSinPreprocess_callback MoreExamples.cos_sin_match
    MoreExamples.cos_sin_world
  = Some (true,
          mkWorld
            (<[10%positive :=
                 mkNode (OpRoPE (set_gather_position_arg_id 3 Examples.neox_config))
                   [Examples.out 1; Examples.out 2; Examples.out 3; Examples.out 4]
                   "rope" []]> MoreExamples.cos_sin_nodes)
            12 [10%positive]).
Proof.
  exact (X10_cos_sin_preprocess_attaches_positions MoreExamples.cos_sin_match
           MoreExamples.cos_sin_world Examples.neox_config (Examples.out 10)
           (Examples.out 1) (Examples.out 7) (Examples.out 9) (Examples.out 2)
           (Examples.out 3) [] "rope" [] eq_refl eq_refl eq_refl eq_refl eq_refl).
Defined.
End cos_sin_preprocess.


(* ===================================================================== *)
(** * Doubles with integral values *)
(* ===================================================================== *)

Section doubles.
Import Cxx.

(** The integers below [2^53] are doubles. *)
Lemma round_to_double_small v : v < 2 ^ 53 → round_to_double v = v.
Proof.
  intros Hv. unfold round_to_double.
  assert (Z.log2 v - 52 <= 0) as He.
  { destruct (Z.le_gt_cases v 0) as [Hle|Hgt].
    - rewrite Z.log2_nonpos by done. lia.
    - assert (Z.log2 v < 53) by (apply Z.log2_lt_pow2; lia). lia. }
  apply Z.leb_le in He. by rewrite He.
Qed.

(** From [2^53] on, the result has a significand of 53 bits and is a
    nearest such number: it is within half a unit in the last place. *)
Lemma round_to_double_nearest v :
  2 ^ 53 <= v →
  let e := Z.log2 v - 52 in
  ∃ q, round_to_double v = q * 2 ^ e
       ∧ 2 ^ 52 <= q <= 2 ^ 53
       ∧ 2 * Z.abs (round_to_double v - v) <= 2 ^ e.
Proof.
  intros Hv e. unfold round_to_double. fold e.
  assert (53 <= Z.log2 v) as Hlog by (apply Z.log2_le_pow2; lia).
  assert (0 < e) as He by (subst e; lia).
  assert ((e <=? 0) = false) as -> by (apply Z.leb_gt; lia).
  cbv zeta.
  destruct (Z.log2_spec v ltac:(lia)) as [Hlo Hhi].
  assert (Z.log2 v = 52 + e) as Hle by (subst e; lia).
  rewrite Hle in Hlo. replace (Z.succ (Z.log2 v)) with (53 + e) in Hhi by lia.
  rewrite Z.pow_add_r in Hlo, Hhi by lia.
  assert (0 < 2 ^ e) as Hpos by (apply Z.pow_pos_nonneg; lia).
  assert (2 ^ e = 2 * 2 ^ (e - 1)) as Hhalf.
  { replace e with (1 + (e - 1)) at 1 by lia. rewrite Z.pow_add_r by lia. lia. }
  pose proof (Z.div_mod v (2 ^ e) ltac:(lia)) as Hdm.
  pose proof (Z.mod_pos_bound v (2 ^ e) Hpos) as Hr.
  set (q := v / 2 ^ e) in *. set (r := v mod 2 ^ e) in *.
  set (half := 2 ^ (e - 1)) in *. set (p := 2 ^ e) in *.
  assert (2 ^ 52 <= q < 2 ^ 53) as Hq by nia.
  destruct (r <? half) eqn:H1; [apply Z.ltb_lt in H1|apply Z.ltb_ge in H1].
  { exists q. split; [done|]. split; [lia|]. nia. }
  destruct (half <? r) eqn:H2; [apply Z.ltb_lt in H2|apply Z.ltb_ge in H2].
  { exists (q + 1). split; [done|]. split; [lia|]. nia. }
  destruct (Z.even q).
  { exists q. split; [done|]. split; [lia|]. nia. }
  { exists (q + 1). split; [done|]. split; [lia|]. nia. }
Qed.

Lemma size_t_to_double_small v : v < 2 ^ 53 → size_t_to_double v = v.
Proof. apply round_to_double_small. Qed.

(** A sum of magnitude below [2^53] is exact. *)
Lemma double_add_small a b :
  - 2 ^ 53 < a + b < 2 ^ 53 → double_add a b = a + b.
Proof.
  intros H. unfold double_add. cbv zeta.
  destruct (a + b <? 0); rewrite round_to_double_small by lia; lia.
Qed.
End doubles.


(* ===================================================================== *)
(** * [RoPEFusionIOSlicing] *)
(* ===================================================================== *)

Section io_slicing.
Import Cxx IR Graph Graph.Notations Pattern RoPE Passes Props Spec.

(** X11.  When the first input of the matched [Concat] is a fused node
    whose [rotary_ndims] is the matched [ndims], the IOSlicing callback
    lets that node read the unsliced [data] and take the place and the
    name of the [Concat]: afterwards nothing reads the [Concat], every
    port that read it reads the fused node, the configuration is as it
    was, and no node was created. *)
Theorem X11_io_slicing_removes_slice_and_concat
    (m : Matcher) (w : World) (config : Config) (root_node : Node)
    (rope_out v_data v_result x : Output) (args : list Output)
    (rope_name : string) (rt : list positive) :
  let root := get_match_root m in
  let rope_node := get_node rope_out in
  nodes w !! root = Some root_node →
  input_values root_node !! 0%nat = Some rope_out →
  nodes w !! rope_node = Some (mkNode (OpRoPE config) (x :: args) rope_name rt) →
  validator_ok m = true →
  rotary_ndims config = validator m "ndims" →
  rotary_ndims config < 2 ^ 53 →
  get_pattern_value_map m !! "data" = Some v_data →
  get_pattern_value_map m !! "result" = Some v_result →
  Forall (λ o, get_node o ≠ root) (v_data :: x :: args) →
  ∃ w',
    RoPEFusionIOSlicing_callback m w = Some (true, w')
    ∧ next_node w' = next_node w
    ∧ dom (nodes w') = dom (nodes w)
    ∧ new_nodes w' = (new_nodes w ++ [rope_node])%list
    ∧ stands_for w w' root rope_node
        (mkNode (OpRoPE config) (v_data :: args) (get_friendly_name root_node)
                (rt ++ [rope_node; get_node v_result])).
Proof.
  intros root rope_node Hroot Hin Hrope Hok Hndims Hsmall Hdata Hresult Hup.
  subst root rope_node.
  assert (get_node rope_out ≠ get_match_root m) as Hne.
  { intros E. rewrite E, Hroot in Hrope. injection Hrope as ->.
    cbn in Hin. injection Hin as <-.
    apply Forall_cons in Hup as [_ Hup]. apply Forall_cons in Hup as [Hx _].
    done. }
  unfold RoPEFusionIOSlicing_callback.
  rewrite (run_bind _ _ _ _ _ (run_get_input_node_shared_ptr w _ _ _ _ Hroot Hin)).
  mstep. cbn [node_op]. rewrite Hok. cbn [negb].
  rewrite (size_t_to_double_small _ Hsmall), Hndims, Z.eqb_refl. cbn [negb].
  mstep.
  rewrite (run_bind _ _ _ _ _ (run_set_argument_0 w _ _ _ _ _ Hrope eq_refl)).
  repeat mstep.
  cbn [nodes next_node new_nodes]. rewrite !insert_insert_eq.
  unfold register_new_node, replace_node, validate_and_infer_types, modify,
    with_nodes, ret, bind.
  cbn [nodes next_node new_nodes].
  cbn [with_rt_info with_friendly_name with_input_values rt_info node_op
       input_values get_friendly_name].
  eexists. split; [reflexivity|]. cbn [nodes next_node new_nodes].
  split; [done|]. split.
  { rewrite dom_fmap_L, dom_insert_L.
    apply subseteq_union_1_L, singleton_subseteq_l. by eapply elem_of_dom_2. }
  split; [done|].
  apply fused_stands_for; [done|done| |].
  - cbn. apply Forall_cons in Hup as [Hd Hup].
    apply Forall_cons in Hup as [_ Hup]. by apply Forall_cons.
  - intros x' Hx'. rewrite Hrope in Hx'. injection Hx' as <-. cbn.
    by apply Forall_cons in Hup as [_ Hup].
Qed.

(** X12.  The IOSlicing callback leaves the graph alone, answering
    [false], when the first input of the matched [Concat] is not a fused
    node, when the pattern validator rejects the match, and when
    [rotary_ndims] of the fused node, converted to [double] for the
    comparison, is not the matched [ndims]. *)
Theorem X12_io_slicing_rejects
    (m : Matcher) (w : World) (root_node in0_node : Node) (in0 : Output) :
  let root := get_match_root m in
  nodes w !! root = Some root_node →
  input_values root_node !! 0%nat = Some in0 →
  nodes w !! get_node in0 = Some in0_node →
  match node_op in0_node with
  | OpRoPE config =>
      validator_ok m = false
      ∨ size_t_to_double (rotary_ndims config) ≠ validator m "ndims"
  | _ => True
  end →
  RoPEFusionIOSlicing_callback m w = Some (false, w).
Proof.
  intros root Hroot Hin Hin0 Hcase. subst root.
  unfold RoPEFusionIOSlicing_callback.
  rewrite (run_bind _ _ _ _ _ (run_get_input_node_shared_ptr w _ _ _ _ Hroot Hin)).
  mstep. destruct (node_op in0_node) as [| | | |config|]; try done.
  destruct Hcase as [->|Hne]; [done|].
  destruct (validator_ok m); [|done]. cbn [negb].
  by apply Z.eqb_neq in Hne as ->.
Qed.

Lemma X11_io_slicing_removes_slice_and_concat_witness :
  ∃ w',
    RoPEFusionIOSlicing_callback (MoreExamples.io_slicing_match 64)
      MoreExamples.io_slicing_world = Some (true, w')
    ∧ next_node w' = 9%positive
    ∧ dom (nodes w') = dom MoreExamples.io_slicing_nodes
    ∧ new_nodes w' = [5%positive]
    ∧ stands_for MoreExamples.io_slicing_world w' 7 5
        (mkNode (OpRoPE Examples.neox_config)
           [Examples.out 1; Examples.out 3; Examples.out 4] "cat"
           [5%positive; 7%positive]).
Proof.
  apply (X11_io_slicing_removes_slice_and_concat (MoreExamples.io_slicing_match 64)
           MoreExamples.io_slicing_world Examples.neox_config
           (mkNode (OpOther "Concat") [Examples.out 5; Examples.out 6] "cat" [])
           (Examples.out 5) (Examples.out 1) (Examples.out 7) (Examples.out 2)
           [Examples.out 3; Examples.out 4] "rope" []);
    try reflexivity.
  repeat constructor; discriminate.
Defined.

Lemma X12_io_slicing_rejects_witness :
  RoPEFusionIOSlicing_callback (MoreExamples.io_slicing_match 32)
    MoreExamples.io_slicing_world
  = Some (false, MoreExamples.io_slicing_world).
Proof.
  apply (X12_io_slicing_rejects (MoreExamples.io_slicing_match 32)
           MoreExamples.io_slicing_world
           (mkNode (OpOther "Concat") [Examples.out 5; Examples.out 6] "cat" [])
           (mkNode (OpRoPE Examples.neox_config)
              [Examples.out 2; Examples.out 3; Examples.out 4] "rope" [])
           (Examples.out 5));
    try reflexivity.
  right. discriminate.
Defined.
End io_slicing.


(* ===================================================================== *)
(** * [RoPEFusionChatGLMHF] *)
(* ===================================================================== *)

Section chatglm_hf.
Import Cxx IR Graph Graph.Notations Pattern RoPE Passes Props Spec.

Lemma chatglmhf_rejects_integers m ndims head_cnt head_size half_ndims :
  symbol m "ndims" = SymInteger ndims →
  symbol m "head_cnt" = SymInteger head_cnt →
  symbol m "head_size" = SymInteger head_size →
  symbol m "ndims/2" = SymInteger half_ndims →
  in_int64 (half_ndims * 2) = true →
  chatglmhf_rejects m = Some (negb (half_ndims * 2 =? ndims)).
Proof.
  intros Hn Hc Hs Hh Hr. unfold chatglmhf_rejects, int64_mul.
  rewrite Hn, Hc, Hs, Hh. cbn. by rewrite Hr.
Qed.

(** X13.  When the four symbols are integers with
    [2 * (ndims/2) = ndims], the ChatGLM-HF callback puts one fused node
    in the place of the matched [Concat]: it reads [qk_linear], [cos]
    and [sin], has [rotary_ndims], [head_cnt] and [head_size] from the
    symbols, [is_chatglm] and [support_2d_rope] set, and every other
    field (among them [use_rope_cache]) at its default.  The node is not
    registered for further matching. *)
Theorem X13_chatglm_hf_fuses
    (m : Matcher) (w : World) (ndims head_cnt head_size half_ndims : Z)
    (v_qk v_cos v_sin in0 : Output) (root_node : Node) :
  let root := get_match_root m in
  let new_node := next_node w in
  symbol m "ndims" = SymInteger ndims →
  symbol m "head_cnt" = SymInteger head_cnt →
  symbol m "head_size" = SymInteger head_size →
  symbol m "ndims/2" = SymInteger half_ndims →
  half_ndims * 2 = ndims → in_int64 ndims = true →
  get_pattern_value_map m !! "qk_linear" = Some v_qk →
  get_pattern_value_map m !! "cos" = Some v_cos →
  get_pattern_value_map m !! "sin" = Some v_sin →
  nodes w !! root = Some root_node →
  input_values root_node !! 0%nat = Some in0 →
  nodes w !! new_node = None →
  Forall (λ o, get_node o ≠ root) [v_qk; v_cos; v_sin] →
  ∃ w',
    RoPEFusionChatGLMHF_callback m w = Some (true, w')
    ∧ next_node w' = Pos.succ new_node
    ∧ new_nodes w' = new_nodes w
    ∧ stands_for w w' root new_node
        (mkNode
           (OpRoPE (mkConfig 0 0 false false false (to_size_t ndims) true true
                             false false (to_size_t head_cnt) (to_size_t head_size) 0))
           [v_qk; v_cos; v_sin] (get_friendly_name root_node)
           [get_node in0; root]).
Proof.
  intros root new_node Hn Hc Hs Hh Hhalf Hrange Hqk Hcos Hsin Hroot Hin Hnew Hup.
  subst root new_node.
  assert (get_match_root m ≠ next_node w) as Hne by congruence.
  assert (chatglmhf_rejects m = Some false) as Hrej.
  { rewrite (chatglmhf_rejects_integers m _ _ _ _ Hn Hc Hs Hh) by (by rewrite Hhalf).
    by apply Z.eqb_eq in Hhalf as ->. }
  unfold RoPEFusionChatGLMHF_callback.
  rewrite (run_bind _ _ _ _ _ (run_lift w _ _ Hrej)).
  rewrite Hn, Hc, Hs. cbn [sym_i]. repeat mstep.
  erewrite run_bind
    by (eapply run_get_input_node_shared_ptr; [solve_lookup|eassumption]).
  repeat mstep.
  cbn [nodes next_node new_nodes]. rewrite !insert_insert_eq.
  unfold replace_node, modify, with_nodes, ret, bind.
  cbn [nodes next_node new_nodes].
  cbn [with_rt_info with_friendly_name rt_info node_op input_values
       get_friendly_name app].
  eexists. split; [reflexivity|]. cbn [nodes next_node new_nodes].
  split; [done|]. split; [done|].
  apply fused_stands_for; [done|done|done|].
  intros x Hx. congruence.
Qed.

(** X14.  When one of the four symbols is not an integer, or
    [2 * (ndims/2) ≠ ndims], the ChatGLM-HF callback answers [false] and
    leaves the graph alone. *)
Theorem X14_chatglm_hf_rejects
    (m : Matcher) (w : World) (ndims half_ndims : Z) :
  is_integer (symbol m "ndims") && is_integer (symbol m "head_cnt")
    && is_integer (symbol m "head_size") && is_integer (symbol m "ndims/2") = false
  ∨ (is_integer (symbol m "head_cnt") = true
     ∧ is_integer (symbol m "head_size") = true
     ∧ symbol m "ndims" = SymInteger ndims
     ∧ symbol m "ndims/2" = SymInteger half_ndims
     ∧ in_int64 (half_ndims * 2) = true
     ∧ half_ndims * 2 ≠ ndims) →
  RoPEFusionChatGLMHF_callback m w = Some (false, w).
Proof.
  intros Hbad. unfold RoPEFusionChatGLMHF_callback.
  assert (chatglmhf_rejects m = Some true) as Hrej.
  { unfold chatglmhf_rejects, int64_mul.
    destruct Hbad as [Hbad|(Hc & Hs & Hn & Hh & Hr & Hne)].
    - destruct (is_integer (symbol m "ndims")); [|done].
      destruct (is_integer (symbol m "head_cnt")); [|done].
      destruct (is_integer (symbol m "head_size")); [|done].
      destruct (is_integer (symbol m "ndims/2")); done.
    - rewrite Hc, Hs, Hn, Hh. cbn. rewrite Hr. cbn.
      by apply Z.eqb_neq in Hne as ->. }
  by rewrite (run_bind _ _ _ _ _ (run_lift w _ _ Hrej)).
Qed.

Lemma X13_chatglm_hf_fuses_witness :
  ∃ w',
    RoPEFusionChatGLMHF_callback (MoreExamples.chatglm_hf_match 32)
      MoreExamples.chatglm_hf_world = Some (true, w')
    ∧ next_node w' = 16%positive
    ∧ new_nodes w' = []
    ∧ stands_for MoreExamples.chatglm_hf_world w' 13 15
        (mkNode
           (OpRoPE (mkConfig 0 0 false false false 64 true true false false 2 128 0))
           [Examples.out 1; Examples.out 2; Examples.out 3] "cat"
           [11%positive; 13%positive]).
Proof.
  apply (X13_chatglm_hf_fuses (MoreExamples.chatglm_hf_match 32)
           MoreExamples.chatglm_hf_world 64 2 128 32
           (Examples.out 1) (Examples.out 2) (Examples.out 3) (Examples.out 11)
           (mkNode (OpOther "Concat") [Examples.out 11; Examples.out 12] "cat" []));
    try reflexivity.
  repeat constructor; discriminate.
Defined.

Lemma X14_chatglm_hf_rejects_witness :
  RoPEFusionChatGLMHF_callback (MoreExamples.chatglm_hf_match 31)
    MoreExamples.chatglm_hf_world
  = Some (false, MoreExamples.chatglm_hf_world).
Proof.
  apply (X14_chatglm_hf_rejects (MoreExamples.chatglm_hf_match 31)
           MoreExamples.chatglm_hf_world 64 31).
  right. repeat split; try reflexivity. discriminate.
Defined.
End chatglm_hf.


(* ===================================================================== *)
(** * [RoPEFusionQwen]: the slice windows *)
(* ===================================================================== *)

(** Read the fields of a node and of a configuration built by
    assignments, innermost assignment first. *)
Ltac config_fields :=
  cbv [IR.set_slice_start IR.set_slice_stop IR.set_input_trans0213
       IR.set_output_trans0213 IR.set_is_interleaved IR.set_rotary_ndims
       IR.set_is_chatglm IR.set_support_2d_rope IR.set_is_qwen
       IR.set_use_rope_cache IR.set_head_cnt IR.set_head_size
       IR.set_gather_position_arg_id IR.default_Config
       IR.slice_start IR.slice_stop IR.input_trans0213 IR.output_trans0213
       IR.is_interleaved IR.rotary_ndims IR.is_chatglm IR.support_2d_rope
       IR.is_qwen IR.use_rope_cache IR.head_cnt IR.head_size
       IR.gather_position_arg_id
       IR.with_op IR.with_input_values IR.with_friendly_name IR.with_rt_info
       IR.node_op IR.input_values IR.get_friendly_name IR.rt_info].

Section qwen.
Import Cxx IR Graph Graph.Notations Pattern RoPE Passes Props Spec.

Lemma qwen_rejects_accepts m head_cnt head_size head_size_over_2 :
  symbol m "head_cnt" = SymInteger head_cnt →
  symbol m "head_size" = SymInteger head_size →
  symbol m "head_size/2" = SymInteger head_size_over_2 →
  symbol m "head_cnt*head_size" = SymInteger (head_cnt * head_size) →
  head_size_over_2 * 2 = head_size →
  in_int64 head_size = true → in_int64 (head_cnt * head_size) = true →
  qwen_rejects m = Some false.
Proof.
  intros Hc Hs Hh Hp Hhalf Hr1 Hr2. unfold qwen_rejects, int64_mul.
  rewrite Hc, Hs, Hh, Hp. cbn. rewrite Hhalf, Hr1. cbn.
  rewrite Z.eqb_refl. cbn. rewrite Hr2. cbn. by rewrite Z.eqb_refl.
Qed.

Lemma run_node_at_absent m p w :
  get_pattern_value_map m !! p = None → node_at m p w = None.
Proof. intros H. unfold node_at, at_, bind, lift. by rewrite H. Qed.

Lemma run_bind_throws {A B} (c : M A) (k : A → M B) w :
  c w = None → bind c k w = None.
Proof. unfold bind. by intros ->. Qed.

(** X15.  The Qwen callback, run for the query ([split_output_id = 0])
    and for the key (any other value), gives the fused node adjacent
    slice windows of the same width [head_cnt * head_size]: the query
    rotates [[0, head_cnt * head_size)], the key
    [[head_cnt * head_size, 2 * head_cnt * head_size)].  When
    [position_ids] was matched it becomes input 3 and
    [gather_position_arg_id] is [3]; otherwise the node has three inputs
    and the field stays [0].  The node takes the place of the root and
    is not registered.
    The callback takes the provenance of the node from the reshapes
    [ListUnpack_Squeeze_0_1], [ListUnpack_Squeeze_1] when [position_ids]
    was matched and from the two squeezes otherwise, although the
    pattern chooses between reshape and squeeze on its own: when one of
    the two nodes it asks for is not in the match, [pattern_map.at]
    throws and the callback has no result. *)
Theorem X15_qwen_slice_windows
    (split_output_id : Z) (m : Matcher) (w : World)
    (head_cnt head_size head_size_over_2 : Z)
    (v_qkv v_cos v_sin : Output) (root_node : Node) :
  let pm := get_pattern_value_map m in
  let root := get_match_root m in
  let new_node := next_node w in
  let positions := pm !! "position_ids" in
  let width := head_cnt * head_size in
  let asked :=
    match positions with
    | Some _ => ["ListUnpack_Squeeze_0_1"; "ListUnpack_Squeeze_1"]
    | None => ["ListUnpack_586_Squeeze_0"; "ListUnpack_586_Squeeze"]
    end in
  symbol m "head_cnt" = SymInteger head_cnt →
  symbol m "head_size" = SymInteger head_size →
  symbol m "head_size/2" = SymInteger head_size_over_2 →
  symbol m "head_cnt*head_size" = SymInteger width →
  head_size_over_2 * 2 = head_size →
  0 <= head_cnt < 2 ^ 63 → 0 <= head_size < 2 ^ 63 → width < 2 ^ 63 →
  pm !! "qkv_proj" = Some v_qkv →
  pm !! "rotary_emb_cos" = Some v_cos →
  pm !! "rotary_emb_sin" = Some v_sin →
  Forall (λ p, is_Some (pm !! p))
    ["Multiply_567527"; "cat_Concat_593"; "mul_Multiply_594"; "result"] →
  nodes w !! root = Some root_node →
  nodes w !! new_node = None →
  Forall (λ o, get_node o ≠ root) ([v_qkv; v_cos; v_sin] ++ option_list positions) →
  (Forall (λ p, is_Some (pm !! p)) asked →
   ∃ w' rt,
     RoPEFusionQwen_callback split_output_id m w = Some (true, w')
     ∧ next_node w' = Pos.succ new_node
     ∧ new_nodes w' = new_nodes w
     ∧ stands_for w w' root new_node
         (mkNode
            (OpRoPE (mkConfig (if split_output_id =? 0 then 0 else width)
                              (if split_output_id =? 0 then width else 2 * width)
                              false false false head_size false false true false
                              head_cnt head_size
                              (match positions with Some _ => 3 | None => 0 end)))
            ([v_qkv; v_cos; v_sin] ++ option_list positions)
            (get_friendly_name root_node) rt))
  ∧ (¬ Forall (λ p, is_Some (pm !! p)) asked →
     RoPEFusionQwen_callback split_output_id m w = None).
Proof.
  intros pm root new_node positions width asked Hc Hs Hh Hp Hhalf Hrc Hrs Hrw
    Hqkv Hcos Hsin Hrt Hroot Hnew Hup.
  subst pm root new_node positions width asked.
  assert (get_match_root m ≠ next_node w) as Hne by congruence.
  assert (0 <= head_cnt * head_size) by nia.
  assert (qwen_rejects m = Some false) as Hrej.
  { eapply qwen_rejects_accepts; try eassumption.
    all: unfold in_int64; apply andb_true_iff; split;
      [apply Z.leb_le|apply Z.ltb_lt]; lia. }
  assert (to_size_t head_cnt = head_cnt) as Htc
    by (unfold to_size_t, size_t_modulus; apply Z.mod_small; lia).
  assert (to_size_t head_size = head_size) as Hts
    by (unfold to_size_t, size_t_modulus; apply Z.mod_small; lia).
  assert (size_t_mul head_cnt head_size = head_cnt * head_size) as Hmul
    by (unfold size_t_mul, size_t_modulus; apply Z.mod_small; lia).
  assert (size_t_add (head_cnt * head_size) (head_cnt * head_size)
          = 2 * (head_cnt * head_size)) as Hadd
    by (unfold size_t_add, size_t_modulus; rewrite Z.mod_small; lia).
  repeat (apply Forall_cons in Hrt as [[? ?] Hrt]). clear Hrt.
  unfold RoPEFusionQwen_callback.
  rewrite (run_bind _ _ _ _ _ (run_lift w _ _ Hrej)).
  rewrite Hc, Hs. cbn [sym_i]. repeat mstep.
  destruct (get_pattern_value_map m !! "position_ids") as [v_pos|] eqn:Hpos.
  - rewrite (count_Some _ _ _ Hpos). rewrite bind_assoc. mstep.
    split.
    + intros Hsq. repeat (apply Forall_cons in Hsq as [[? ?] Hsq]). clear Hsq.
      rewrite bind_assoc. mstep. rewrite bind_assoc.
      mstep. mstep. lazy beta iota. repeat mstep.
      cbn [nodes next_node new_nodes]. rewrite !insert_insert_eq.
      unfold replace_node, modify, with_nodes, ret, bind.
      cbn [nodes next_node new_nodes].
      cbn [with_rt_info with_friendly_name rt_info node_op input_values
           get_friendly_name app].
      eexists _, _. split; [reflexivity|]. cbn [nodes next_node new_nodes].
      split; [done|]. split; [done|].
      apply fused_stands_for; [|done|done|intros ? ?; congruence].
      cbn [nodes]. unfold fused_nodes. do 3 f_equal.
      rewrite Htc, Hts. destruct (split_output_id =? 0); config_fields;
        rewrite ?Hmul, ?Hadd; reflexivity.
    + intros Hsq. rewrite bind_assoc.
      destruct (get_pattern_value_map m !! "ListUnpack_Squeeze_0_1") eqn:Hsq0.
      2:{ apply run_bind_throws. by apply run_node_at_absent. }
      mstep. rewrite bind_assoc.
      destruct (get_pattern_value_map m !! "ListUnpack_Squeeze_1") eqn:Hsq1.
      2:{ apply run_bind_throws. by apply run_node_at_absent. }
      destruct Hsq. repeat constructor; by eexists.
  - rewrite (count_None _ _ Hpos).
    split.
    + intros Hsq. repeat (apply Forall_cons in Hsq as [[? ?] Hsq]). clear Hsq.
      rewrite bind_assoc. mstep. rewrite bind_assoc. mstep. mstep.
      lazy beta iota. repeat mstep.
      cbn [nodes next_node new_nodes]. rewrite !insert_insert_eq.
      unfold replace_node, modify, with_nodes, ret, bind.
      cbn [nodes next_node new_nodes].
      cbn [with_rt_info with_friendly_name rt_info node_op input_values
           get_friendly_name app].
      eexists _, _. split; [reflexivity|]. cbn [nodes next_node new_nodes].
      split; [done|]. split; [done|].
      apply fused_stands_for; [|done|done|intros ? ?; congruence].
      cbn [nodes]. unfold fused_nodes. do 3 f_equal.
      rewrite Htc, Hts. destruct (split_output_id =? 0); config_fields;
        rewrite ?Hmul, ?Hadd; reflexivity.
    + intros Hsq. rewrite bind_assoc.
      destruct (get_pattern_value_map m !! "ListUnpack_586_Squeeze_0") eqn:Hsq0.
      2:{ apply run_bind_throws. by apply run_node_at_absent. }
      mstep. rewrite bind_assoc.
      destruct (get_pattern_value_map m !! "ListUnpack_586_Squeeze") eqn:Hsq1.
      2:{ apply run_bind_throws. by apply run_node_at_absent. }
      destruct Hsq. repeat constructor; by eexists.
Qed.

Lemma X15_qwen_slice_windows_witness :
  (∃ wq wk rtq rtk,
     RoPEFusionQwen_callback 0 MoreExamples.qwen_match MoreExamples.qwen_world
     = Some (true, wq)
     ∧ stands_for MoreExamples.qwen_world wq 13 15
         (mkNode
            (OpRoPE (mkConfig 0 4096 false false false 128 false false true false
                              32 128 0))
            [Examples.out 1; Examples.out 2; Examples.out 3] "add_Add_597" rtq)
     ∧ RoPEFusionQwen_callback 1 MoreExamples.qwen_match MoreExamples.qwen_world
       = Some (true, wk)
     ∧ stands_for MoreExamples.qwen_world wk 13 15
         (mkNode
            (OpRoPE (mkConfig 4096 8192 false false false 128 false false true false
                              32 128 0))
            [Examples.out 1; Examples.out 2; Examples.out 3] "add_Add_597" rtk))
  ∧ RoPEFusionQwen_callback 0 MoreExamples.qwen_mixed_match
      MoreExamples.qwen_positions_world = None.
Proof.
  assert (∀ id, ∃ w' rt,
            RoPEFusionQwen_callback id MoreExamples.qwen_match MoreExamples.qwen_world
            = Some (true, w')
            ∧ next_node w' = 16%positive
            ∧ new_nodes w' = []
            ∧ stands_for MoreExamples.qwen_world w' 13 15
                (mkNode
                   (OpRoPE (mkConfig (if id =? 0 then 0 else 4096)
                                     (if id =? 0 then 4096 else 8192)
                                     false false false 128 false false true false
                                     32 128 0))
                   [Examples.out 1; Examples.out 2; Examples.out 3]
                   "add_Add_597" rt)) as H.
  { intros id.
    apply (X15_qwen_slice_windows id MoreExamples.qwen_match MoreExamples.qwen_world
             32 128 64 (Examples.out 1) (Examples.out 2) (Examples.out 3)
             (mkNode (OpOther "Add") [Examples.out 12; Examples.out 11]
                "add_Add_597" []));
      try reflexivity; try lia.
    - repeat constructor; by eexists.
    - repeat constructor; discriminate.
    - repeat constructor; by eexists. }
  split.
  - destruct (H 0) as (wq & rtq & Hq & _ & _ & Hsq).
    destruct (H 1) as (wk & rtk & Hk & _ & _ & Hsk).
    by exists wq, wk, rtq, rtk.
  - apply (X15_qwen_slice_windows 0 MoreExamples.qwen_mixed_match
             MoreExamples.qwen_positions_world
             32 128 64 (Examples.out 1) (Examples.out 2) (Examples.out 3)
             (mkNode (OpOther "Add") [Examples.out 12; Examples.out 11]
                "add_Add_597" []));
      try reflexivity; try lia.
    + repeat constructor; by eexists.
    + repeat constructor; discriminate.
    + intros Hsq. apply Forall_cons in Hsq as [[? Hsq] _]. discriminate Hsq.
Defined.
End qwen.


(* ===================================================================== *)
(** * [RoPEFusionChatGLM]: the slice windows and the reshape root *)
(* ===================================================================== *)

Section chatglm.
Import Cxx IR Graph Graph.Notations Pattern RoPE Passes Props Spec.

Lemma chatglm_validate_accepts m :
  in_int32 (validator m "A") = true →
  in_int32 (validator m "B") = true →
  in_int32 (validator m "C") = true →
  in_int32 (validator m "head_cnt") = true →
  chatglm_triple (validator m "A") (validator m "B") (validator m "C")
                 (validator m "head_cnt") →
  chatglm_validate_reshape_symbols m = Some true.
Proof.
  intros HA HB HC Hh Ht.
  unfold chatglm_validate_reshape_symbols, double_to_int.
  rewrite HA, HB, HC, Hh. cbn.
  destruct Ht as [(-> & -> & ->)|[(-> & -> & ->)|(-> & -> & ->)]];
    rewrite ?Z.eqb_refl; cbn; rewrite ?orb_true_r; done.
Qed.

(** X16.  When the validator accepts the match and the reshape symbols
    form an accepted triple, the ChatGLM callback puts one fused node in
    the place of the root.  The node reads [qkv_linear] and twice the
    [cos_sin_cache]; it has [is_chatglm] and [use_rope_cache] set,
    [support_2d_rope] as the rule was constructed, and adjacent slice
    windows for query and key: the query ([split_output_id = 0]) rotates
    [[0, total_size_q)] and the key rotates from [total_size_q] to the
    sum of [total_size_q] and [total_size_k] taken in [double]: the
    exact sum as long as it stays below [2^53], the nearest double
    beyond.  A root that is a [Reshape] is fused only if
    [ndims = head_size]. *)
Theorem X16_chatglm_slice_windows
    (split_output_id : Z) (support_2d : bool) (m : Matcher) (w : World)
    (v_qkv v_cache in0 : Output) (root_node : Node) :
  let pm := get_pattern_value_map m in
  let root := get_match_root m in
  let new_node := next_node w in
  let total_size_q := validator m "total_size_q" in
  let total_size_k := validator m "total_size_k" in
  let key_stop := double_add (size_t_to_double total_size_q) total_size_k in
  validator_ok m = true →
  Forall (λ s, in_int32 (validator m s) = true) ["A"; "B"; "C"; "head_cnt"] →
  chatglm_triple (validator m "A") (validator m "B") (validator m "C")
                 (validator m "head_cnt") →
  Forall (λ s, in_size_t (validator m s) = true)
         ["ndims"; "head_cnt"; "head_size"; "total_size_q"] →
  (split_output_id ≠ 0 → in_size_t key_stop = true) →
  (node_op root_node = OpReshape → validator m "ndims" = validator m "head_size") →
  pm !! "qkv_linear" = Some v_qkv →
  pm !! "cos_sin_cache" = Some v_cache →
  nodes w !! root = Some root_node →
  input_values root_node !! 0%nat = Some in0 →
  nodes w !! new_node = None →
  Forall (λ o, get_node o ≠ root) [v_qkv; v_cache] →
  (∃ w',
     RoPEFusionChatGLM_callback split_output_id support_2d m w = Some (true, w')
     ∧ next_node w' = Pos.succ new_node
     ∧ new_nodes w' = new_nodes w
     ∧ stands_for w w' root new_node
         (mkNode
            (OpRoPE (mkConfig (if split_output_id =? 0 then 0 else total_size_q)
                              (if split_output_id =? 0 then total_size_q
                               else key_stop)
                              false false false (validator m "ndims") true support_2d
                              false true (validator m "head_cnt")
                              (validator m "head_size") 0))
            [v_qkv; v_cache; v_cache] (get_friendly_name root_node)
            [get_node in0; root]))
  ∧ (total_size_q < 2 ^ 53 → - 2 ^ 53 < total_size_q + total_size_k < 2 ^ 53 →
     key_stop = total_size_q + total_size_k).
Proof.
  intros pm root new_node total_size_q total_size_k key_stop Hok Hint Htriple Hsize
    Hsum Hreshape Hqkv Hcache Hroot Hin Hnew Hup.
  subst pm root new_node total_size_q total_size_k key_stop.
  split.
  2:{ intros Hq Hs. rewrite size_t_to_double_small by done.
      by apply double_add_small. }
  assert (get_match_root m ≠ next_node w) as Hne by congruence.
  repeat (apply Forall_cons in Hint as [? Hint]). clear Hint.
  apply Forall_cons in Hsize as [Hnd Hsize].
  apply Forall_cons in Hsize as [Hhc Hsize].
  apply Forall_cons in Hsize as [Hhs Hsize].
  apply Forall_cons in Hsize as [Hq _].
  repeat (apply Forall_cons in Hup as [? Hup]). clear Hup.
  assert (chatglm_validate_reshape_symbols m = Some true) as Hvalid
    by (by apply chatglm_validate_accepts).
  assert (∀ v, in_size_t v = true → double_to_size_t v = Some v) as Hconv
    by (intros v Hv; unfold double_to_size_t; by rewrite Hv).
  unfold RoPEFusionChatGLM_callback. rewrite Hok. cbn [negb].
  rewrite (run_bind _ _ _ _ _ (run_lift w _ _ Hvalid)). cbn [negb].
  rewrite (run_bind _ _ _ _ _ (run_lift w _ _ (Hconv _ Hnd))).
  rewrite (run_bind _ _ _ _ _ (run_lift w _ _ (Hconv _ Hhc))).
  rewrite (run_bind _ _ _ _ _ (run_lift w _ _ (Hconv _ Hhs))).
  assert (∀ k : Config → M bool,
            bind (if split_output_id =? 0
                  then
                    stop <- lift (double_to_size_t (validator m "total_size_q")) ;;
                    ret (set_slice_stop stop
                           (set_slice_start 0
                              (set_head_size (validator m "head_size")
                                 (set_head_cnt (validator m "head_cnt")
                                    (set_use_rope_cache true
                                       (set_support_2d_rope support_2d
                                          (set_is_chatglm true
                                             (set_rotary_ndims (validator m "ndims")
                                                default_Config))))))))
                  else
                    start <- lift (double_to_size_t (validator m "total_size_q")) ;;
                    stop <- lift (double_to_size_t
                                    (double_add
                                       (size_t_to_double
                                          (slice_start
                                             (set_slice_start start
                                                (set_head_size (validator m "head_size")
                                                   (set_head_cnt (validator m "head_cnt")
                                                      (set_use_rope_cache true
                                                         (set_support_2d_rope support_2d
                                                            (set_is_chatglm true
                                                               (set_rotary_ndims
                                                                  (validator m "ndims")
                                                                  default_Config)))))))))
                                       (validator m "total_size_k"))) ;;
                    ret (set_slice_stop stop
                           (set_slice_start start
                              (set_head_size (validator m "head_size")
                                 (set_head_cnt (validator m "head_cnt")
                                    (set_use_rope_cache true
                                       (set_support_2d_rope support_2d
                                          (set_is_chatglm true
                                             (set_rotary_ndims (validator m "ndims")
                                                default_Config)))))))))
                 k w
            = k (mkConfig (if split_output_id =? 0 then 0
                           else validator m "total_size_q")
                          (if split_output_id =? 0 then validator m "total_size_q"
                           else double_add
                                  (size_t_to_double (validator m "total_size_q"))
                                  (validator m "total_size_k"))
                          false false false (validator m "ndims") true support_2d
                          false true (validator m "head_cnt")
                          (validator m "head_size") 0) w) as Hcfg.
  { intros k. destruct (split_output_id =? 0) eqn:Hid.
    - rewrite bind_assoc.
      rewrite (run_bind _ _ _ _ _ (run_lift w _ _ (Hconv _ Hq))).
      by erewrite run_bind by reflexivity.
    - apply Z.eqb_neq in Hid. rewrite bind_assoc.
      rewrite (run_bind _ _ _ _ _ (run_lift w _ _ (Hconv _ Hq))).
      rewrite bind_assoc. config_fields.
      rewrite (run_bind _ _ _ _ _ (run_lift w _ _ (Hconv _ (Hsum Hid)))).
      by erewrite run_bind by reflexivity. }
  rewrite Hcfg. clear Hcfg.
  mstep. cbn [rotary_ndims IR.head_size].
  assert (bool_decide (node_op root_node = OpReshape)
          && negb (validator m "ndims" =? validator m "head_size") = false) as ->.
  { case_bool_decide as Hop; [|done]. cbn.
    rewrite (Hreshape Hop), Z.eqb_refl. done. }
  repeat mstep.
  erewrite run_bind
    by (eapply run_get_input_node_shared_ptr; [solve_lookup|eassumption]).
  repeat mstep.
  cbn [nodes next_node new_nodes]. rewrite !insert_insert_eq.
  unfold replace_node, modify, with_nodes, ret, bind.
  cbn [nodes next_node new_nodes].
  cbn [with_rt_info with_friendly_name rt_info node_op input_values
       get_friendly_name app].
  eexists. split; [reflexivity|]. cbn [nodes next_node new_nodes].
  split; [done|]. split; [done|].
  apply fused_stands_for; [done|done| |intros ? ?; congruence].
  cbn. repeat constructor; assumption.
Qed.

(** X17.  A match whose root is a [Reshape] is not fused when the rotary
    dimension count differs from the head size: the callback answers
    [false] and leaves the graph alone. *)
Theorem X17_chatglm_reshape_root_needs_full_rotation
    (split_output_id : Z) (support_2d : bool) (m : Matcher) (w : World)
    (root_node : Node) :
  validator_ok m = true →
  chatglm_validate_reshape_symbols m = Some true →
  Forall (λ s, in_size_t (validator m s) = true)
         ["ndims"; "head_cnt"; "head_size"; "total_size_q"] →
  (split_output_id ≠ 0 →
   in_size_t (double_add (size_t_to_double (validator m "total_size_q"))
                         (validator m "total_size_k")) = true) →
  nodes w !! get_match_root m = Some root_node →
  node_op root_node = OpReshape →
  validator m "ndims" ≠ validator m "head_size" →
  RoPEFusionChatGLM_callback split_output_id support_2d m w = Some (false, w).
Proof.
  intros Hok Hvalid Hsize Hsum Hroot Hop Hne.
  apply Forall_cons in Hsize as [Hnd Hsize].
  apply Forall_cons in Hsize as [Hhc Hsize].
  apply Forall_cons in Hsize as [Hhs Hsize].
  apply Forall_cons in Hsize as [Hq _].
  assert (∀ v, in_size_t v = true → double_to_size_t v = Some v) as Hconv
    by (intros v Hv; unfold double_to_size_t; by rewrite Hv).
  unfold RoPEFusionChatGLM_callback. rewrite Hok. cbn [negb].
  rewrite (run_bind _ _ _ _ _ (run_lift w _ _ Hvalid)). cbn [negb].
  rewrite (run_bind _ _ _ _ _ (run_lift w _ _ (Hconv _ Hnd))).
  rewrite (run_bind _ _ _ _ _ (run_lift w _ _ (Hconv _ Hhc))).
  rewrite (run_bind _ _ _ _ _ (run_lift w _ _ (Hconv _ Hhs))).
  apply Z.eqb_neq in Hne.
  destruct (split_output_id =? 0) eqn:Hid.
  - rewrite bind_assoc.
    rewrite (run_bind _ _ _ _ _ (run_lift w _ _ (Hconv _ Hq))).
    erewrite run_bind by reflexivity. mstep.
    rewrite Hop, bool_decide_eq_true_2 by done. config_fields.
    by rewrite Hne.
  - apply Z.eqb_neq in Hid. rewrite bind_assoc.
    rewrite (run_bind _ _ _ _ _ (run_lift w _ _ (Hconv _ Hq))).
    rewrite bind_assoc. config_fields.
    rewrite (run_bind _ _ _ _ _ (run_lift w _ _ (Hconv _ (Hsum Hid)))).
    erewrite run_bind by reflexivity. mstep.
    rewrite Hop, bool_decide_eq_true_2 by done. config_fields.
    by rewrite Hne.
Qed.

Lemma X16_chatglm_slice_windows_witness :
  (∃ w',
     RoPEFusionChatGLM_callback 1 false (Examples.chatglm_match (-1) 32 1)
       Examples.chatglm_world = Some (true, w')
     ∧ next_node w' = 11%positive
     ∧ new_nodes w' = []
     ∧ stands_for Examples.chatglm_world w' 8 10
         (mkNode
            (OpRoPE (mkConfig 4096 4352 false false false 64 true false false true
                              32 128 0))
            [Examples.out 1; Examples.out 2; Examples.out 2] "cat_Concat_505"
            [6%positive; 8%positive]))
  ∧ (∃ w',
       RoPEFusionChatGLM_callback 1 false MoreExamples.chatglm_large_match
         Examples.chatglm_world = Some (true, w')
       ∧ stands_for Examples.chatglm_world w' 8 10
           (mkNode
              (OpRoPE (mkConfig 9007199254740992 9007199254740992
                                false false false 64 true false false true
                                32 128 0))
              [Examples.out 1; Examples.out 2; Examples.out 2] "cat_Concat_505"
              [6%positive; 8%positive])).
Proof.
  split.
  - apply (X16_chatglm_slice_windows 1 false (Examples.chatglm_match (-1) 32 1)
             Examples.chatglm_world (Examples.out 1) (Examples.out 2) (Examples.out 6)
             (mkNode (OpOther "Concat") [Examples.out 6; Examples.out 7]
                "cat_Concat_505" []));
      try reflexivity.
    + repeat constructor.
    + left. repeat split.
    + repeat constructor.
    + discriminate.
    + repeat constructor; discriminate.
  - destruct (X16_chatglm_slice_windows 1 false MoreExamples.chatglm_large_match
                Examples.chatglm_world (Examples.out 1) (Examples.out 2)
                (Examples.out 6)
                (mkNode (OpOther "Concat") [Examples.out 6; Examples.out 7]
                   "cat_Concat_505" []))
      as [(w' & Hrun & _ & _ & Hst) _]; try reflexivity.
    + repeat constructor.
    + left. repeat split.
    + repeat constructor.
    + discriminate.
    + repeat constructor; discriminate.
    + exists w'. split; [exact Hrun|exact Hst].
Defined.

Lemma X17_chatglm_reshape_root_needs_full_rotation_witness :
  RoPEFusionChatGLM_callback 0 false MoreExamples.chatglm_reshape_match
    Examples.chatglm_world
  = Some (false, Examples.chatglm_world).
Proof.
  apply (X17_chatglm_reshape_root_needs_full_rotation 0 false
           MoreExamples.chatglm_reshape_match Examples.chatglm_world
           (mkNode OpReshape [Examples.out 5] "flatten_Reshape_501" []));
    try reflexivity.
  - repeat constructor.
  - discriminate.
Defined.
End chatglm.


(* ===================================================================== *)
(** * [RoPEShareCosSin]: the members across matches *)
(* ===================================================================== *)

Section share_members.
Import Cxx IR Graph Graph.Notations Pattern RoPE Passes Props Spec.

Lemma share_collect_inputs_members m indices this completed this' :
  share_collect_inputs m indices this = Some (completed, this') →
  m_inv_freq this' = m_inv_freq this
  ∧ m_shared_cos0 this' = m_shared_cos0 this
  ∧ m_shared_sin0 this' = m_shared_sin0 this
  ∧ length (m_shared_inputs this') = length (m_shared_inputs this).
Proof.
  revert this. induction indices as [|i indices IH]; intros this H; cbn in H.
  - by simplify_eq.
  - destruct (inputs !! i) as [p|]; [|done]. cbn in H.
    destruct (get_pattern_value_map m !! p) as [v|]; [|by simplify_eq].
    apply IH in H as (-> & -> & -> & ->). cbn.
    by rewrite length_insert.
Qed.

(** X18.  Whatever the match, the sharing callback never overwrites what
    it has recorded: once the constant is recorded, the constant and the
    two shared inputs stay; a recorded cosine or sine seed stays; the
    number of shared inputs never changes; and a seed is only ever
    recorded together with, or after, the constant; in such a state a
    callback that replaced a node ([true]) changed no member at all. *)
Theorem X18_share_members_are_kept
    (m : Matcher) (this this' : RoPEShareCosSin) (b : bool) (w w' : World) :
  RoPEShareCosSin_callback m this w = Some ((b, this'), w') →
  (∀ g, m_inv_freq this = Some g →
        m_inv_freq this' = Some g ∧ m_shared_inputs this' = m_shared_inputs this)
  ∧ (∀ s, m_shared_cos0 this = Some s → m_shared_cos0 this' = Some s)
  ∧ (∀ s, m_shared_sin0 this = Some s → m_shared_sin0 this' = Some s)
  ∧ length (m_shared_inputs this') = length (m_shared_inputs this)
  ∧ (seeds_after_constant this →
     seeds_after_constant this' ∧ (b = true → this' = this)).
Proof.
  intros H. unfold RoPEShareCosSin_callback in H. minv H.
  all: repeat match goal with
       | E : share_collect_inputs _ _ _ = Some _ |- _ =>
           apply share_collect_inputs_members in E as (? & ? & ? & ?)
       end.
  all: repeat match goal with
       | E : negb (ptr_to_bool ?p) = _ |- _ => destruct p eqn:?; cbn in E
       | E : _ && _ = true |- _ => apply andb_true_iff in E as [? ?]
       end; try discriminate.
  all: unfold seeds_after_constant; cbn in *.
  all: repeat split; intros; simplify_eq; try done; try congruence.
  all: eauto.
  all: repeat match goal with
       | H : m_shared_cos0 _ = m_shared_cos0 _ |- _ => rewrite H in *; clear H
       | H : m_shared_sin0 _ = m_shared_sin0 _ |- _ => rewrite H in *; clear H
       end.
  all: match goal with
       | HJ : _ ∨ _ → is_Some (m_inv_freq ?t), Hn : m_inv_freq ?t = None |- _ =>
           rewrite Hn in HJ; exfalso;
           assert (is_Some (@None positive)) as [? ?]; [apply HJ|done]
       end.
  all: try assumption.
  all: unfold deref in *; destruct (count m "sin_Sin"); [right|left]; by eexists.
Qed.

Lemma X18_share_members_are_kept_witness :
  ∃ this' w',
    RoPEShareCosSin_callback Examples.share_match_1 Examples.share_seeded
      (Examples.share_world Examples.inv_freq)
    = Some ((true, this'), w')
    ∧ m_inv_freq this' = Some 3%positive
    ∧ m_shared_cos0 this' = Some 11%positive
    ∧ this' = Examples.share_seeded.
Proof.
  pose (w' := default (Examples.share_world Examples.inv_freq)
                (snd <$> RoPEShareCosSin_callback Examples.share_match_1
                           Examples.share_seeded
                           (Examples.share_world Examples.inv_freq))).
  assert (RoPEShareCosSin_callback Examples.share_match_1 Examples.share_seeded
            (Examples.share_world Examples.inv_freq)
          = Some ((true, Examples.share_seeded), w')) as Hrun
    by (vm_compute; reflexivity).
  destruct (X18_share_members_are_kept _ _ _ _ _ _ Hrun)
    as (Hinv & Hcos & _ & _ & Hsame).
  exists Examples.share_seeded, w'. split; [exact Hrun|].
  split; [by apply (Hinv 3%positive)|]. split; [by apply (Hcos 11%positive)|].
  apply Hsame; [|reflexivity]. intros _. by eexists.
Defined.
End share_members.


(* ===================================================================== *)
(** * [RoPEFusionGPTJ]: moving the [ShapeOf] readers *)
(* ===================================================================== *)

Section gptj_shapeof.
Import Cxx IR Graph Graph.Notations Pattern RoPE Passes Props Spec.

Lemma bool_decide_ext_if {A} (P Q : Prop) `{Decision P, Decision Q} (a b : A) :
  (P ↔ Q) → (if bool_decide P then a else b) = (if bool_decide Q then a else b).
Proof. intros HPQ. by rewrite (bool_decide_ext P Q HPQ). Qed.

Lemma replace_source_output_inv inp o u w w1 :
  replace_source_output inp o w = Some (u, w1) →
  ∃ x, nodes w !! input_node inp = Some x
       ∧ w1 = mkWorld (<[input_node inp :=
                           with_input_values (<[input_index inp := o]> (input_values x)) x]>
                         (nodes w))
                      (next_node w) (new_nodes w).
Proof.
  unfold replace_source_output.
  intros (x & w2 & [Hx <-]%find_node_inv & (x' & Hx' & ->)%update_node_inv)%bind_inv.
  exists x. split; [done|]. by simplify_eq.
Qed.

(** The loop over the readers: a port is re-pointed to [v] exactly when
    it is one of the readers and belongs to a [ShapeOf] node. *)
Lemma move_readers_ports m v readers :
  get_pattern_value_map m !! "view_Reshape" = Some v →
  ∀ w w',
    for_each readers (λ input,
      is_shapeof <- is_op OpShapeOf (input_node input) ;;
      if is_shapeof : bool then
        v <- at_ m "view_Reshape" ;;
        replace_source_output input v
      else ret tt) w = Some (tt, w') →
    ∀ k x, nodes w !! k = Some x →
      ∃ x', nodes w' !! k = Some x'
            ∧ node_op x' = node_op x
            ∧ ∀ i, input_values x' !! i
                   = if bool_decide (node_op x = OpShapeOf
                                     ∧ mkInput k i ∈ readers
                                     ∧ (i < length (input_values x))%nat)
                     then Some v else input_values x !! i.
Proof.
  intros Hv. induction readers as [|inp readers IH]; intros w w' H k x Hx.
  - cbn in H. apply ret_inv in H as [_ <-]. exists x. split; [done|].
    split; [done|]. intros i. rewrite bool_decide_eq_false_2; [done|].
    intros (_ & Hin & _). by apply elem_of_nil in Hin.
  - cbn [for_each] in H. apply bind_inv in H as (u & w1 & Hbody & H).
    cbn beta in Hbody.
    apply bind_inv in Hbody as (b & w2 & [(y & Hy & <-) <-]%is_op_inv & Hbody).
    destruct (bool_decide (node_op y = OpShapeOf)) eqn:Hop.
    + (* the reader belongs to a ShapeOf: its port is re-pointed *)
      apply bind_inv in Hbody as (v' & w3 & [Hv' <-]%at_inv & Hr).
      assert (v' = v) as -> by congruence.
      apply replace_source_output_inv in Hr as (y' & Hy' & ->).
      assert (y' = y) as -> by congruence.
      apply bool_decide_eq_true_1 in Hop.
      destruct (decide (k = input_node inp)) as [->|Hk].
      * assert (y = x) as -> by congruence.
        destruct (IH _ _ H (input_node inp)
                    (with_input_values (<[input_index inp := v]> (input_values x)) x))
          as (x' & Hx' & Hop' & Hports).
        { cbn. by rewrite lookup_insert_eq. }
        exists x'. split; [done|]. split; [done|]. intros i.
        rewrite Hports. cbn. rewrite length_insert.
        destruct (decide (i = input_index inp)) as [->|Hi].
        -- destruct (decide (input_index inp < length (input_values x))%nat).
           ++ rewrite list_lookup_insert_eq by done.
              rewrite (bool_decide_eq_true_2 (_ ∧ _ ∈ inp :: readers ∧ _)).
              ** by case_bool_decide.
              ** split; [done|]. split; [|done]. destruct inp. left.
           ++ rewrite list_insert_ge by lia.
              by rewrite !bool_decide_eq_false_2 by (intros (_ & _ & ?); done).
        -- rewrite list_lookup_insert_ne by done.
           apply bool_decide_ext_if. rewrite elem_of_cons.
           split; [intros (? & ? & ?); split; [done|]; split; [by right|done]|]. intros (? & [E|?] & ?); [|done].
           destruct inp. by simplify_eq.
      * destruct (IH _ _ H k x) as (x' & Hx' & Hop' & Hports).
        { cbn. by rewrite lookup_insert_ne. }
        exists x'. split; [done|]. split; [done|]. intros i.
        rewrite Hports. apply bool_decide_ext_if. rewrite elem_of_cons.
        split; [intros (? & ? & ?); split; [done|]; split; [by right|done]|]. intros (? & [E|?] & ?); [|done].
        destruct inp. by simplify_eq.
    + (* the reader belongs to another node: nothing changes *)
      apply ret_inv in Hbody as [_ <-].
      apply bool_decide_eq_false_1 in Hop.
      destruct (IH _ _ H k x Hx) as (x' & Hx' & Hop' & Hports).
      exists x'. split; [done|]. split; [done|]. intros i.
      rewrite Hports. apply bool_decide_ext_if. rewrite elem_of_cons.
      split; [intros (? & ? & ?); split; [done|]; split; [by right|done]|]. intros (? & [E|?] & ?); [|done].
      destruct inp. simplify_eq. cbn in *. congruence.
Qed.

(** X19.  The last step of the GPT-J callback moves the [ShapeOf]
    readers of the rotary sum to the data input, but only when the sum
    has exactly two readers: then every port of a [ShapeOf] node that
    read the sum reads [view_Reshape], and every other port of every
    node is as before.  With any other number of readers the graph is
    not touched, and [ShapeOf] readers stay on the sum. *)
Theorem X19_gptj_shapeof_readers_moved
    (m : Matcher) (w : World) (remb v : Output) :
  let rotary_emb_out := mkOutput (get_node remb) 0 in
  get_pattern_value_map m !! "rotary_emb" = Some remb →
  get_pattern_value_map m !! "view_Reshape" = Some v →
  ∃ w',
    gptj_move_shapeof m w = Some (tt, w')
    ∧ (length (target_inputs (nodes w) rotary_emb_out) ≠ 2%nat → w' = w)
    ∧ (length (target_inputs (nodes w) rotary_emb_out) = 2%nat →
       ∀ k x, nodes w !! k = Some x →
         ∃ x', nodes w' !! k = Some x'
               ∧ node_op x' = node_op x
               ∧ ∀ i, input_values x' !! i
                      = if bool_decide (node_op x = OpShapeOf
                                        ∧ input_values x !! i = Some rotary_emb_out)
                        then Some v else input_values x !! i).
Proof.
  intros o Hr Hv. subst o.
  destruct (run_gptj_move_shapeof m w remb v Hr Hv) as (w' & Hrun & _).
  exists w'. split; [done|].
  unfold gptj_move_shapeof in Hrun.
  apply bind_inv in Hrun as (n & w1 & [(remb' & Hr' & <-) <-]%node_at_inv & Hrun).
  assert (remb' = remb) as -> by congruence.
  apply bind_inv in Hrun as (readers & w1 & [<- <-]%get_target_inputs_inv & Hrun).
  split.
  - intros Hlen. apply Nat.eqb_neq in Hlen. rewrite Hlen in Hrun.
    by apply ret_inv in Hrun as [_ <-].
  - intros Hlen k x Hx. rewrite Hlen in Hrun. cbn [Nat.eqb] in Hrun.
    destruct (move_readers_ports m v _ Hv _ _ Hrun k x Hx) as (x' & Hx' & Hop & Hports).
    exists x'. split; [done|]. split; [done|]. intros i. rewrite Hports.
    apply bool_decide_ext_if. rewrite elem_of_target_inputs. cbn. split.
    + intros (? & (y & Hy & Hi) & _). by simplify_eq.
    + intros [? Hi]. split; [done|]. split; [by exists x|].
      by eapply lookup_lt_Some.
Qed.

Lemma X19_gptj_shapeof_readers_moved_witness :
  ∃ w' x',
    gptj_move_shapeof Examples.gptj_match MoreExamples.gptj_shapeof_world
    = Some (tt, w')
    ∧ nodes w' !! 24%positive = Some x'
    ∧ node_op x' = OpShapeOf
    ∧ input_values x' !! 0%nat = Some (Examples.out 1).
Proof.
  destruct (X19_gptj_shapeof_readers_moved Examples.gptj_match
              MoreExamples.gptj_shapeof_world (Examples.out 17) (Examples.out 1)
              eq_refl eq_refl)
    as (w' & Hrun & _ & Hmoved).
  destruct (Hmoved ltac:(by vm_compute) 24%positive
              (mkNode OpShapeOf [Examples.out 17] "shape" []) eq_refl)
    as (x' & Hx' & Hop & Hports).
  exists w', x'. split; [exact Hrun|]. split; [exact Hx'|]. split; [exact Hop|].
  exact (Hports 0%nat).
Defined.
End gptj_shapeof.


(* ===================================================================== *)
(** * Every registered callback: no dangling input *)
(* ===================================================================== *)

Section closed.
Import Cxx IR Graph Graph.Notations Pattern RoPE Passes Props.

Lemma elem_of_insert_inv {A} (l : list A) i v o :
  o ∈ <[i := v]> l → o = v ∨ o ∈ l.
Proof.
  intros (j & Hj)%list_elem_of_lookup_1.
  destruct (decide (j = i)) as [->|Hne].
  - destruct (decide (i < length l)%nat).
    + rewrite list_lookup_insert_eq in Hj by done. left. congruence.
    + rewrite list_insert_ge in Hj by lia. right. by eapply list_elem_of_lookup_2.
  - rewrite list_lookup_insert_ne in Hj by done. right.
    by eapply list_elem_of_lookup_2.
Qed.

(** A write to a node keeps the identities of the store. *)
Lemma insert_keeps_nodes (g : gmap positive Node) n y k :
  is_Some (g !! k) → is_Some (<[n := y]> g !! k).
Proof.
  intros Hk. destruct (decide (k = n)) as [->|Hne].
  - rewrite lookup_insert_eq. by eexists.
  - by rewrite lookup_insert_ne.
Qed.

Lemma update_node_keeps_nodes n f u w w1 k :
  update_node n f w = Some (u, w1) → is_Some (nodes w !! k) → is_Some (nodes w1 !! k).
Proof. intros (x & Hx & ->)%update_node_inv. apply insert_keeps_nodes. Qed.

Lemma set_argument_keeps_nodes n position v u w w1 k :
  set_argument n position v w = Some (u, w1) →
  is_Some (nodes w !! k) → is_Some (nodes w1 !! k).
Proof. intros (x & l & Hx & -> & _)%set_argument_inv. apply insert_keeps_nodes. Qed.

Lemma replace_source_output_keeps_nodes i o u w w1 k :
  replace_source_output i o w = Some (u, w1) →
  is_Some (nodes w !! k) → is_Some (nodes w1 !! k).
Proof. intros (x & Hx & ->)%replace_source_output_inv. apply insert_keeps_nodes. Qed.

Lemma make_shared_RoPE_keeps_nodes args cfg n w w1 k :
  make_shared_RoPE args cfg w = Some (n, w1) →
  is_Some (nodes w !! k) → is_Some (nodes w1 !! k).
Proof. intros [= <- <-]. apply insert_keeps_nodes. Qed.

Lemma make_shared_RoPE_new args cfg n w w1 :
  make_shared_RoPE args cfg w = Some (n, w1) → is_Some (nodes w1 !! n).
Proof. intros [= <- <-]. cbn. rewrite lookup_insert_eq. by eexists. Qed.

Lemma replace_node_keeps_nodes target replacement u w w1 k :
  replace_node target replacement w = Some (u, w1) →
  is_Some (nodes w !! k) → is_Some (nodes w1 !! k).
Proof.
  intros [= <- <-] [x Hx]. unfold with_nodes. cbn. rewrite lookup_fmap, Hx.
  by eexists.
Qed.

Lemma register_new_node_keeps_nodes n u w w1 k :
  register_new_node n w = Some (u, w1) →
  is_Some (nodes w !! k) → is_Some (nodes w1 !! k).
Proof. by intros [= <- <-]. Qed.

(** A write that gives a node inputs produced in the store keeps the
    store closed. *)
Lemma closed_insert w n x y :
  closed w → nodes w !! n = Some x →
  (∀ o, o ∈ input_values y → is_Some (nodes w !! get_node o)) →
  closed (mkWorld (<[n := y]> (nodes w)) (next_node w) (new_nodes w)).
Proof.
  intros Hc Hx Hy k z o Hz Ho. cbn in Hz |- *. apply insert_keeps_nodes.
  destruct (decide (k = n)) as [->|Hne].
  - rewrite lookup_insert_eq in Hz. simplify_eq. by apply Hy.
  - rewrite lookup_insert_ne in Hz by done. by eapply Hc.
Qed.

Lemma closed_update_node n f u w w1 :
  (∀ x, input_values (f x) = input_values x) →
  closed w → update_node n f w = Some (u, w1) → closed w1.
Proof.
  intros Hf Hc (x & Hx & ->)%update_node_inv.
  eapply closed_insert; [done|done|]. intros o Ho. rewrite Hf in Ho.
  by eapply Hc.
Qed.

Lemma closed_set_friendly_name n s u w w1 :
  closed w → set_friendly_name n s w = Some (u, w1) → closed w1.
Proof. intros Hc H. by eapply closed_update_node; [|exact Hc|exact H]. Qed.

Lemma closed_copy_runtime_info from to u w w1 :
  closed w → copy_runtime_info from to w = Some (u, w1) → closed w1.
Proof. intros Hc H. by eapply closed_update_node; [|exact Hc|exact H]. Qed.

Lemma closed_set_config n cfg u w w1 :
  closed w → set_config n cfg w = Some (u, w1) → closed w1.
Proof. intros Hc H. by eapply closed_update_node; [|exact Hc|exact H]. Qed.

Lemma closed_set_argument n position v u w w1 :
  closed w → is_Some (nodes w !! get_node v) →
  set_argument n position v w = Some (u, w1) → closed w1.
Proof.
  intros Hc Hv (x & l & Hx & -> & Hl)%set_argument_inv.
  eapply closed_insert; [done|done|]. cbn. intros o Ho.
  destruct Hl as [[_ ->]|[_ ->]].
  - apply elem_of_insert_inv in Ho as [->|Ho]; [done|by eapply Hc].
  - apply elem_of_app in Ho as [Ho|Ho]; [by eapply Hc|].
    by apply list_elem_of_singleton in Ho as ->.
Qed.

Lemma closed_replace_source_output i v u w w1 :
  closed w → is_Some (nodes w !! get_node v) →
  replace_source_output i v w = Some (u, w1) → closed w1.
Proof.
  intros Hc Hv (x & Hx & ->)%replace_source_output_inv.
  eapply closed_insert; [done|done|]. cbn. intros o Ho.
  apply elem_of_insert_inv in Ho as [->|Ho]; [done|by eapply Hc].
Qed.

Lemma closed_make_shared_RoPE args cfg n w w1 :
  closed w → Forall (λ o, is_Some (nodes w !! get_node o)) args →
  make_shared_RoPE args cfg w = Some (n, w1) → closed w1.
Proof.
  intros Hc Hargs [= <- <-] k z o Hz Ho. cbn in Hz |- *.
  apply insert_keeps_nodes.
  destruct (decide (k = next_node w)) as [->|Hne].
  - rewrite lookup_insert_eq in Hz. simplify_eq. cbn in Ho.
    rewrite Forall_forall in Hargs. by apply Hargs.
  - rewrite lookup_insert_ne in Hz by done. by eapply Hc.
Qed.

Lemma closed_replace_node target replacement u w w1 :
  closed w → is_Some (nodes w !! replacement) →
  replace_node target replacement w = Some (u, w1) → closed w1.
Proof.
  intros Hc [r Hr] [= <- <-] k z o Hz Ho. unfold with_nodes in *. cbn in Hz |- *.
  rewrite lookup_fmap in Hz |- *.
  destruct (nodes w !! k) as [x|] eqn:Hx; [|done]. cbn in Hz. simplify_eq.
  cbn in Ho. apply list_elem_of_fmap in Ho as (o' & -> & Ho').
  unfold redirect. case_decide; cbn.
  - rewrite Hr. by eexists.
  - destruct (Hc k x o' Hx Ho') as [y ->]. by eexists.
Qed.

Lemma closed_register_new_node n u w w1 :
  closed w → register_new_node n w = Some (u, w1) → closed w1.
Proof. by intros Hc [= <- <-]. Qed.

Lemma move_readers_closed m readers :
  ∀ u w w1,
    closed w →
    (∀ v, get_pattern_value_map m !! "view_Reshape" = Some v →
          is_Some (nodes w !! get_node v)) →
    for_each readers (λ input,
      is_shapeof <- is_op OpShapeOf (input_node input) ;;
      if is_shapeof : bool then
        v <- at_ m "view_Reshape" ;;
        replace_source_output input v
      else ret tt) w = Some (u, w1) →
    closed w1 ∧ ∀ k, is_Some (nodes w !! k) → is_Some (nodes w1 !! k).
Proof.
  induction readers as [|inp readers IH]; intros u w w1 Hc Hv H.
  - cbn in H. by apply ret_inv in H as [_ <-].
  - cbn [for_each] in H. apply bind_inv in H as (u' & w2 & Hbody & H).
    cbn beta in Hbody. minv Hbody.
    + assert (closed w2) as Hc2.
      { eapply closed_replace_source_output; [exact Hc| |eassumption].
        by eapply Hv. }
      assert (∀ k, is_Some (nodes w !! k) → is_Some (nodes w2 !! k)) as Hkeep.
      { intros k. eapply replace_source_output_keeps_nodes. eassumption. }
      destruct (IH _ _ _ Hc2 ltac:(intros; apply Hkeep; eauto) H) as [Hc1 Hk1].
      split; [done|]. intros k Hk. by apply Hk1, Hkeep.
    + by eapply IH.
Qed.

Lemma gptj_move_shapeof_closed m u w w1 :
  closed w → match_in_graph m w →
  gptj_move_shapeof m w = Some (u, w1) →
  closed w1 ∧ ∀ k, is_Some (nodes w !! k) → is_Some (nodes w1 !! k).
Proof.
  intros Hc Hm H. unfold gptj_move_shapeof in H. minv H; [|done].
  eapply move_readers_closed; [exact Hc| |eassumption].
  intros v Hv. by eapply Hm.
Qed.
End closed.

(** The node is in the store the run has reached. *)
Ltac in_store :=
  first
    [ by eexists
    | eapply make_shared_RoPE_new; eassumption
    | match goal with
      | Hm : Props.match_in_graph ?m ?w |- is_Some (IR.nodes ?w !! _) =>
          eapply Hm; eassumption
      end
    | eapply update_node_keeps_nodes; [eassumption|]; in_store
    | eapply set_argument_keeps_nodes; [eassumption|]; in_store
    | eapply replace_source_output_keeps_nodes; [eassumption|]; in_store
    | eapply make_shared_RoPE_keeps_nodes; [eassumption|]; in_store
    | eapply replace_node_keeps_nodes; [eassumption|]; in_store
    | eapply register_new_node_keeps_nodes; [eassumption|]; in_store ].

(** The store the run has reached is closed, write by write. *)
Ltac closing :=
  first
    [ assumption
    | eapply closed_register_new_node; [|eassumption]; closing
    | eapply closed_replace_node; [| |eassumption]; [closing|in_store]
    | eapply closed_copy_runtime_info; [|eassumption]; closing
    | eapply closed_set_friendly_name; [|eassumption]; closing
    | eapply closed_set_config; [|eassumption]; closing
    | eapply closed_set_argument; [| |eassumption]; [closing|in_store]
    | eapply closed_make_shared_RoPE; [| |eassumption];
      [closing|repeat constructor; in_store] ].

Section closed_callbacks.
Import Cxx IR Graph Graph.Notations Pattern RoPE Passes Props.

Lemma Flux_closed m b w w' :
  closed w → match_in_graph m w →
  RoPEFusionFlux_callback m w = Some (b, w') → closed w'.
Proof. intros Hc Hm H. unfold RoPEFusionFlux_callback in H. minv H; closing. Qed.

Lemma GPTNEOX_closed m b w w' :
  closed w → match_in_graph m w →
  RoPEFusionGPTNEOX_callback m w = Some (b, w') → closed w'.
Proof. intros Hc Hm H. unfold RoPEFusionGPTNEOX_callback in H. minv H; closing. Qed.

Lemma GPTJ_closed m b w w' :
  closed w → match_in_graph m w →
  RoPEFusionGPTJ_callback m w = Some (b, w') → closed w'.
Proof.
  intros Hc Hm H. unfold RoPEFusionGPTJ_callback in H. minv H; try closing.
  all: eapply gptj_move_shapeof_closed; [| |eassumption];
    [closing|intros p v Hpv; in_store].
Qed.

Lemma CosSinPreprocess_closed m b w w' :
  closed w → match_in_graph m w →
  RoPEFusionCosSinPreprocess_callback m w = Some (b, w') → closed w'.
Proof.
  intros Hc Hm H. unfold RoPEFusionCosSinPreprocess_callback in H.
  minv H; closing.
Qed.

Lemma IOSlicing_closed m b w w' :
  closed w → match_in_graph m w →
  RoPEFusionIOSlicing_callback m w = Some (b, w') → closed w'.
Proof. intros Hc Hm H. unfold RoPEFusionIOSlicing_callback in H. minv H; closing. Qed.

Lemma Preprocess_closed m b w w' :
  closed w → match_in_graph m w →
  RoPEFusionPreprocess_callback m w = Some (b, w') → closed w'.
Proof. intros Hc Hm H. unfold RoPEFusionPreprocess_callback in H. minv H; closing. Qed.

Lemma ChatGLM_closed split_output_id support_2d m b w w' :
  closed w → match_in_graph m w →
  RoPEFusionChatGLM_callback split_output_id support_2d m w = Some (b, w') →
  closed w'.
Proof. intros Hc Hm H. unfold RoPEFusionChatGLM_callback in H. minv H; closing. Qed.

Lemma ChatGLMHF_closed m b w w' :
  closed w → match_in_graph m w →
  RoPEFusionChatGLMHF_callback m w = Some (b, w') → closed w'.
Proof. intros Hc Hm H. unfold RoPEFusionChatGLMHF_callback in H. minv H; closing. Qed.

Lemma Qwen_closed split_output_id m b w w' :
  closed w → match_in_graph m w →
  RoPEFusionQwen_callback split_output_id m w = Some (b, w') → closed w'.
Proof. intros Hc Hm H. unfold RoPEFusionQwen_callback in H. minv H; closing. Qed.

Lemma ShareCosSin_closed m this r w w' :
  closed w → seeds_in_graph this w →
  RoPEShareCosSin_callback m this w = Some (r, w') → closed w'.
Proof.
  intros Hc [Hcos Hsin] H. unfold RoPEShareCosSin_callback in H. minv H; try closing.
  all: repeat match goal with
       | E : share_collect_inputs _ _ _ = Some _ |- _ =>
           apply share_collect_inputs_members in E as (_ & ? & ? & _)
       end.
  all: (eapply closed_replace_node; [exact Hc| |eassumption]).
  all: unfold deref in *; cbn in *; destruct (count m "sin_Sin").
  all: first [ apply Hsin; congruence | apply Hcos; congruence ].
Qed.

(** X20.  A callback leaves no dangling input: when every input of the
    graph is produced by a node of the graph, the values bound by the
    match are produced by nodes of the graph, and the seeds the sharing
    pass holds are nodes of the graph, then after the callback every
    input is again produced by a node of the graph. *)
Theorem X20_callback_keeps_graph_closed
    (p : MatcherPass) (m : Matcher) (this : RoPEShareCosSin)
    (r : bool * RoPEShareCosSin) (w w' : World) :
  closed w → match_in_graph m w → seeds_in_graph this w →
  callback p m this w = Some (r, w') →
  ∀ k x o, nodes w' !! k = Some x → o ∈ input_values x →
           is_Some (nodes w' !! get_node o).
Proof.
  intros Hc Hm Hs H. change (closed w'). destruct p; cbn [callback] in H;
    try (apply bind_inv in H as (b & w1 & H & [_ <-]%ret_inv)).
  - by eapply Flux_closed.
  - by eapply GPTNEOX_closed.
  - by eapply GPTJ_closed.
  - by eapply CosSinPreprocess_closed.
  - by eapply IOSlicing_closed.
  - by eapply Preprocess_closed.
  - by eapply ChatGLM_closed.
  - by eapply ChatGLMHF_closed.
  - by eapply Qwen_closed.
  - by eapply ShareCosSin_closed.
Qed.

Lemma closed_checked w :
  map_Forall (λ _ x, forallb (λ o, bool_decide (is_Some (nodes w !! get_node o)))
                       (input_values x) = true) (nodes w) →
  closed w.
Proof.
  intros H k x o Hx Ho. specialize (H k x Hx). cbn in H.
  rewrite forallb_forall in H.
  eapply bool_decide_eq_true_1. apply H. by apply list_elem_of_In.
Qed.

Lemma match_in_graph_checked m w :
  map_Forall (λ _ v, is_Some (nodes w !! get_node v)) (get_pattern_value_map m) →
  match_in_graph m w.
Proof. intros H p v Hp. by apply (H p v). Qed.

Lemma X20_callback_keeps_graph_closed_witness :
  ∃ w',
    closed Examples.gptneox_world
    ∧ match_in_graph Examples.gptneox_match Examples.gptneox_world
    ∧ seeds_in_graph RoPEShareCosSin_new Examples.gptneox_world
    ∧ callback GPTNEOX Examples.gptneox_match RoPEShareCosSin_new
        Examples.gptneox_world
      = Some ((true, RoPEShareCosSin_new), w')
    ∧ ∀ k x o, nodes w' !! k = Some x → o ∈ input_values x →
               is_Some (nodes w' !! get_node o).
Proof.
  assert (closed Examples.gptneox_world) as Hc.
  { apply closed_checked, (bool_decide_unpack _). by vm_compute. }
  assert (match_in_graph Examples.gptneox_match Examples.gptneox_world) as Hm.
  { apply match_in_graph_checked, (bool_decide_unpack _). by vm_compute. }
  assert (seeds_in_graph RoPEShareCosSin_new Examples.gptneox_world) as Hs
    by (by split).
  eexists. split; [exact Hc|]. split; [exact Hm|]. split; [exact Hs|].
  split; [vm_compute; reflexivity|].
  apply (X20_callback_keeps_graph_closed GPTNEOX Examples.gptneox_match
           RoPEShareCosSin_new (true, RoPEShareCosSin_new) Examples.gptneox_world);
    [exact Hc | exact Hm | exact Hs |].
  vm_compute. reflexivity.
Defined.
End closed_callbacks.


(* ===================================================================== *)
(** * Every registered callback: the nodes handed back to the matcher *)
(* ===================================================================== *)

Section new_nodes.
Import Cxx IR Graph Graph.Notations Pattern RoPE Passes Props.









End new_nodes.


Section registered_callbacks.
Import Cxx IR Graph Graph.Notations Pattern RoPE Passes Props.













End registered_callbacks.
